(** * py-sss-pts: the steady-state IOPS test of run.py

    A shallow embedding of [run.py] (SNIA SSS PTS IOPS test driver) and
    the properties of its steady-state decision and measurement loop.

    Conventions of the embedding.
    - Python [int] is [Z].
    - Python [float] / NumPy [float64] is IEEE 754 binary64, the
      [spec_float] of the Standard Library with 53 bits of precision:
      module [Binary64] has the arithmetic and the steady-state test as
      the program runs it, every operation rounded to nearest.
    - The steady-state test is also read over exact rationals ([Q], so
      [0.2] is 1/5 and [0.1] is 1/10), outside [Binary64]: this is the
      test on series of real values, without rounding, as the
      specification words it.
    - A Python list is a Rocq [list]; [append] is [l ++ [x]].
    - Code that can raise returns [option] (pure code) or a [result]
      (the session monad further down). *)

From Stdlib Require Import String Ascii.
From Stdlib Require Import QArith Qabs Qround ZArith List Bool Lia Lqa.
From Stdlib Require Import SpecFloat.
From Stdlib Require DecimalString HexadecimalString.
From Stdlib Require Import Setoid Morphisms.
Import ListNotations.

Open Scope Q_scope.

(** * The steady-state test in exact arithmetic

    [in_steady_state] with its numbers read as rationals and its
    operations as the exact ones: the test the specification describes
    on series of real values.  The test as the program runs it, in
    binary64, is [Binary64.in_steady_state] further down. *)

(** ** Python and NumPy primitives used by [in_steady_state] *)

(** [len(l)] *)
Definition len {A : Type} (l : list A) : Z := Z.of_nat (length l).

(** [l[-n:]]: the slice starting at index [-n].  A negative start counts
    from the end and is clamped at 0; [-0] is [0], so [l[-0:]] is all of
    [l]; for [n < 0] the start [-n] is positive and clamped at [len l]. *)
Definition slice_from_neg {A : Type} (l : list A) (n : Z) : list A :=
  let start := if (0 <? n)%Z then Z.max (len l - n) 0 else Z.min (- n) (len l) in
  skipn (Z.to_nat start) l.

(** [range(a, b)] *)
Definition range (a b : Z) : list Z :=
  map (fun i => (a + Z.of_nat i)%Z) (seq 0 (Z.to_nat (b - a))).

(** [sum] of a list of numbers. *)
Definition sumQ (l : list Q) : Q := fold_right Qplus 0 l.

(** [np.mean(l)]: the sum divided by the number of elements.  (On an empty
    list NumPy gives NaN; every caller below rules the empty list out
    before the mean is used.) *)
Definition np_mean (l : list Q) : Q := sumQ l / inject_Z (len l).

(** [a > b] and [a >= b] on floats. *)
Definition Qgtb (a b : Q) : bool := negb (Qle_bool a b).
Definition Qgeb (a b : Q) : bool := Qle_bool b a.

(** [max(l)]: the first largest element; [ValueError] ([None]) on an empty
    list. *)
Definition py_max (l : list Q) : option Q :=
  match l with
  | [] => None
  | y :: rest => Some (fold_left (fun m v => if Qgtb v m then v else m) rest y)
  end.

(** [min(l)]: the first smallest element; [ValueError] ([None]) on an empty
    list. *)
Definition py_min (l : list Q) : option Q :=
  match l with
  | [] => None
  | y :: rest => Some (fold_left (fun m v => if Qgtb m v then v else m) rest y)
  end.

(** ** [scipy.stats.linregress]

    The library function is not part of the repository; it is embedded
    from its definition: with [xmean], [ymean] the means,
    [ssxm = mean((x - xmean)^2)] and [ssxym = mean((x - xmean)*(y - ymean))]
    (the entries of [np.cov(x, y, bias=1)]), the slope is [ssxym / ssxm]
    and the intercept [ymean - slope * xmean].  [None] stands for every
    input without a finite fit: empty input or inputs of different
    lengths (ValueError), and a zero [ssxm] (all x identical: ValueError,
    or NaN for a single point).  The correlation coefficient and the
    error estimates of the result are not used for control flow by the
    program and are left out. *)
Record LinregressResult : Type := { slope : Q; intercept : Q }.

Definition ssxm (x : list Q) : Q :=
  np_mean (map (fun xi => (xi - np_mean x) * (xi - np_mean x)) x).

Definition ssxym (x y : list Q) : Q :=
  np_mean (map (fun p => (fst p - np_mean x) * (snd p - np_mean y)) (combine x y)).

Definition linregress (x y : list Q) : option LinregressResult :=
  if (length x =? 0)%nat || (length y =? 0)%nat then None
  else if negb (length x =? length y)%nat then None
  else if Qeq_bool (ssxm x) 0 then None
  else
    let s := ssxym x y / ssxm x in
    Some {| slope := s; intercept := np_mean y - s * np_mean x |}.

(** ** [in_steady_state] (run.py, lines 472-521)

    The function has four [return] statements, each announced by its own
    [logging.info] line; [exit_point] names them, [steady_state_exit] is
    the body of the function and says which one is reached, and
    [in_steady_state] is the value returned there.  [None] is an
    exception raised by [max]/[min] or no finite fit from [linregress],
    which can only happen for window sizes below 2. *)
Inductive exit_point : Type :=
| TooShort      (* "list too short": return False, line 478 *)
| FailedA       (* "a) failed": return False, line 493 *)
| FailedB       (* "b) failed": return False, line 513 *)
| AllPassed.    (* "all checks passed, in steady state": return True, line 521 *)

Definition returned (e : exit_point) : bool :=
  match e with AllPassed => true | _ => false end.

Definition steady_state_exit (values : list Q) (window_size : Z) : option exit_point :=
  (* must be at least window_size values in list *)
  if (len values <? window_size)%Z then Some TooShort
  else
    (* last window_size values *)
    let yvalues := slice_from_neg values window_size in
    (* calculate avg and range *)
    let yavg := np_mean yvalues in
    match py_max yvalues, py_min yvalues with
    | Some ymax, Some ymin =>
        let yrange := ymax - ymin in
        if Qgeb yrange (0.2 * yavg) then Some FailedA
        else
          (* x = number of round *)
          let xvalues := range (len values - window_size + 1) (len values + 1) in
          (* best linear fit *)
          match linregress (map inject_Z xvalues) yvalues with
          | Some res =>
              (* calculate range for linear fit *)
              let yrange_fit := Qabs (slope res) * inject_Z (window_size - 1) in
              if Qgeb yrange_fit (0.1 * yavg) then Some FailedB
              else Some AllPassed
          | None => None
          end
    | _, _ => None
    end.

Definition in_steady_state (values : list Q) (window_size : Z) : option bool :=
  option_map returned (steady_state_exit values window_size).

(** ** The steady-state criterion in the words of the specification

    The measurement window is the last [w] elements; the range is the
    largest minus the smallest element; the trend is the slope of the
    ordinary least-squares line through the window, in the textbook form
    [(n * Sxy - Sx * Sy) / (n * Sxx - Sx * Sx)] over the positions
    1, 2, ..., n of the window. *)
Definition window (series : list Q) (w : nat) : list Q :=
  skipn (length series - w) series.






(** * Python floats

    A Python [float] and a NumPy [float64] are IEEE 754 binary64
    numbers: plus and minus zero, the finite numbers [m * 2^e] with a
    mantissa of at most 53 bits, plus and minus infinity, and NaN.  Every
    operation gives the exact result rounded to the nearest such number,
    ties to the even mantissa.  They are the [spec_float] of the
    Standard Library with [prec = 53] and [emax = 1024]; no operation
    raises: a quotient by zero and an overflow are infinities or NaN. *)
Module Binary64.

Definition prec : Z := 53.
Definition emax : Z := 1024.

Definition float : Type := spec_float.

Definition zero : float := S754_zero false.

Definition add : float -> float -> float := SFadd prec emax.
Definition sub : float -> float -> float := SFsub prec emax.
Definition mul : float -> float -> float := SFmul prec emax.
Definition div : float -> float -> float := SFdiv prec emax.
Definition abs : float -> float := SFabs.

(** [a >= b] and [a > b]: false when either side is NaN. *)
Definition geb (a b : float) : bool := SFleb b a.
Definition gtb (a b : float) : bool := SFltb b a.

(** The integer [z] as an operand, not rounded. *)
Definition exact (z : Z) : float :=
  match z with
  | Z0 => zero
  | Zpos p => S754_finite false p 0
  | Zneg p => S754_finite true p 0
  end.

(** The float nearest to [a / b]: the value of the decimal literal with
    numerator [a] and denominator [b] ([0.2] is [ratio 2 10]), and the
    correctly rounded quotient [a / b] of two Python integers. *)
Definition ratio (a b : Z) : float := div (exact a) (exact b).

(** The float nearest to the integer [z]: an integer that meets a float
    in an operation is converted first. *)
Definition of_Z (z : Z) : float := binary_normalize prec emax z 0 false.

Definition is_infinite (f : float) : bool :=
  match f with S754_infinity _ => true | _ => false end.


(** The finite float cut to an integer, toward zero. *)
Definition truncate (f : float) : option Z :=
  match f with
  | S754_zero _ => Some 0%Z
  | S754_finite s m e =>
      let a := if s then Z.neg m else Z.pos m in
      Some (if (0 <=? e)%Z then a * 2 ^ e else Z.quot a (2 ^ (- e)))%Z
  | _ => None
  end.

(** ** NumPy and SciPy on float64

    [np.mean] and [scipy.stats.linregress] are library code; they are
    embedded from their sources, operation by operation. *)

(** [np.add.reduce] over a contiguous array: fewer than 8 elements are
    added one after the other; up to 128 elements are added in 8
    interleaved partial sums, which are then added pairwise, and the
    elements left over after the last block of 8 are added at the end;
    a longer array is split in two halves (the first a multiple of 8)
    that are summed the same way.  (The sign of a sum that is zero is
    not followed; no comparison depends on it.) *)
Definition sum_from (acc : float) (l : list float) : float := fold_left add l acc.

Definition add8 (r a : list float) : list float :=
  map (fun p => add (fst p) (snd p)) (combine r a).

Fixpoint blocks8 (blocks : nat) (r a : list float) : list float * list float :=
  match blocks with
  | O => (r, a)
  | S blocks' => blocks8 blocks' (add8 r (firstn 8 a)) (skipn 8 a)
  end.

Definition tree8 (r : list float) : float :=
  match r with
  | [r0; r1; r2; r3; r4; r5; r6; r7] =>
      add (add (add r0 r1) (add r2 r3)) (add (add r4 r5) (add r6 r7))
  | _ => zero
  end.

Fixpoint pairwise_sum (fuel : nat) (a : list float) : float :=
  let n := length a in
  if (n <? 8)%nat then sum_from zero a
  else if (n <=? 128)%nat then
    let (r, rest) := blocks8 (n / 8 - 1) (firstn 8 a) (skipn 8 a) in
    sum_from (tree8 r) rest
  else
    match fuel with
    | O => zero
    | S fuel' =>
        let n2 := (n / 2 - (n / 2) mod 8)%nat in
        add (pairwise_sum fuel' (firstn n2 a)) (pairwise_sum fuel' (skipn n2 a))
    end.

Definition np_sum (a : list float) : float := pairwise_sum (length a) a.

(** [np.mean(a)]: the sum divided by the number of elements (NaN for
    the empty list). *)
Definition np_mean (a : list float) : float := div (np_sum a) (of_Z (len a)).

(** [max(l)] and [min(l)] of Python: the first element that no later
    one is [>] (or [<]); [ValueError] ([None]) on an empty list. *)
Definition py_max (l : list float) : option float :=
  match l with
  | [] => None
  | y :: rest => Some (fold_left (fun m v => if gtb v m then v else m) rest y)
  end.

Definition py_min (l : list float) : option float :=
  match l with
  | [] => None
  | y :: rest => Some (fold_left (fun m v => if gtb m v then v else m) rest y)
  end.

(** [np.amax] and [np.amin] of a non-empty array of integers. *)
Definition amax (x : list Z) : Z := fold_left Z.max (tl x) (hd 0%Z x).
Definition amin (x : list Z) : Z := fold_left Z.min (tl x) (hd 0%Z x).

(** The product of a row by a column in [np.dot]: the products are
    added one after the other.  (The order in which the BLAS routine
    behind [np.dot] adds them is not fixed by NumPy.) *)
Definition dot (a b : list float) : float :=
  fold_left (fun acc p => add acc (mul (fst p) (snd p))) (combine a b) zero.

(** [scipy.stats.linregress(x, y)] for a list of integers [x] and a list
    of floats [y].  It raises [ValueError] ([None]) on an empty input,
    on inputs of different lengths and when all of several [x] are the
    same.  Otherwise [np.cov(x, y, bias=1)] subtracts from each row its
    mean, multiplies the rows, and multiplies the products by [1 / n];
    the slope is the quotient of its entries [ssxym] and [ssxm].  The
    other fields of the result are not used for control flow by the
    program and are left out. *)
Record LinregressResult : Type := { slope : float; intercept : float }.

Definition linregress (x : list Z) (y : list float) : option LinregressResult :=
  if (length x =? 0)%nat || (length y =? 0)%nat then None
  else if negb (length x =? length y)%nat then None
  else if (1 <? length x)%nat && (amax x =? amin x)%Z then None
  else
    let xs := map of_Z x in
    let xmean := np_mean xs in
    let ymean := np_mean y in
    let dx := map (fun v => sub v xmean) xs in
    let dy := map (fun v => sub v ymean) y in
    let norm := div (of_Z 1) (of_Z (len x)) in
    let ssxm := mul (dot dx dx) norm in
    let ssxym := mul (dot dx dy) norm in
    let s := div ssxym ssxm in
    Some {| slope := s; intercept := sub ymean (mul s xmean) |}.

(** ** [in_steady_state] (run.py, lines 472-521)

    The body of the function, statement by statement, on a list of
    floats; [None] is an exception raised by [max]/[min] or
    [linregress]. *)
Definition steady_state_exit (values : list float) (window_size : Z) : option exit_point :=
  (* must be at least window_size values in list *)
  if (len values <? window_size)%Z then Some TooShort
  else
    (* last window_size values *)
    let yvalues := slice_from_neg values window_size in
    (* calculate avg and range *)
    let yavg := np_mean yvalues in
    match py_max yvalues, py_min yvalues with
    | Some ymax, Some ymin =>
        let yrange := sub ymax ymin in
        if geb yrange (mul (ratio 2 10) yavg) then Some FailedA
        else
          (* x = number of round *)
          let xvalues := range (len values - window_size + 1) (len values + 1) in
          (* best linear fit *)
          match linregress xvalues yvalues with
          | Some res =>
              (* calculate range for linear fit *)
              let yrange_fit := mul (abs (slope res)) (of_Z (window_size - 1)) in
              if geb yrange_fit (mul (ratio 1 10) yavg) then Some FailedB
              else Some AllPassed
          | None => None
          end
    | _, _ => None
    end.

Definition in_steady_state (values : list float) (window_size : Z) : option bool :=
  option_map returned (steady_state_exit values window_size).

(** ** The steady-state criterion in the words of the specification,
    with the quantities the program computes

    [range] and [fitted_range] are the two quantities compared, [avg]
    the mean of the window; each is the binary64 result of the
    operations above. *)
Definition window (series : list float) (w : Z) : list float := slice_from_neg series w.

Definition avg (series : list float) (w : Z) : float := np_mean (window series w).

Definition range_of (series : list float) (w : Z) : option float :=
  match py_max (window series w), py_min (window series w) with
  | Some ymax, Some ymin => Some (sub ymax ymin)
  | _, _ => None
  end.

Definition fitted_range (series : list float) (w : Z) : option float :=
  option_map (fun res => mul (abs (slope res)) (of_Z (w - 1)))
    (linregress (range (len series - w + 1) (len series + 1)) (window series w)).


End Binary64.

(** * The test session

    The rest of [run.py] talks to the machine: it runs subprocesses,
    reads and writes files, parses what the tools print.  The embedding
    threads an explicit state of the outside world through the program
    and records every interaction in a trace. *)

(** ** Python values and exceptions *)

(** What [json.loads] yields: a number without fraction or exponent is
    an [int], any other number a [float]; objects are dictionaries in
    insertion order. *)
#[local] Unset Elimination Schemes.
Inductive json : Type :=
| JNull
| JBool (b : bool)
| JInt (z : Z)
| JFloat (f : Binary64.float)
| JStr (s : string)
| JArr (l : list json)
| JObj (kv : list (string * json)).
#[local] Set Elimination Schemes.

(** Uncaught Python exceptions. *)
Inductive exn : Type :=
| KeyError | IndexError | TypeError | ValueError | NameError | JSONDecodeError
| OverflowError | ZeroDivisionError.

(** How a computation ends: normally, by [sys.exit(code)], or by an
    exception nobody catches (the interpreter prints a traceback and the
    process ends). *)
Inductive result (A : Type) : Type :=
| Ok (a : A)
| Exit (code : Z)
| Raised (e : exn).
Arguments Ok {A} a.
Arguments Exit {A} code.
Arguments Raised {A} e.

Definition is_ok {A : Type} (r : result A) : bool :=
  match r with Ok _ => true | _ => false end.

Definition aborted {A : Type} (r : result A) : Prop :=
  match r with Ok _ => False | _ => True end.

(** Pure code that can raise. *)
Definition rbind {A B : Type} (r : result A) (f : A -> result B) : result B :=
  match r with
  | Ok a => f a
  | Exit c => Exit c
  | Raised e => Raised e
  end.

(** [d[k] = v] on a dictionary: replace in place or add at the end. *)
Fixpoint dict_set {V : Type} (k : string) (v : V) (d : list (string * V)) : list (string * V) :=
  match d with
  | [] => [(k, v)]
  | (k', v') :: d' => if String.eqb k k' then (k, v) :: d' else (k', v') :: dict_set k v d'
  end.

Fixpoint dict_get {V : Type} (k : string) (d : list (string * V)) : option V :=
  match d with
  | [] => None
  | (k', v) :: d' => if String.eqb k k' then Some v else dict_get k d'
  end.

(** [x[k]] for a string key [k]. *)
Definition getitem (x : json) (k : string) : result json :=
  match x with
  | JObj kv => match dict_get k kv with Some v => Ok v | None => Raised KeyError end
  | _ => Raised TypeError
  end.

(** [x[0]] *)
Definition getitem0 (x : json) : result json :=
  match x with
  | JArr (v :: _) => Ok v
  | JArr [] => Raised IndexError
  | JStr (String c _) => Ok (JStr (String c EmptyString))
  | JStr EmptyString => Raised IndexError
  | JObj _ => Raised KeyError
  | _ => Raised TypeError
  end.

(** [for v in x]: the elements of a list, the keys of a dictionary, the
    characters of a string. *)
Definition py_iter (x : json) : result (list json) :=
  match x with
  | JArr l => Ok l
  | JObj kv => Ok (map (fun p => JStr (fst p)) kv)
  | JStr s => Ok (map (fun c => JStr (String c EmptyString)) (list_ascii_of_string s))
  | _ => Raised TypeError
  end.

(** [float(z)] for a Python integer [z], as an integer is converted
    when it meets a float: [OverflowError] when [z] is too large. *)
Definition int_to_float (z : Z) : result Binary64.float :=
  let f := Binary64.of_Z z in
  if Binary64.is_infinite f then Raised OverflowError else Ok f.

(** A value used as a number in float arithmetic ([True] is 1). *)
Definition as_number (x : json) : result Binary64.float :=
  match x with
  | JFloat f => Ok f
  | JInt z => int_to_float z
  | JBool b => Ok (Binary64.of_Z (if b then 1 else 0))
  | _ => Raised TypeError
  end.

(** [a / b] for two Python integers: the quotient rounded once. *)
Definition int_truediv (a b : Z) : result Binary64.float :=
  if (b =? 0)%Z then Raised ZeroDivisionError
  else
    let f := Binary64.ratio a b in
    if Binary64.is_infinite f then Raised OverflowError else Ok f.

(** [x / d] for a parsed value [x] and a Python integer [d]. *)
Definition truediv (x : json) (d : Z) : result Binary64.float :=
  match x with
  | JInt z => int_truediv z d
  | JBool b => int_truediv (if b then 1 else 0) d
  | JFloat f =>
      rbind (int_to_float d)
        (fun y => if (d =? 0)%Z then Raised ZeroDivisionError else Ok (Binary64.div f y))
  | _ => Raised TypeError
  end.

(** [int(f)]: truncation toward zero; [OverflowError] on an infinity and
    [ValueError] on NaN. *)
Definition py_int (f : Binary64.float) : result Z :=
  match Binary64.truncate f with
  | Some z => Ok z
  | None => if Binary64.is_infinite f then Raised OverflowError else Raised ValueError
  end.

(** ** String helpers *)

(** ["{:d}".format(z)] *)
Definition fmt_d (z : Z) : string := DecimalString.NilZero.string_of_int (Z.to_int z).

(** ["{:x}".format(z)] and ["{:02x}".format(z)], for [z >= 0]. *)
Definition fmt_x (z : Z) : string :=
  HexadecimalString.NilZero.string_of_uint (N.to_hex_uint (Z.to_N z)).

Definition fmt_02x (z : Z) : string :=
  let h := fmt_x z in
  if (String.length h <? 2)%nat then ("0" ++ h)%string else h.

Fixpoint has_slash (s : string) : bool :=
  match s with
  | EmptyString => false
  | String c rest => Ascii.eqb c "/" || has_slash rest
  end.

Fixpoint ends_with_slash (s : string) : bool :=
  match s with
  | EmptyString => false
  | String c EmptyString => Ascii.eqb c "/"
  | String _ rest => ends_with_slash rest
  end.

(** [os.path.join(a, b)] (posixpath). *)
Definition path_join (a b : string) : string :=
  if String.prefix "/" b then b
  else if String.eqb a EmptyString || ends_with_slash a then (a ++ b)%string
  else (a ++ "/" ++ b)%string.

(** [os.path.join(a, *p)] *)
Definition path_join_all (a : string) (p : list string) : string :=
  fold_left path_join p a.

(** [os.path.basename(p)]: what follows the last slash. *)
Fixpoint basename (p : string) : string :=
  match p with
  | EmptyString => EmptyString
  | String c rest =>
      if has_slash rest then basename rest
      else if Ascii.eqb c "/" then rest else p
  end.

(** ** The outside world *)

(** [subprocess.CompletedProcess]: the captured output, read as text. *)
Record CompletedProcess : Type := { stdout : string; stderr : string }.

(** The operating system as the program sees it.  [W] is the state of
    the machine (files, device, clock); every operation may change it;
    [None] says that the Python call raised. *)
Class Host (W : Type) : Type := {
  (* subprocess.run(args, check=True, stdout=PIPE, stderr=PIPE, timeout=None) *)
  subprocess_run : list string -> W -> option CompletedProcess * W;
  (* with open(path, "w") as f: f.write(data) *)
  file_write : string -> string -> W -> option unit * W;
  (* with open(path, "r") as f: f.read() *)
  file_read : string -> W -> option string * W;
  (* os.path.exists(path) *)
  os_path_exists : string -> W -> bool;
  (* os.makedirs(dirname) *)
  os_makedirs : string -> W -> option unit * W;
  (* [e.name for e in os.scandir(dirname)] *)
  os_scandir : string -> W -> option (list string) * W
}.

(** A keyword argument handed to the template engine. *)
Inductive pyval : Type :=
| PInt (z : Z)
| PStr (s : string).

(** The parsed command line: [args.dev], [args.test], [args.mode],
    [args.output]. *)
Record Args : Type := { dev : string; test : bool; mode : string; output : string }.

(** What [parser.parse_args()] leaves of the command line (lines
    775-800): the parsed arguments, or the [sys.exit] that [argparse]
    makes itself, after a usage error or after printing the help. *)
Inductive parsed : Type :=
| Parsed (args : Args)
| ParseExit (code : Z).

(** Library functions whose code is outside the repository; [None] says
    that the call raised or did not match. *)
Class Libs : Type := {
  (* parser.parse_args(), with the parser built in main, on sys.argv[1:] *)
  parse_args : list string -> parsed;
  (* json.loads(data) *)
  json_loads : string -> option json;
  (* json.dumps(data, indent=4) *)
  json_dumps : json -> string;
  (* jinja2 rendering of textwrap.dedent(template) with StrictUndefined *)
  jinja_render : string -> list (string * pyval) -> option string;
  (* p1.match(line).groupdict() and p2.match(line).groupdict() of
     get_nvme_features *)
  p1_match : string -> option (list (string * string));
  p2_match : string -> option (list (string * string));
  (* str.splitlines() and str.rstrip() *)
  splitlines : string -> list string;
  rstrip : string -> string
}.

(** What the program asks of its collaborators. *)
Inductive request : Type :=
| Run (args : list string)
| WriteFile (path data : string)
| ReadFile (path : string)
| MakeDirs (dirname : string)
| ScanDir (dirname : string)
| Loads (data : string)
| MatchP1 (line : string)
| MatchP2 (line : string)
| Render (template : string) (kwargs : list (string * pyval)).

(** The [logging.info] lines of [iops].  [MsgRound] stands for the four
    lines written after a round (lines 741-746): the round number and
    the three tracked series. *)
Inductive message : Type :=
| MsgSkipFormat (dev : string)
| MsgMode (mode : string)
| MsgTestRuntime (runtime : string)
| MsgSkipWipc (dev : string)
| MsgRunWipc (dev : string)
| MsgCell (round_num rr : Z) (bs : string) (iops : Binary64.float)
| MsgRound (round_num : Z) (rr0_4k rr65_64k rr100_1024k : list Binary64.float)
| MsgSteady
| MsgNotReached.

(** One entry of the trace: a request with its success, or a log line. *)
Inductive event : Type :=
| Call (req : request) (ok : bool)
| Log (msg : message).

Definition succeeded (e : event) : Prop :=
  match e with Call _ ok => ok = true | Log _ => True end.

(** ** The session monad

    A computation takes the state of the world and the trace so far
    (newest event first) and ends with a [result], a new world and a
    longer trace.  There is no handler: once a computation ends with
    [Exit] or [Raised], [bind] runs nothing after it. *)
Section Session.

Context {W : Type} {host : Host W} {libs : Libs}.

Record state : Type := { world : W; trace : list event }.

Definition M (A : Type) : Type := state -> result A * state.

Definition ret {A : Type} (a : A) : M A := fun s => (Ok a, s).

Definition bind {A B : Type} (m : M A) (f : A -> M B) : M B :=
  fun s =>
    match m s with
    | (Ok a, s') => f a s'
    | (Exit c, s') => (Exit c, s')
    | (Raised e, s') => (Raised e, s')
    end.

(** [sys.exit(code)] *)
Definition sys_exit {A : Type} (code : Z) : M A := fun s => (Exit code, s).

(** A pure computation inside the session. *)
Definition pure {A : Type} (r : result A) : M A := fun s => (r, s).

(** [logging.info(...)] *)
Definition log (msg : message) : M unit :=
  fun s => (Ok tt, {| world := world s; trace := Log msg :: trace s |}).

(** One request to the outside: the reply is returned on success, and
    [failure] ends the computation when the call raises. *)
Definition attempt {R : Type} (req : request) (f : W -> option R * W)
    (failure : result R) : M R :=
  fun s =>
    match f (world s) with
    | (Some v, w') => (Ok v, {| world := w'; trace := Call req true :: trace s |})
    | (None, w') => (failure, {| world := w'; trace := Call req false :: trace s |})
    end.

(** The same for a library function, which leaves the world alone. *)
Definition attempt_pure {R : Type} (req : request) (reply : option R)
    (failure : result R) : M R :=
  attempt req (fun w => (reply, w)) failure.

(** Reading the world without changing it. *)
Definition query {R : Type} (f : W -> R) : M R := fun s => (Ok (f (world s)), s).

End Session.

Arguments state W : clear implicits.
Arguments M W A : clear implicits.

Declare Scope session_scope.
Delimit Scope session_scope with session.
Notation "x <- m ;; k" := (bind m (fun x => k))
  (at level 61, m at next level, right associativity) : session_scope.
Notation "m ;; k" := (bind m (fun _ => k))
  (at level 61, right associativity) : session_scope.
Notation "' pat <- m ;; k" := (bind m (fun x => match x with pat => k end))
  (at level 61, pat pattern, m at next level, right associativity) : session_scope.

Section Program.

Context {W : Type} {host : Host W} {libs : Libs}.

Local Open Scope session_scope.
Local Open Scope string_scope.
Local Open Scope Z_scope.

(** Loops: [for a in l: body] with the loop-carried variables [st]. *)
Fixpoint for_each {A St : Type} (l : list A) (body : A -> St -> M W St) (st : St) : M W St :=
  match l with
  | [] => ret st
  | a :: l' => st' <- body a st ;; for_each l' body st'
  end.

(** ** Low-level wrappers (lines 45-93)

    Each wraps its system call in [try ... except ...: sys.exit(1)].  The
    [logging.debug] lines (the level is INFO) and the [logging.error]
    line before each [sys.exit(1)] are not recorded. *)

Definition save_file (dirname filename data : string) : M W unit :=
  let path := path_join dirname filename in
  attempt (WriteFile path data) (file_write path data) (Exit 1).

Definition read_file (dirname filename : string) : M W string :=
  let path := path_join dirname filename in
  data <- attempt (ReadFile path) (file_read path) (Exit 1) ;;
  ret (rstrip data).

Definition create_dir (dirname : string) : M W unit :=
  present <- query (os_path_exists dirname) ;;
  if negb present
  then attempt (MakeDirs dirname) (os_makedirs dirname) (Exit 1)
  else ret tt.

Definition run (args : list string) : M W CompletedProcess :=
  attempt (Run args) (subprocess_run args) (Exit 1).

(** ** Logging of results (lines 116-128) *)

Definition save_stdout_stderr (dirname : string) (result : CompletedProcess) : M W unit :=
  create_dir dirname ;;
  (if negb (String.eqb (stdout result) EmptyString)
   then save_file dirname "stdout.log" (stdout result) else ret tt) ;;
  (if negb (String.eqb (stderr result) EmptyString)
   then save_file dirname "stderr.log" (stderr result) else ret tt).

Definition save_dict (dirname : string) (data : json) : M W unit :=
  create_dir dirname ;;
  save_file dirname "data.json" (json_dumps data).

(** ** sysfs (lines 136-163) *)

Definition read_dir_files (dirname : string) (names : list string)
  : M W (list (string * json)) :=
  for_each names
    (fun n d => v <- read_file dirname n ;; ret (dict_set n (JStr v) d)) [].

Definition read_dir (dirname : string) : M W (list (string * json)) :=
  names <- attempt (ScanDir dirname) (os_scandir dirname) (Exit 1) ;;
  read_dir_files dirname names.

Definition get_queue_info (dev : string) : M W (list (string * json)) :=
  read_dir (path_join_all "/sys/block" [basename dev; "queue"]).

Definition get_nvme_module_info : M W (list (string * json)) :=
  t <- read_dir_files "/sys/module/nvme" ["version"; "srcversion"] ;;
  p <- read_dir "/sys/module/nvme/parameters" ;;
  ret (dict_set "parameters" (JObj p) t).

(** ** External utilities (lines 171-228) *)

Definition run_lshw : M W CompletedProcess :=
  run ["/usr/bin/sudo"; "/usr/sbin/lshw"; "-json"; "-quiet"; "-sanitize"].

Definition run_lspci : M W CompletedProcess :=
  run ["/usr/bin/sudo"; "/sbin/lspci"; "-vv"].

Definition run_nvme_list : M W CompletedProcess :=
  run ["/usr/bin/sudo"; "/usr/sbin/nvme"; "list"; "--output-format=json"; "--verbose"].

Definition run_nvme_id_ctrl (dev : string) : M W CompletedProcess :=
  run ["/usr/bin/sudo"; "/usr/sbin/nvme"; "id-ctrl"; "--output-format=json"; dev].

Definition run_nvme_smart_log (dev : string) : M W CompletedProcess :=
  run ["/usr/bin/sudo"; "/usr/sbin/nvme"; "smart-log"; "--output-format=json"; dev].

Definition run_nvme_get_feature (dev : string) (fid : Z) : M W CompletedProcess :=
  run ["/usr/bin/sudo"; "/usr/sbin/nvme"; "get-feature"; "--human-readable";
       "--feature-id=0x" ++ fmt_02x fid; dev].

Definition run_nvme_set_feature (dev : string) (fid val : Z) : M W CompletedProcess :=
  run ["/usr/bin/sudo"; "/usr/sbin/nvme"; "set-feature";
       "--feature-id=0x" ++ fmt_02x fid; "--value=0x" ++ fmt_x val; dev].

Definition run_nvme_format (dev : string) : M W CompletedProcess :=
  run ["/usr/bin/sudo"; "/usr/sbin/nvme"; "format"; "-f"; "-l0"; dev].

(** ** [get_nvme_features] (lines 246-315) *)

Definition FIDS : list Z := [1; 2; 4; 5; 6; 7; 8; 9; 10].

Definition groupdict (g : list (string * string)) : list (string * json) :=
  map (fun p => (fst p, JStr (snd p))) g.

Definition get_nvme_features (dev : string) : M W json :=
  result <-
    for_each FIDS
      (fun fid result =>
         r <- run_nvme_get_feature dev fid ;;
         let lines := splitlines (stdout r) in
         (* process the first line (feature name and raw value) *)
         line0 <- pure (match lines with l :: _ => Ok l | [] => Raised IndexError end) ;;
         g <- attempt_pure (MatchP1 line0) (p1_match line0) (Exit 1) ;;
         let f := groupdict g in
         (* process the rest (name-value pairs) *)
         hr <- for_each (tl lines)
                 (fun l hr =>
                    g <- attempt_pure (MatchP2 l) (p2_match l) (Exit 1) ;;
                    ret (hr ++ [JObj (groupdict g)])%list) [] ;;
         ret (result ++ [JObj (dict_set "human-readable" (JArr hr) f)])%list) [] ;;
  ret (JArr result).

(** ** [get_nvme_namespace] (lines 323-344) *)

(** A search loop: [Ok (Some b)] is a [return b] from inside the loop. *)
Fixpoint first_found {A B : Type} (f : A -> result (option B)) (l : list A)
  : result (option B) :=
  match l with
  | [] => Ok None
  | a :: l' =>
      match f a with
      | Ok None => first_found f l'
      | r => r
      end
  end.

Definition json_is_str (x : json) (s : string) : bool :=
  match x with JStr s' => String.eqb s' s | _ => false end.

(** The three nested loops over Devices, Controllers, Namespaces. *)
Definition find_namespace (j : json) (ns : string) : result (option json) :=
  rbind (rbind (getitem j "Devices") py_iter)
    (first_found (fun d =>
       rbind (rbind (getitem d "Controllers") py_iter)
         (first_found (fun c =>
            rbind (rbind (getitem c "Namespaces") py_iter)
              (first_found (fun n =>
                 rbind (getitem n "NameSpace")
                   (fun name => Ok (if json_is_str name ns then Some n else None)))))))).

Definition get_nvme_namespace (data dev : string) : M W json :=
  j <- attempt_pure (Loads data) (json_loads data) (Exit 1) ;;
  (* strip /dev/ from device path *)
  let ns := basename dev in
  found <- pure (find_namespace j ns) ;;
  match found with
  | Some n => ret n
  | None => sys_exit 1
  end.

(** ** fio wrapper (lines 352-377) *)

Definition run_and_save_fio (dirname job : string) : M W json :=
  (* create log directory *)
  create_dir dirname ;;
  (* create job.fio file *)
  save_file dirname "job.fio" job ;;
  (* run fio and save results to output.json file *)
  result <- run ["/usr/bin/sudo"; "/usr/bin/fio"; "--output-format=json+";
                 "--output=" ++ path_join dirname "output.json";
                 path_join dirname "job.fio"] ;;
  (* save stdout and stderr (if present) *)
  save_stdout_stderr dirname result ;;
  (* return result *)
  data <- read_file dirname "output.json" ;;
  attempt_pure (Loads data) (json_loads data) (Raised JSONDecodeError).

(** ** Templates (lines 391-457) *)

Definition render (template : string) (kwargs : list (string * pyval)) : M W string :=
  attempt_pure (Render template kwargs) (jinja_render template kwargs) (Exit 1).

Definition WIPC_JOB_TPL : string := "
    [global]
    bs=128k
    ioengine=libaio
    iodepth={{ queue_depth }}
    direct=1
    gtod_cpu=1
    thread
    group_reporting

    random_distribution=random
    random_generator=tausworthe
    allrandrepeat=1
    randseed={{ seed }}

    [wipc]
    stonewall
    filename={{ device }}
    rw=write
    numjobs={{ thread_count }}
    size={{ size }}
    io_size={{ io_size }}

".

Definition WDPC_IOPS_JOB_TPL : string := "
    [global]
    ioengine=libaio
    iodepth={{ queue_depth }}
    direct=1
    gtod_cpu=1
    thread
    group_reporting

    random_distribution=random
    random_generator=tausworthe
    allrandrepeat=1
    randseed={{ seed }}

    filename={{ device }}
    numjobs={{ thread_count }}
    size={{ size }}
    rw=randrw

    [wdpc-rr{{ read_rate }}-{{ block_size }}]
    stonewall
    runtime={{ runtime }}
    time_based
    rwmixread={{ read_rate }}
    bs={{ block_size }}

".

(** ** IOPS test (lines 530-762) *)

Definition MEASUREMENT_WINDOW : Z := 5.

(** The three lists of Steady State Tracking Variables. *)
Record tracking : Type := {
  rr0_4k_iops : list Binary64.float;
  rr65_64k_iops : list Binary64.float;
  rr100_1024k_iops : list Binary64.float
}.

(** The read/write mixes and block sizes of a round (lines 666-667). *)
Definition MIXES : list Z := [100; 95; 65; 50; 35; 5; 0].
Definition BLOCK_SIZES : list string :=
  ["1024k"; "128k"; "64k"; "32k"; "16k"; "8k"; "4k"; "512b"].

(** The directory of one artifact of a cell:
    [os.path.join(args.output, "round-N", "rr-R", "bs-B", leaf)]. *)
Definition cell_dir (args : Args) (round_num rr : Z) (bs leaf : string) : string :=
  path_join_all (output args)
    ["round-" ++ fmt_d round_num; "rr-" ++ fmt_d rr; "bs-" ++ bs; leaf].

(** The body of the two inner loops (lines 669-738): one workload cell. *)
Definition iops_cell (args : Args) (queue_depth thread_count seed : Z)
    (size runtime : string) (round_num rr : Z) (bs : string) (t : tracking)
  : M W tracking :=
  (* device temperature before run *)
  smart <- run_nvme_smart_log (dev args) ;;
  save_stdout_stderr (cell_dir args round_num rr bs "smart-before") smart ;;
  (* run fio with single job in a file *)
  job <- render WDPC_IOPS_JOB_TPL
           [("device", PStr (dev args)); ("queue_depth", PInt queue_depth);
            ("thread_count", PInt thread_count); ("seed", PInt seed);
            ("size", PStr size); ("read_rate", PInt rr);
            ("block_size", PStr bs); ("runtime", PStr runtime)] ;;
  fio_result <- run_and_save_fio (cell_dir args round_num rr bs "wdpc") job ;;
  (* device temperature after run *)
  smart <- run_nvme_smart_log (dev args) ;;
  save_stdout_stderr (cell_dir args round_num rr bs "smart-after") smart ;;
  (* mean iops = p1 * read iops + p2 * write iops, where p1=rr, p2=1-rr *)
  job0 <- pure (rbind (getitem fio_result "jobs") getitem0) ;;
  read_iops <- pure (rbind (rbind (getitem job0 "read") (fun r => getitem r "iops")) as_number) ;;
  let iops := Binary64.mul (Binary64.div (Binary64.of_Z rr) (Binary64.of_Z 100)) read_iops in
  job0 <- pure (rbind (getitem fio_result "jobs") getitem0) ;;
  write_iops <- pure (rbind (rbind (getitem job0 "write") (fun r => getitem r "iops")) as_number) ;;
  let iops :=
    Binary64.add iops
      (Binary64.mul
         (Binary64.sub (Binary64.of_Z 1) (Binary64.div (Binary64.of_Z rr) (Binary64.of_Z 100)))
         write_iops) in
  log (MsgCell round_num rr bs iops) ;;
  (* IOPS Steady State Tracking Variables *)
  if (rr =? 0) && String.eqb bs "4k" then
    ret {| rr0_4k_iops := rr0_4k_iops t ++ [iops];
           rr65_64k_iops := rr65_64k_iops t;
           rr100_1024k_iops := rr100_1024k_iops t |}
  else if (rr =? 65) && String.eqb bs "64k" then
    ret {| rr0_4k_iops := rr0_4k_iops t;
           rr65_64k_iops := rr65_64k_iops t ++ [iops];
           rr100_1024k_iops := rr100_1024k_iops t |}
  else if (rr =? 100) && String.eqb bs "1024k" then
    ret {| rr0_4k_iops := rr0_4k_iops t;
           rr65_64k_iops := rr65_64k_iops t;
           rr100_1024k_iops := rr100_1024k_iops t ++ [iops] |}
  else ret t.

(** The verdict on one tracked series; an exception inside
    [in_steady_state] is not caught. *)
Definition steady (values : list Binary64.float) : M W bool :=
  pure (match Binary64.in_steady_state values MEASUREMENT_WINDOW with
        | Some b => Ok b
        | None => Raised ValueError
        end).

(** The test after a round (lines 747-751); [and] evaluates its right
    operand only when the left one is true. *)
Definition all_steady (t : tracking) : M W bool :=
  a <- steady (rr0_4k_iops t) ;;
  if a then
    b <- steady (rr65_64k_iops t) ;;
    if b then steady (rr100_1024k_iops t) else ret false
  else ret false.

(** The loop [for round_num in range(1, 26)] (lines 659-753).  The loop
    variable is [None] before the first iteration and keeps its last
    value after the loop; [break] leaves it at the round that converged. *)
Fixpoint iops_rounds (args : Args) (queue_depth thread_count seed : Z)
    (size runtime : string) (rounds : list Z) (round_num : option Z) (t : tracking)
  : M W (option Z * tracking) :=
  match rounds with
  | [] => ret (round_num, t)
  | n :: rest =>
      t' <- for_each MIXES
              (fun rr => for_each BLOCK_SIZES
                 (fun bs => iops_cell args queue_depth thread_count seed size runtime n rr bs))
              t ;;
      (* check steady state after the end of the round *)
      log (MsgRound n (rr0_4k_iops t') (rr65_64k_iops t') (rr100_1024k_iops t')) ;;
      s <- all_steady t' ;;
      if s then
        log MsgSteady ;;
        ret (Some n, t')
      else iops_rounds args queue_depth thread_count seed size runtime rest (Some n) t'
  end.

Definition iops (args : Args) : M W unit :=
  (* record test conditions *)
  r <- run_lshw ;;
  save_stdout_stderr (path_join (output args) "platform/lshw") r ;;
  r <- run_lspci ;;
  save_stdout_stderr (path_join (output args) "platform/lspci") r ;;
  r <- run_nvme_id_ctrl (dev args) ;;
  save_stdout_stderr (path_join (output args) "device/nvme-id-ctrl") r ;;
  r <- run_nvme_smart_log (dev args) ;;
  save_stdout_stderr (path_join (output args) "device/nvme-smart-log") r ;;
  info <- get_nvme_module_info ;;
  save_dict (path_join (output args) "settings/nvme-module-config") (JObj info) ;;
  features <- get_nvme_features (dev args) ;;
  save_dict (path_join (output args) "settings/nvme-features") features ;;
  queue <- get_queue_info (dev args) ;;
  save_dict (path_join (output args) "settings/queue") (JObj queue) ;;
  (* use nvme list to get device PhysicalSize *)
  nvme_list_result <- run_nvme_list ;;
  save_stdout_stderr (path_join (output args) "device/nvme-list") nvme_list_result ;;
  ns <- get_nvme_namespace (stdout nvme_list_result) (dev args) ;;
  (* align size to kbytes for direct i/o *)
  physical_size <-
    pure (rbind (rbind (getitem ns "PhysicalSize") (fun x => truediv x 1024)) py_int) ;;
  (* 1 Purge the device *)
  (if negb (test args) then
     r <- run_nvme_format (dev args) ;;
     save_stdout_stderr (path_join (output args) "purge/nvme-format") r
   else log (MsgSkipFormat (dev args))) ;;
  (* 2 Run Workload Independent Pre-conditioning; 2.1 test conditions *)
  ' (active_range, queue_depth, thread_count) <-
    (if String.eqb (mode args) "PTS-E" then
       log (MsgMode "PTS-E") ;;
       (* write cache disabled for enterprise devices *)
       r <- run_nvme_set_feature (dev args) 6 0 ;;
       save_stdout_stderr (path_join (output args) "pre-conditioning/nvme-set-feature") r ;;
       ret (physical_size, 32, 4)
     else if String.eqb (mode args) "PTS-C" then
       log (MsgMode "PTS-C") ;;
       (* write cache enabled for client devices *)
       r <- run_nvme_set_feature (dev args) 6 1 ;;
       save_stdout_stderr (path_join (output args) "pre-conditioning/nvme-set-feature") r ;;
       active_range <-
         pure (rbind (int_to_float physical_size)
                 (fun f => py_int (Binary64.mul (Binary64.ratio 75 100) f))) ;;
       ret (active_range, 16, 2)
     else sys_exit 1) ;;
  (* for development purposes only *)
  runtime <- (if test args then log (MsgTestRuntime "10s") ;; ret "10s" else ret "1m") ;;
  (* 2.1.4 Data Pattern *)
  let seed := 3735928559 (* 0xDEADBEEF *) in
  (* 2.2 each thread limited to AR and writes (2X of User Capacity) / thread_count *)
  let size := fmt_d active_range ++ "k" in
  io_size <- pure (rbind (int_truediv (2 * physical_size) thread_count) py_int) ;;
  let io_size := fmt_d io_size ++ "k" in
  (* workload-independent pre-conditioning *)
  job <- render WIPC_JOB_TPL
           [("device", PStr (dev args)); ("queue_depth", PInt queue_depth);
            ("thread_count", PInt thread_count); ("seed", PInt seed);
            ("size", PStr size); ("io_size", PStr io_size)] ;;
  (if test args then log (MsgSkipWipc (dev args))
   else
     log (MsgRunWipc (dev args)) ;;
     _ <- run_and_save_fio (path_join (output args) "pre-conditioning/wipc") job ;;
     ret tt) ;;
  (* 3 each thread limited to AR; no io_size, run 1 minute *)
  let size := fmt_d active_range ++ "k" in
  (* initialize lists with Steady State Tracking Variables *)
  let t := {| rr0_4k_iops := []; rr65_64k_iops := []; rr100_1024k_iops := [] |} in
  (* 3.2 test loop until Steady State is reached, or maximum of 25 rounds *)
  ' (round_num, _) <-
    iops_rounds args queue_depth thread_count seed size runtime (range 1 26) None t ;;
  match round_num with
  | None => pure (Raised NameError)
  | Some n => if n =? 25 then log MsgNotReached else ret tt
  end.

End Program.

(** * A simulated machine

    A small concrete [Host] and [Libs] on which sessions can be run: every
    tool succeeds, except that [fio] fails once [fio_budget] runs have
    been made.  The state of the machine is the number of [fio] runs so
    far; [output.json] holds that number, and [json_loads] turns the
    number [k] into a fio report with the counters [workload k].  The
    device reports [physical_size_bytes]. *)
(** A command line of one word: the help option, or the device, with the
    defaults of the parser for the other arguments. *)
Definition sim_parse_args (argv : list string) : parsed :=
  match argv with
  | [d] =>
      if String.eqb d "--help" then ParseExit 0
      else Parsed {| dev := d; test := false; mode := "PTS-C"; output := "." |}
  | _ => ParseExit 2
  end.

Section Simulation.

Variable physical_size_bytes : Z.
Variable workload : nat -> Binary64.float * Binary64.float.
Variable fio_budget : nat.

Local Open Scope string_scope.

Definition sim_is_fio (args : list string) : bool :=
  match args with
  | _ :: tool :: _ => String.eqb tool "/usr/bin/fio"
  | _ => false
  end.

Definition sim_is_nvme_list (args : list string) : bool :=
  match args with
  | _ :: _ :: verb :: _ => String.eqb verb "list"
  | _ => false
  end.

Definition sim_run (args : list string) (runs : nat) : option CompletedProcess * nat :=
  if sim_is_fio args then
    if (runs <? fio_budget)%nat
    then (Some {| stdout := EmptyString; stderr := EmptyString |}, S runs)
    else (None, runs)
  else if sim_is_nvme_list args then (Some {| stdout := "nvme-list"; stderr := EmptyString |}, runs)
  else (Some {| stdout := "ok"; stderr := EmptyString |}, runs).

#[local] Instance sim_host : Host nat := {|
  subprocess_run := sim_run;
  file_write := fun _ _ runs => (Some tt, runs);
  file_read := fun _ runs => (Some (fmt_d (Z.of_nat runs)), runs);
  os_path_exists := fun _ _ => false;
  os_makedirs := fun _ runs => (Some tt, runs);
  os_scandir := fun _ runs => (Some ["nr_requests"], runs)
|}.

Definition sim_nvme_list : json :=
  JObj [("Devices",
         JArr [JObj [("Controllers",
                      JArr [JObj [("Namespaces",
                                   JArr [JObj [("NameSpace", JStr "nvme0n1");
                                               ("PhysicalSize",
                                                JInt physical_size_bytes)]])]])]])].

Definition sim_fio_report (counters : Binary64.float * Binary64.float) : json :=
  JObj [("jobs",
         JArr [JObj [("read", JObj [("iops", JFloat (fst counters))]);
                     ("write", JObj [("iops", JFloat (snd counters))])]])].

Definition sim_json_loads (data : string) : option json :=
  if String.eqb data "nvme-list" then Some sim_nvme_list
  else option_map (fun k => sim_fio_report (workload (Nat.of_uint k)))
         (DecimalString.NilEmpty.uint_of_string data).

#[local] Instance sim_libs : Libs := {|
  parse_args := sim_parse_args;
  json_loads := sim_json_loads;
  json_dumps := fun _ => "{}";
  jinja_render := fun _ _ => Some "job";
  p1_match := fun _ => Some [("fid", "0x07"); ("name", "Number of Queues"); ("value", "0x1f001f")];
  p2_match := fun _ => Some [("name", "n"); ("short", "s"); ("value", "0")];
  splitlines := fun s => [s];
  rstrip := fun s => s
|}.

(** The whole session on the simulated machine, from a fresh trace. *)
Definition sim_session (args : Args) : result unit * state nat :=
  iops args {| world := O; trace := [] |}.

End Simulation.

(** A machine on which no request fails, with no limit on the [fio]
    runs, and libraries for which every document is the same fio report
    with the counters [counters]. *)
#[local] Instance reliable_host : Host nat := {|
  subprocess_run := fun _ runs =>
    (Some {| stdout := EmptyString; stderr := EmptyString |}, S runs);
  file_write := fun _ _ runs => (Some tt, runs);
  file_read := fun _ runs => (Some (fmt_d (Z.of_nat runs)), runs);
  os_path_exists := fun _ _ => false;
  os_makedirs := fun _ runs => (Some tt, runs);
  os_scandir := fun _ runs => (Some ["nr_requests"%string], runs)
|}.

#[local] Instance report_libs (counters : Binary64.float * Binary64.float) : Libs := {|
  parse_args := sim_parse_args;
  json_loads := fun _ => Some (sim_fio_report counters);
  json_dumps := fun _ => "{}"%string;
  jinja_render := fun _ _ => Some "job"%string;
  p1_match := fun _ => Some [];
  p2_match := fun _ => Some [];
  splitlines := fun s => [s];
  rstrip := fun s => s
|}.

(** Messages of a trace, oldest first: the trace is read from its newest
    event, and each message is put in front of the later ones. *)
Definition messages_before (later : list message) (tr : list event) : list message :=
  fold_left (fun acc e => match e with Log m => m :: acc | Call _ _ => acc end) tr later.

Definition messages (tr : list event) : list message := messages_before [] tr.

Definition sim_args (test_mode : bool) (pts_mode : string) : Args :=
  {| dev := "/dev/nvme0n1"; test := test_mode; mode := pts_mode; output := "out" |}.

(** Workloads: the round of the [k]-th fio run when the session is not in
    test mode (run 1 is the pre-conditioning job, then 56 runs a round). *)
Definition sim_round (k : nat) : nat := ((k - 2) / 56 + 1)%nat.

(** Every cell reports 100 read and 100 write IOPS. *)
Definition constant_workload (k : nat) : Binary64.float * Binary64.float :=
  (Binary64.of_Z 100, Binary64.of_Z 100).

(** The counters jump between 100 and 200 from round to round. *)
Definition jumping_workload (k : nat) : Binary64.float * Binary64.float :=
  if Nat.even (sim_round k) then (Binary64.of_Z 200, Binary64.of_Z 200)
  else (Binary64.of_Z 100, Binary64.of_Z 100).

(** Jumping for 20 rounds, constant from round 21 on. *)
Definition late_workload (k : nat) : Binary64.float * Binary64.float :=
  if (sim_round k <=? 20)%nat then jumping_workload k
  else (Binary64.of_Z 100, Binary64.of_Z 100).

(** * Notions used to state and prove the properties *)

(** ** Lists of rationals up to [==] *)

Definition eqlistQ : list Q -> list Q -> Prop := Forall2 Qeq.



(** ** Observations on traces *)

Definition is_call (e : event) : Prop :=
  match e with Call _ _ => True | Log _ => False end.

(** A call that is not a [json.loads]. *)
Definition quiet (e : event) : Prop :=
  match e with
  | Call (Loads _) _ => False
  | Call _ _ => True
  | Log _ => False
  end.

(** The trace grew from [tr0] by events that all satisfy [P]. *)
Definition grown (P : event -> Prop) (tr0 : list event) : list event -> Prop :=
  fun tr => exists new, tr = (new ++ tr0)%list /\ Forall P new.

(** The kinds of request. *)
Inductive kind : Type := KFs | KRun | KLoads | KMatch | KRender.

Definition kind_of (req : request) : kind :=
  match req with
  | Run _ => KRun
  | WriteFile _ _ | ReadFile _ | MakeDirs _ | ScanDir _ => KFs
  | Loads _ => KLoads
  | MatchP1 _ | MatchP2 _ => KMatch
  | Render _ _ => KRender
  end.

(** The log lines written before the test loop. *)
Definition is_setup (msg : message) : Prop :=
  match msg with
  | MsgSkipFormat _ | MsgMode _ | MsgTestRuntime _ | MsgSkipWipc _ | MsgRunWipc _ => True
  | _ => False
  end.

Definition is_cell_of (n : Z) (msg : message) : Prop :=
  match msg with MsgCell n' _ _ _ => n' = n | _ => False end.

(** ** The cell, the round and the loop in terms of what they log *)

(** The counters of a fio report: [fio_result["jobs"][0]["read"]["iops"]]
    and [fio_result["jobs"][0]["write"]["iops"]]. *)
Definition counter (fio_result : json) (direction : string) : result Binary64.float :=
  rbind (rbind (rbind (getitem fio_result "jobs") getitem0)
           (fun job0 => rbind (getitem job0 direction) (fun r => getitem r "iops")))
        as_number.

(** The blended metric of a cell, in the words of the specification:
    [(rr/100) * read + (1 - rr/100) * write], each operation a binary64
    operation, with [rr], 100 and 1 converted to floats. *)
Definition blend (rr : Z) (read_iops write_iops : Binary64.float) : Binary64.float :=
  Binary64.add
    (Binary64.mul (Binary64.div (Binary64.of_Z rr) (Binary64.of_Z 100)) read_iops)
    (Binary64.mul
       (Binary64.sub (Binary64.of_Z 1) (Binary64.div (Binary64.of_Z rr) (Binary64.of_Z 100)))
       write_iops).

(** The tracked series after a cell with blended metric [v]. *)
Definition track (rr : Z) (bs : string) (v : Binary64.float) (t : tracking) : tracking :=
  if (rr =? 0)%Z && String.eqb bs "4k" then
    {| rr0_4k_iops := rr0_4k_iops t ++ [v];
       rr65_64k_iops := rr65_64k_iops t;
       rr100_1024k_iops := rr100_1024k_iops t |}
  else if (rr =? 65)%Z && String.eqb bs "64k" then
    {| rr0_4k_iops := rr0_4k_iops t;
       rr65_64k_iops := rr65_64k_iops t ++ [v];
       rr100_1024k_iops := rr100_1024k_iops t |}
  else if (rr =? 100)%Z && String.eqb bs "1024k" then
    {| rr0_4k_iops := rr0_4k_iops t;
       rr65_64k_iops := rr65_64k_iops t;
       rr100_1024k_iops := rr100_1024k_iops t ++ [v] |}
  else t.

(** The trace after a completed cell: the log line of the cell is the
    newest event; the last document parsed before it is the content of
    the cell's [output.json]; nothing else was logged. *)
Definition cell_done {libs : Libs} (args : Args) (n rr : Z) (bs : string) (t : tracking)
    (tr0 : list event) (t' : tracking) (tr : list event) : Prop :=
  exists data fio_result rd wr after before,
    tr = (Log (MsgCell n rr bs (blend rr rd wr))
          :: after
          ++ Call (Loads data) true
          :: Call (ReadFile (path_join (cell_dir args n rr bs "wdpc") "output.json")) true
          :: before ++ tr0)%list /\
    Forall quiet after /\ Forall is_call before /\
    json_loads data = Some fio_result /\
    counter fio_result "read" = Ok rd /\
    counter fio_result "write" = Ok wr /\
    t' = track rr bs (blend rr rd wr) t.

(** The workload matrix: mix-ratio major, block-size minor. *)
Definition CELLS : list (Z * string) := list_prod MIXES BLOCK_SIZES.

(** The log lines of the cells [cells] of round [n] with metrics [vs]. *)
Definition cell_msgs (n : Z) (cells : list (Z * string)) (vs : list Binary64.float)
  : list message :=
  map (fun cv => MsgCell n (fst (fst cv)) (snd (fst cv)) (snd cv)) (combine cells vs).

(** The tracked series after the cells [cells] with metrics [vs]. *)
Definition track_all (cells : list (Z * string)) (vs : list Binary64.float) (t : tracking)
  : tracking :=
  fold_left (fun t cv => track (fst (fst cv)) (snd (fst cv)) (snd cv) t) (combine cells vs) t.

(** After the cells [cells] of round [n], started from [t0] on [tr0]. *)
Definition cells_done (n : Z) (t0 : tracking) (tr0 : list event)
    (cells : list (Z * string)) (t : tracking) (tr : list event) : Prop :=
  exists new vs,
    tr = (new ++ tr0)%list /\ length vs = length cells /\
    messages new = cell_msgs n cells vs /\ t = track_all cells vs t0.

(** A round that did not complete logged nothing but cells of its own. *)
Definition round_cut (n : Z) (tr0 : list event) (tr : list event) : Prop :=
  exists new, tr = (new ++ tr0)%list /\ Forall (is_cell_of n) (messages new).

(** The verdict on a series, and on the three tracked series together. *)
Definition verdict (values : list Binary64.float) : bool :=
  match Binary64.in_steady_state values MEASUREMENT_WINDOW with
  | Some b => b
  | None => false
  end.

Definition all_stable (t : tracking) : bool :=
  verdict (rr0_4k_iops t) && verdict (rr65_64k_iops t) && verdict (rr100_1024k_iops t).

Definition msg_round (n : Z) (t : tracking) : message :=
  MsgRound n (rr0_4k_iops t) (rr65_64k_iops t) (rr100_1024k_iops t).

(** The log of the loop over [rounds], entered with the loop variable
    [round_num] and the series [t]: [ms] are the lines logged, and [fin]
    is what the loop returned, [None] when the session ended inside it. *)
Fixpoint loop_log (rounds : list Z) (round_num : option Z) (t : tracking)
    (ms : list message) (fin : option (option Z * tracking)) : Prop :=
  match rounds with
  | [] => ms = [] /\ fin = Some (round_num, t)
  | n :: rest =>
      (fin = None /\ Forall (is_cell_of n) ms) \/
      exists vs ms',
        length vs = length CELLS /\
        ms = (cell_msgs n CELLS vs ++ msg_round n (track_all CELLS vs t) :: ms')%list /\
        if all_stable (track_all CELLS vs t)
        then ms' = [MsgSteady] /\ fin = Some (Some n, track_all CELLS vs t)
        else loop_log rest (Some n) (track_all CELLS vs t) ms' fin
  end.

Definition loop_returned (rounds : list Z) (round_num : option Z) (t : tracking)
    (tr0 : list event) (res : option Z * tracking) (tr : list event) : Prop :=
  exists new, tr = (new ++ tr0)%list /\ loop_log rounds round_num t (messages new) (Some res).

Definition loop_cut (rounds : list Z) (round_num : option Z) (t : tracking)
    (tr0 : list event) (tr : list event) : Prop :=
  exists new, tr = (new ++ tr0)%list /\ loop_log rounds round_num t (messages new) None.

(** ** A program logic for sessions *)

Section Logic.

Context {W : Type} {host : Host W} {libs : Libs}.

(** [hoare P m Q E]: started on a trace satisfying [P], the computation
    [m] either returns [a] with a trace satisfying [Q a], or ends by
    [sys.exit] or an exception with a trace satisfying [E]. *)
Definition hoare {A : Type} (P : list event -> Prop) (m : M W A)
    (Q : A -> list event -> Prop) (E : list event -> Prop) : Prop :=
  forall s, P (trace s) ->
    match m s with
    | (Ok a, s') => Q a (trace s')
    | (_, s') => E (trace s')
    end.

(** [inv Good Bad m]: [m] keeps the trace invariant [Good] when it
    returns and leaves [Bad] when it does not. *)
Definition inv {A : Type} (Good Bad : list event -> Prop) (m : M W A) : Prop :=
  hoare Good m (fun _ => Good) Bad.

(** The test loop and the report after it (lines 653-762), with the
    parameters fixed before it. *)
Definition iops_test_loop (args : Args) (queue_depth thread_count : Z) (size runtime : string)
  : M W unit :=
  bind
    (iops_rounds args queue_depth thread_count 3735928559 size runtime (range 1 26) None
       {| rr0_4k_iops := []; rr65_64k_iops := []; rr100_1024k_iops := [] |})
    (fun x =>
       match x with
       | (Some n, _) => if (n =? 25)%Z then log MsgNotReached else ret tt
       | (None, _) => pure (Raised NameError)
       end).

End Logic.

Arguments hoare W {A} P m Q E.
Arguments inv W {A} Good Bad m.

(** [Good] survives a successful request [req], and a failed one leaves
    [Bad]. *)
Definition admits (Good Bad : list event -> Prop) (req : request) : Prop :=
  forall tr, Good tr -> Good (Call req true :: tr) /\ Bad (Call req false :: tr).

(** ** The log of a whole session *)

Definition no_series : tracking :=
  {| rr0_4k_iops := []; rr65_64k_iops := []; rr100_1024k_iops := [] |}.

(** The report after the loop (lines 761-762). *)
Definition final_report (fin : option (option Z * tracking)) : list message :=
  match fin with
  | Some (Some n, _) => if (n =? 25)%Z then [MsgNotReached] else []
  | _ => []
  end.

(** The lines logged by a session started on an empty trace: the lines
    of the set-up, the log of the loop over rounds 1 to 25, and the final
    report; [ok] tells whether the session ended normally. *)
Definition session_log (ok : bool) (msgs : list message) : Prop :=
  exists setup ms fin,
    Forall is_setup setup /\
    (ms = [] /\ fin = None \/ loop_log (range 1 26) None no_series ms fin) /\
    msgs = (setup ++ ms ++ final_report fin)%list /\
    (ok = true <-> exists n t, fin = Some (Some n, t)).

(** The snapshots of the tracked series logged after each completed
    round, oldest first. *)
Definition snapshots (msgs : list message) : list (Z * tracking) :=
  flat_map (fun msg =>
              match msg with
              | MsgRound n a b c =>
                  [(n, {| rr0_4k_iops := a; rr65_64k_iops := b; rr100_1024k_iops := c |})]
              | _ => []
              end) msgs.

(** The cells logged for round [n], in the order of the log. *)
Definition cells_of_round (n : Z) (msgs : list message) : list (Z * string) :=
  flat_map (fun msg =>
              match msg with
              | MsgCell n' rr bs _ => if (n' =? n)%Z then [(rr, bs)] else []
              | _ => []
              end) msgs.

(** The first [i] points of each tracked series. *)
Definition firstn_series (i : nat) (t : tracking) : tracking :=
  {| rr0_4k_iops := firstn i (rr0_4k_iops t);
     rr65_64k_iops := firstn i (rr65_64k_iops t);
     rr100_1024k_iops := firstn i (rr100_1024k_iops t) |}.

(** A fresh session on the machine [w]. *)
Definition fresh {W : Type} (w : W) : state W := {| world := w; trace := [] |}.

(** Each of the three series has [m] points. *)
Definition series_len (m : nat) (t : tracking) : Prop :=
  length (rr0_4k_iops t) = m /\ length (rr65_64k_iops t) = m /\
  length (rr100_1024k_iops t) = m.

(** The last snapshot of a list (any value on the empty list). *)
Definition last_snapshot (snaps : list (Z * tracking)) : Z * tracking :=
  last snaps (0%Z, no_series).

(** All messages of the trace are lines of the set-up. *)
Definition setup_only (tr : list event) : Prop := Forall is_setup (messages tr).

(** ** What a session reported *)

(** The log has the line of convergence ("steady state reached"), or the
    line of exhaustion ("not reached in 25 rounds"). *)
Definition reports_steady (msgs : list message) : bool :=
  existsb (fun msg => match msg with MsgSteady => true | _ => false end) msgs.

Definition reports_not_reached (msgs : list message) : bool :=
  existsb (fun msg => match msg with MsgNotReached => true | _ => false end) msgs.

(** ** The pre-conditioning job *)

(** The volume of a pre-conditioning job in the words of the
    specification: the job has [thread_count] threads, each writes
    [io_size] KiB, and together they write twice the physical size. *)
Definition wipc_volume_is_twice (physical_size : Z) (kwargs : list (string * pyval)) : Prop :=
  exists thread_count io_size,
    dict_get "thread_count" kwargs = Some (PInt thread_count) /\
    dict_get "io_size" kwargs = Some (PStr (fmt_d io_size ++ "k")) /\
    (thread_count * io_size = 2 * physical_size)%Z.

(** ** The namespace found in the listing of [nvme list] *)

(** [n] is an entry of [j["Devices"][..]["Controllers"][..]["Namespaces"]]. *)
Definition namespace_entry (j n : json) : Prop :=
  exists devices d controllers c namespaces,
    rbind (getitem j "Devices") py_iter = Ok devices /\ In d devices /\
    rbind (getitem d "Controllers") py_iter = Ok controllers /\ In c controllers /\
    rbind (getitem c "Namespaces") py_iter = Ok namespaces /\ In n namespaces.

(** * The program from its start *)

Section Main.

Context {W : Type} {host : Host W} {libs : Libs}.

Local Open Scope session_scope.

(** [main] once the command line is parsed into [args] (lines 801-803). *)
Definition main_run (args : Args) : M W unit :=
  create_dir (output args) ;;
  iops args.

(** [main] (lines 770-803) on the command line [argv], that is,
    [sys.argv[1:]]. *)
Definition main (argv : list string) : M W unit :=
  match parse_args argv with
  | Parsed args => main_run args
  | ParseExit code => sys_exit code
  end.

End Main.

(** ** What a session asks of the machine *)

Section Requests.

Local Open Scope string_scope.
Local Open Scope Z_scope.

(** The command line of a fio run in the directory [dirname]. *)
Definition fio_command (dirname : string) : list string :=
  ["/usr/bin/sudo"; "/usr/bin/fio"; "--output-format=json+";
   "--output=" ++ path_join dirname "output.json"; path_join dirname "job.fio"].

(** The directories fio runs in: the one of the pre-conditioning job,
    outside test mode, and the one of a cell of a round. *)
Definition fio_dir (args : Args) (dirname : string) : Prop :=
  (test args = false /\ dirname = path_join (output args) "pre-conditioning/wipc") \/
  (exists n rr bs,
     In n (range 1 26) /\ In rr MIXES /\ In bs BLOCK_SIZES /\
     dirname = cell_dir args n rr bs "wdpc").

(** The queue depth and the thread count of the two modes. *)
Definition mode_params (args : Args) (queue_depth thread_count : Z) : Prop :=
  (mode args = "PTS-E" /\ queue_depth = 32 /\ thread_count = 4) \/
  (mode args = "PTS-C" /\ queue_depth = 16 /\ thread_count = 2).

(** The commands of a session. *)
Definition command_ok (args : Args) (cmd : list string) : Prop :=
  cmd = ["/usr/bin/sudo"; "/usr/sbin/lshw"; "-json"; "-quiet"; "-sanitize"] \/
  cmd = ["/usr/bin/sudo"; "/sbin/lspci"; "-vv"] \/
  cmd = ["/usr/bin/sudo"; "/usr/sbin/nvme"; "list"; "--output-format=json"; "--verbose"] \/
  cmd = ["/usr/bin/sudo"; "/usr/sbin/nvme"; "id-ctrl"; "--output-format=json"; dev args] \/
  cmd = ["/usr/bin/sudo"; "/usr/sbin/nvme"; "smart-log"; "--output-format=json"; dev args] \/
  (exists fid,
     In fid FIDS /\
     cmd = ["/usr/bin/sudo"; "/usr/sbin/nvme"; "get-feature"; "--human-readable";
            "--feature-id=0x" ++ fmt_02x fid; dev args]) \/
  (mode args = "PTS-E" /\
   cmd = ["/usr/bin/sudo"; "/usr/sbin/nvme"; "set-feature";
          "--feature-id=0x06"; "--value=0x0"; dev args]) \/
  (mode args = "PTS-C" /\
   cmd = ["/usr/bin/sudo"; "/usr/sbin/nvme"; "set-feature";
          "--feature-id=0x06"; "--value=0x1"; dev args]) \/
  (test args = false /\
   cmd = ["/usr/bin/sudo"; "/usr/sbin/nvme"; "format"; "-f"; "-l0"; dev args]) \/
  (exists dirname, fio_dir args dirname /\ cmd = fio_command dirname).

(** The keyword arguments of the pre-conditioning job. *)
Definition wipc_params (args : Args) (kwargs : list (string * pyval)) : Prop :=
  exists queue_depth thread_count active_range io_size,
    mode_params args queue_depth thread_count /\
    kwargs =
      [("device", PStr (dev args)); ("queue_depth", PInt queue_depth);
       ("thread_count", PInt thread_count); ("seed", PInt 3735928559);
       ("size", PStr (fmt_d active_range ++ "k"));
       ("io_size", PStr (fmt_d io_size ++ "k"))].

(** The keyword arguments of the job of a cell. *)
Definition wdpc_params (args : Args) (kwargs : list (string * pyval)) : Prop :=
  exists queue_depth thread_count active_range rr bs,
    mode_params args queue_depth thread_count /\
    In rr MIXES /\ In bs BLOCK_SIZES /\
    kwargs =
      [("device", PStr (dev args)); ("queue_depth", PInt queue_depth);
       ("thread_count", PInt thread_count); ("seed", PInt 3735928559);
       ("size", PStr (fmt_d active_range ++ "k")); ("read_rate", PInt rr);
       ("block_size", PStr bs);
       ("runtime", PStr (if test args then "10s" else "1m"))].

(** What a session may ask: its commands; files written and directories
    made under the output directory; the two templates with their
    arguments.  Reading, parsing and matching are not restricted. *)
Definition issued (args : Args) (e : event) : Prop :=
  match e with
  | Log _ => True
  | Call (Run cmd) _ => command_ok args cmd
  | Call (WriteFile path _) _ => String.prefix (output args) path = true
  | Call (MakeDirs dirname) _ => String.prefix (output args) dirname = true
  | Call (Render template kwargs) _ =>
      (template = WIPC_JOB_TPL /\ wipc_params args kwargs) \/
      (template = WDPC_IOPS_JOB_TPL /\ wdpc_params args kwargs)
  | Call _ _ => True
  end.

(** The path a request writes to or creates. *)
Definition written_path (req : request) : option string :=
  match req with
  | WriteFile path _ => Some path
  | MakeDirs dirname => Some dirname
  | _ => None
  end.

(** The only exit status the program sets is 1. *)
Definition exit1 {A : Type} (r : result A) : Prop :=
  match r with Exit code => code = 1 | _ => True end.

End Requests.

(** ** The order of purge, pre-conditioning and measurement *)

Section Order.

Local Open Scope string_scope.

(** The command line of [run_nvme_format]. *)
Definition format_command (args : Args) : list string :=
  ["/usr/bin/sudo"; "/usr/sbin/nvme"; "format"; "-f"; "-l0"; dev args].

(** A fio run: the tool of the command line is fio. *)
Definition is_fio (cmd : list string) : bool :=
  String.eqb (nth 1 cmd EmptyString) "/usr/bin/fio".

(** The device was purged: [nvme format] succeeded. *)
Definition purged (args : Args) (tr : list event) : Prop :=
  In (Call (Run (format_command args)) true) tr.

(** The device was pre-conditioned: the fio run of the pre-conditioning
    job succeeded. *)
Definition preconditioned (args : Args) (tr : list event) : Prop :=
  In (Call (Run (fio_command (path_join (output args) "pre-conditioning/wipc"))) true) tr.

(** The event [e] comes in order after the events [before]: a fio run
    after the purge, the job of a cell after the pre-conditioning. *)
Definition step_in_order (args : Args) (e : event) (before : list event) : Prop :=
  match e with
  | Call (Run cmd) _ => is_fio cmd = true -> purged args before
  | Call (Render template _) _ =>
      template = WDPC_IOPS_JOB_TPL -> preconditioned args before
  | _ => True
  end.

Fixpoint in_order (args : Args) (tr : list event) : Prop :=
  match tr with
  | [] => True
  | e :: before => step_in_order args e before /\ in_order args before
  end.

(** Before the purge: no fio run and no job of a cell so far. *)
Definition before_purge (e : event) : Prop :=
  match e with
  | Call (Run cmd) _ => is_fio cmd = false
  | Call (Render template _) _ => template <> WDPC_IOPS_JOB_TPL
  | _ => True
  end.

End Order.

(** What [save_stdout_stderr dirname result] asks: the directory, and a
    log file for each stream that is not empty. *)
Definition saves_streams (dirname : string) (result : CompletedProcess) (e : event) : Prop :=
  match e with
  | Call (MakeDirs d) _ => d = dirname
  | Call (WriteFile path data) _ =>
      (path = path_join dirname "stdout.log" /\ data = stdout result /\
       stdout result <> EmptyString) \/
      (path = path_join dirname "stderr.log" /\ data = stderr result /\
       stderr result <> EmptyString)
  | _ => False
  end.

(** An event that is neither a change of a device feature, nor a fio run,
    nor the rendering of a job. *)
Definition no_workload (e : event) : Prop :=
  match e with
  | Call (Run cmd) _ => is_fio cmd = false /\ nth 2 cmd EmptyString <> "set-feature"%string
  | Call (Render _ _) _ => False
  | _ => True
  end.

(** A machine that cooperates with the test loop: every command, every
    write, every read and every creation of a directory succeeds, the
    job templates render, and what is read from a file parses as a fio
    report that has the two counters. *)
Definition cooperative {W : Type} (host : Host W) (libs : Libs) : Prop :=
  (forall cmd w, fst (subprocess_run cmd w) <> None) /\
  (forall path data w, fst (file_write path data w) <> None) /\
  (forall path w, fst (file_read path w) <> None) /\
  (forall dirname w, fst (os_makedirs dirname w) <> None) /\
  (forall template kwargs, jinja_render template kwargs <> None) /\
  (forall path w raw,
     fst (file_read path w) = Some raw ->
     exists fio_result rd wr,
       json_loads (rstrip raw) = Some fio_result /\
       counter fio_result "read" = Ok rd /\ counter fio_result "write" = Ok wr).

(** [m] returns from every state, with a value that satisfies [Q]. *)
Definition succeeds {W A : Type} (m : M W A) (Q : A -> Prop) : Prop :=
  forall s, exists a s', m s = (Ok a, s') /\ Q a.

(** A postcondition that asks nothing of the value returned. *)
Definition any {A : Type} : A -> Prop := fun _ => True.

Section Footprint.

Context {W : Type} {host : Host W} {libs : Libs}.

(** [sound args m Q]: run on a trace of issued events, [m] leaves a
    trace of issued events; what it returns satisfies [Q], and when it
    ends by [sys.exit] the status is 1. *)
Definition sound {A : Type} (args : Args) (m : M W A) (Q : A -> Prop) : Prop :=
  forall s, Forall (issued args) (trace s) ->
    Forall (issued args) (trace (snd (m s))) /\
    match fst (m s) with
    | Ok a => Q a
    | Exit code => code = 1%Z
    | Raised _ => True
    end.

End Footprint.

Arguments sound W {A} args m Q.



Lemma eqlistQ_refl l : eqlistQ l l.
Proof. unfold eqlistQ. induction l; constructor; [reflexivity | assumption]. Qed.





























(** * The steady-state test in binary64 *)

(** ** The window *)

Lemma slice_from_neg_length {A} (l : list A) (w : Z) :
  (0 < w)%Z -> (w <= len l)%Z -> length (slice_from_neg l w) = Z.to_nat w.
Proof.
  intros Hw Hlen. unfold slice_from_neg.
  destruct (0 <? w)%Z eqn:E; [|apply Z.ltb_ge in E; lia].
  rewrite length_skipn. unfold len in *. lia.
Qed.

Lemma binary64_py_max_some (l : list Binary64.float) :
  l <> [] -> exists m, Binary64.py_max l = Some m.
Proof. destruct l; [congruence | simpl; eauto]. Qed.

Lemma binary64_py_min_some (l : list Binary64.float) :
  l <> [] -> exists m, Binary64.py_min l = Some m.
Proof. destruct l; [congruence | simpl; eauto]. Qed.

(** ** The round numbers of a window are not all the same *)

Lemma fold_left_max_ge (l : list Z) (acc : Z) :
  (acc <= fold_left Z.max l acc)%Z /\
  forall v, In v l -> (v <= fold_left Z.max l acc)%Z.
Proof.
  revert acc. induction l as [|a l IH]; intros acc; simpl.
  - split; [lia | intros v []].
  - destruct (IH (Z.max acc a)) as [H1 H2]. split; [lia|].
    intros v [<-|Hv]; [lia | auto].
Qed.

Lemma fold_left_min_le (l : list Z) (acc : Z) :
  (fold_left Z.min l acc <= acc)%Z /\
  forall v, In v l -> (fold_left Z.min l acc <= v)%Z.
Proof.
  revert acc. induction l as [|a l IH]; intros acc; simpl.
  - split; [lia | intros v []].
  - destruct (IH (Z.min acc a)) as [H1 H2]. split; [lia|].
    intros v [<-|Hv]; [lia | auto].
Qed.

Lemma amax_ge (x : list Z) (v : Z) : In v x -> (v <= Binary64.amax x)%Z.
Proof.
  unfold Binary64.amax. destruct x as [|a x]; [intros []|]. simpl.
  destruct (fold_left_max_ge x a) as [H1 H2]. intros [<-|Hv]; auto.
Qed.

Lemma amin_le (x : list Z) (v : Z) : In v x -> (Binary64.amin x <= v)%Z.
Proof.
  unfold Binary64.amin. destruct x as [|a x]; [intros []|]. simpl.
  destruct (fold_left_min_le x a) as [H1 H2]. intros [<-|Hv]; auto.
Qed.

Lemma range_5 (a : Z) :
  range a (a + 5) = [a + 0; a + 1; a + 2; a + 3; a + 4]%Z.
Proof.
  unfold range. replace (a + 5 - a)%Z with 5%Z by lia. reflexivity.
Qed.

(** The fit over five consecutive round numbers and five values never
    raises. *)
Lemma linregress_5 (a : Z) (y : list Binary64.float) :
  length y = 5%nat -> exists res, Binary64.linregress (range a (a + 5)) y = Some res.
Proof.
  intros Hy. rewrite range_5. unfold Binary64.linregress.
  rewrite Hy. cbn [length Nat.eqb orb negb Nat.ltb Nat.leb andb].
  destruct (Z.eqb_spec (Binary64.amax [a + 0; a + 1; a + 2; a + 3; a + 4]%Z)
              (Binary64.amin [a + 0; a + 1; a + 2; a + 3; a + 4]%Z)) as [E|E].
  - exfalso.
    pose proof (amax_ge [a + 0; a + 1; a + 2; a + 3; a + 4]%Z (a + 1)%Z) as H1.
    pose proof (amin_le [a + 0; a + 1; a + 2; a + 3; a + 4]%Z (a + 0)%Z) as H0.
    specialize (H1 ltac:(right; left; reflexivity)).
    specialize (H0 ltac:(left; reflexivity)). lia.
  - eexists. reflexivity.
Qed.

(** ** The exits of the function with the window size of the program *)

Lemma binary64_exit_short (values : list Binary64.float) (w : Z) :
  (len values < w)%Z -> Binary64.steady_state_exit values w = Some TooShort.
Proof.
  intros H. unfold Binary64.steady_state_exit.
  destruct (len values <? w)%Z eqn:E; [reflexivity|]. apply Z.ltb_ge in E. lia.
Qed.

(** With at least five values the range and the fitted range are
    defined, and the exit is decided by the two comparisons. *)
Lemma binary64_exit_5 (values : list Binary64.float) :
  (5 <= len values)%Z ->
  exists r fit,
    Binary64.range_of values 5 = Some r /\
    Binary64.fitted_range values 5 = Some fit /\
    Binary64.steady_state_exit values 5 =
      Some (if Binary64.geb r (Binary64.mul (Binary64.ratio 2 10) (Binary64.avg values 5))
            then FailedA
            else if Binary64.geb fit
                      (Binary64.mul (Binary64.ratio 1 10) (Binary64.avg values 5))
                 then FailedB else AllPassed).
Proof.
  intros Hlen.
  assert (Hw : length (slice_from_neg values 5) = 5%nat)
    by (rewrite slice_from_neg_length; [reflexivity | lia | exact Hlen]).
  assert (Hne : slice_from_neg values 5 <> [])
    by (intros E; rewrite E in Hw; discriminate Hw).
  destruct (binary64_py_max_some _ Hne) as [ymax Emax].
  destruct (binary64_py_min_some _ Hne) as [ymin Emin].
  assert (Hx : range (len values - 5 + 1) (len values + 1)
               = range (len values - 5 + 1) (len values - 5 + 1 + 5))
    by (f_equal; lia).
  destruct (linregress_5 (len values - 5 + 1) _ Hw) as [res Eres].
  rewrite <- Hx in Eres.
  exists (Binary64.sub ymax ymin),
         (Binary64.mul (Binary64.abs (Binary64.slope res)) (Binary64.of_Z (5 - 1))).
  unfold Binary64.range_of, Binary64.fitted_range, Binary64.avg, Binary64.window,
    Binary64.steady_state_exit.
  destruct (len values <? 5)%Z eqn:E; [apply Z.ltb_lt in E; lia|].
  cbv zeta. rewrite Emax, Emin, Eres. cbn [option_map].
  split; [reflexivity|]. split; [reflexivity|].
  destruct (Binary64.geb _ _); [reflexivity|].
  destruct (Binary64.geb _ _); reflexivity.
Qed.

Lemma binary64_in_steady_state_5_total (values : list Binary64.float) :
  exists b, Binary64.in_steady_state values 5 = Some b.
Proof.
  unfold Binary64.in_steady_state.
  destruct (Z.lt_ge_cases (len values) 5) as [H|H].
  - rewrite binary64_exit_short by exact H. eexists. reflexivity.
  - destruct (binary64_exit_5 values H) as (r & fit & _ & _ & E).
    rewrite E. eexists. reflexivity.
Qed.




(** * A program logic for sessions *)

Section Logic.

Context {W : Type} {host : Host W} {libs : Libs}.

Lemma hoare_conseq {A} (P P' : list event -> Prop) (m : M W A) Q Q' (E E' : list event -> Prop) :
  hoare W P m Q E ->
  (forall tr, P' tr -> P tr) ->
  (forall a tr, Q a tr -> Q' a tr) ->
  (forall tr, E tr -> E' tr) ->
  hoare W P' m Q' E'.
Proof.
  intros H HP HQ HE s Hs. specialize (H s (HP _ Hs)).
  destruct (m s) as [[a|c|e] s']; auto.
Qed.

Lemma hoare_assume {A} (P : list event -> Prop) (phi : Prop) (m : M W A) Q E :
  (phi -> hoare W P m Q E) -> hoare W (fun tr => P tr /\ phi) m Q E.
Proof. intros H s [Hs Hphi]. now apply H. Qed.

Lemma hoare_ret {A} (P : list event -> Prop) (a : A) Q E :
  (forall tr, P tr -> Q a tr) -> hoare W P (ret a) Q E.
Proof. intros H s Hs. simpl. auto. Qed.

Lemma hoare_bind {A B} (P : list event -> Prop) (m : M W A) (f : A -> M W B) Q1 Q2 E :
  hoare W P m Q1 E ->
  (forall a, hoare W (Q1 a) (f a) Q2 E) ->
  hoare W P (bind m f) Q2 E.
Proof.
  intros Hm Hf s Hs. unfold bind. specialize (Hm s Hs).
  destruct (m s) as [[a|c|e] s']; auto.
  apply (Hf a s' Hm).
Qed.

Lemma hoare_sys_exit {A} (P : list event -> Prop) code (Q : A -> _) (E : list event -> Prop) :
  (forall tr, P tr -> E tr) -> hoare W P (sys_exit code) Q E.
Proof. intros H s Hs. simpl. auto. Qed.

Lemma hoare_pure {A} (P : list event -> Prop) (r : result A) Q (E : list event -> Prop) :
  (forall a tr, r = Ok a -> P tr -> Q a tr) ->
  (forall tr, aborted r -> P tr -> E tr) ->
  hoare W P (pure r) Q E.
Proof.
  intros HQ HE s Hs. unfold pure. destruct r; simpl; auto.
  - apply HE; simpl; auto.
  - apply HE; simpl; auto.
Qed.

Lemma hoare_log (P : list event -> Prop) msg Q E :
  (forall tr, P tr -> Q tt (Log msg :: tr)) -> hoare W P (log msg) Q E.
Proof. intros H s Hs. simpl. auto. Qed.

Lemma hoare_query {R} (P : list event -> Prop) (f : W -> R) Q E :
  (forall r tr, P tr -> Q r tr) -> hoare W P (query f) Q E.
Proof. intros H s Hs. simpl. auto. Qed.

Lemma hoare_attempt {R} (P : list event -> Prop) req (f : W -> option R * W) failure Q
    (E : list event -> Prop) :
  aborted failure ->
  (forall v tr, P tr -> Q v (Call req true :: tr)) ->
  (forall tr, P tr -> E (Call req false :: tr)) ->
  hoare W P (attempt req f failure) Q E.
Proof.
  intros Hab HQ HE s Hs. unfold attempt.
  destruct (f (world s)) as [[v|] w']; simpl; auto.
  destruct failure; simpl in *; auto; contradiction.
Qed.

Lemma hoare_attempt_pure {R} (P : list event -> Prop) req (reply : option R) failure Q
    (E : list event -> Prop) :
  aborted failure ->
  (forall v tr, reply = Some v -> P tr -> Q v (Call req true :: tr)) ->
  (forall tr, reply = None -> P tr -> E (Call req false :: tr)) ->
  hoare W P (attempt_pure req reply failure) Q E.
Proof.
  intros Hab HQ HE s Hs. unfold attempt_pure, attempt.
  destruct reply as [v|]; simpl; auto.
  destruct failure; simpl in *; auto; contradiction.
Qed.

(** Loops: [J done st] holds after the iterations [done] with the
    loop-carried variables [st]. *)
Lemma hoare_for_each {A St} (J : list A -> St -> list event -> Prop)
    (body : A -> St -> M W St) (E : list event -> Prop) :
  forall todo done st,
  (forall a st done', hoare W (J done' st) (body a st) (fun st' => J (done' ++ [a]) st') E) ->
  hoare W (J done st) (for_each todo body st) (fun st' => J (done ++ todo) st') E.
Proof.
  induction todo as [|a todo IH]; intros done st Hbody.
  - simpl. apply hoare_ret. intros tr. now rewrite app_nil_r.
  - simpl. eapply hoare_bind; [apply Hbody|].
    intros st'. specialize (IH (done ++ [a]) st' Hbody).
    rewrite <- app_assoc in IH. exact IH.
Qed.

Section Inv.

Variables Good Bad : list event -> Prop.
Hypothesis Good_Bad : forall tr, Good tr -> Bad tr.

Lemma inv_ret {A} (a : A) : inv W Good Bad (ret a).
Proof. apply hoare_ret. auto. Qed.

Lemma inv_bind {A B} (m : M W A) (f : A -> M W B) :
  inv W Good Bad m -> (forall a, inv W Good Bad (f a)) -> inv W Good Bad (bind m f).
Proof. intros Hm Hf. eapply hoare_bind; [exact Hm | exact Hf]. Qed.

Lemma inv_sys_exit {A} code : inv W Good Bad (@sys_exit W A code).
Proof. apply hoare_sys_exit. exact Good_Bad. Qed.

Lemma inv_pure {A} (r : result A) : inv W Good Bad (pure r).
Proof. apply hoare_pure; auto. Qed.

Lemma inv_query {R} (f : W -> R) : inv W Good Bad (query f).
Proof. apply hoare_query; auto. Qed.

Lemma inv_attempt {R} req (f : W -> option R * W) failure :
  aborted failure -> admits Good Bad req -> inv W Good Bad (attempt req f failure).
Proof.
  intros Hab Hreq. apply hoare_attempt; [exact Hab| |]; intros; now apply Hreq.
Qed.

Lemma inv_attempt_pure {R} req (reply : option R) failure :
  aborted failure -> admits Good Bad req -> inv W Good Bad (attempt_pure req reply failure).
Proof. intros. now apply inv_attempt. Qed.

Lemma inv_log msg : (forall tr, Good tr -> Good (Log msg :: tr)) -> inv W Good Bad (log msg).
Proof. intros H. apply hoare_log. exact H. Qed.

Lemma inv_for_each {A St} (l : list A) (body : A -> St -> M W St) st :
  (forall a st, inv W Good Bad (body a st)) -> inv W Good Bad (for_each l body st).
Proof.
  intros Hbody. unfold inv.
  apply (hoare_for_each (fun _ _ => Good) body Bad l [] st). intros. apply Hbody.
Qed.

Lemma inv_if {A} (b : bool) (m1 m2 : M W A) :
  inv W Good Bad m1 -> inv W Good Bad m2 -> inv W Good Bad (if b then m1 else m2).
Proof. destruct b; auto. Qed.

(** *** The wrappers keep every invariant that admits their requests *)

Hypothesis fs_ok : forall req, kind_of req = KFs -> admits Good Bad req.
Hypothesis run_ok : forall req, kind_of req = KRun -> admits Good Bad req.

Lemma save_file_inv dirname filename data : inv W Good Bad (save_file dirname filename data).
Proof. apply inv_attempt; [exact I | now apply fs_ok]. Qed.

Lemma read_file_inv dirname filename : inv W Good Bad (read_file dirname filename).
Proof.
  apply inv_bind; [|intros; apply inv_ret].
  apply inv_attempt; [exact I | now apply fs_ok].
Qed.

Lemma create_dir_inv dirname : inv W Good Bad (create_dir dirname).
Proof.
  apply inv_bind; [apply inv_query|]. intros present.
  apply inv_if; [|apply inv_ret].
  apply inv_attempt; [exact I | now apply fs_ok].
Qed.

Lemma run_inv args : inv W Good Bad (run args).
Proof. apply inv_attempt; [exact I | now apply run_ok]. Qed.

Lemma save_stdout_stderr_inv dirname result : inv W Good Bad (save_stdout_stderr dirname result).
Proof.
  unfold save_stdout_stderr.
  apply inv_bind; [apply create_dir_inv|]. intros _.
  apply inv_bind; [apply inv_if; [apply save_file_inv | apply inv_ret]|]. intros _.
  apply inv_if; [apply save_file_inv | apply inv_ret].
Qed.

Lemma save_dict_inv dirname data : inv W Good Bad (save_dict dirname data).
Proof.
  apply inv_bind; [apply create_dir_inv|]. intros _. apply save_file_inv.
Qed.

Lemma read_dir_files_inv dirname names : inv W Good Bad (read_dir_files dirname names).
Proof.
  apply inv_for_each. intros n d.
  apply inv_bind; [apply read_file_inv|]. intros; apply inv_ret.
Qed.

Lemma read_dir_inv dirname : inv W Good Bad (read_dir dirname).
Proof.
  apply inv_bind; [|intros; apply read_dir_files_inv].
  apply inv_attempt; [exact I | now apply fs_ok].
Qed.

Lemma get_queue_info_inv dev : inv W Good Bad (get_queue_info dev).
Proof. apply read_dir_inv. Qed.

Lemma get_nvme_module_info_inv : inv W Good Bad get_nvme_module_info.
Proof.
  apply inv_bind; [apply read_dir_files_inv|]. intros t.
  apply inv_bind; [apply read_dir_inv|]. intros; apply inv_ret.
Qed.

Hypothesis match_ok : forall req, kind_of req = KMatch -> admits Good Bad req.

Lemma get_nvme_features_inv dev : inv W Good Bad (get_nvme_features dev).
Proof.
  apply inv_bind; [|intros; apply inv_ret].
  apply inv_for_each. intros fid result.
  apply inv_bind; [apply run_inv|]. intros r.
  apply inv_bind; [apply inv_pure|]. intros line0.
  apply inv_bind; [apply inv_attempt_pure; [exact I | now apply match_ok]|]. intros g.
  apply inv_bind; [|intros; apply inv_ret].
  apply inv_for_each. intros l hr.
  apply inv_bind; [apply inv_attempt_pure; [exact I | now apply match_ok]|].
  intros; apply inv_ret.
Qed.

Hypothesis loads_ok : forall req, kind_of req = KLoads -> admits Good Bad req.

Lemma get_nvme_namespace_inv data dev : inv W Good Bad (get_nvme_namespace data dev).
Proof.
  apply inv_bind; [apply inv_attempt_pure; [exact I | now apply loads_ok]|]. intros j.
  apply inv_bind; [apply inv_pure|]. intros [n|]; [apply inv_ret | apply inv_sys_exit].
Qed.

Lemma run_and_save_fio_inv dirname job : inv W Good Bad (run_and_save_fio dirname job).
Proof.
  apply inv_bind; [apply create_dir_inv|]. intros _.
  apply inv_bind; [apply save_file_inv|]. intros _.
  apply inv_bind; [apply run_inv|]. intros result.
  apply inv_bind; [apply save_stdout_stderr_inv|]. intros _.
  apply inv_bind; [apply read_file_inv|]. intros data.
  apply inv_attempt_pure; [exact I | now apply loads_ok].
Qed.

Hypothesis setup_ok : forall msg, is_setup msg -> forall tr, Good tr -> Good (Log msg :: tr).

(** The session at hand; its pre-conditioning job is admitted. *)
Variable args : Args.

Hypothesis wipc_ok : forall kwargs, admits Good Bad (Render WIPC_JOB_TPL kwargs).

(** Everything [iops] does before the test loop keeps an invariant that
    admits its requests; what follows is left to [Hloop]. *)
Lemma iops_hoare (Q : unit -> list event -> Prop) :
  (forall queue_depth thread_count size runtime,
     hoare W Good (iops_test_loop args queue_depth thread_count size runtime) Q Bad) ->
  hoare W Good (iops args) Q Bad.
Proof.
  intros Hloop. unfold iops.
  do 4 (eapply hoare_bind; [apply run_inv|]; intros ?;
        eapply hoare_bind; [apply save_stdout_stderr_inv|]; intros ?).
  eapply hoare_bind; [apply get_nvme_module_info_inv|]. intros info.
  eapply hoare_bind; [apply save_dict_inv|]. intros ?.
  eapply hoare_bind; [apply get_nvme_features_inv|]. intros features.
  eapply hoare_bind; [apply save_dict_inv|]. intros ?.
  eapply hoare_bind; [apply get_queue_info_inv|]. intros queue.
  eapply hoare_bind; [apply save_dict_inv|]. intros ?.
  eapply hoare_bind; [apply run_inv|]. intros nvme_list_result.
  eapply hoare_bind; [apply save_stdout_stderr_inv|]. intros ?.
  eapply hoare_bind; [apply get_nvme_namespace_inv|]. intros ns.
  eapply hoare_bind; [apply inv_pure|]. intros physical_size.
  apply (hoare_bind _ _ _ (fun _ => Good)).
  { apply inv_if; [|apply inv_log; apply setup_ok; exact I].
    apply inv_bind; [apply run_inv|]. intros ?. apply save_stdout_stderr_inv. }
  intros _.
  apply (hoare_bind _ _ _ (fun _ => Good)).
  { apply inv_if; [|apply inv_if; [|apply inv_sys_exit]];
      (apply inv_bind; [apply inv_log; apply setup_ok; exact I|]; intros ?;
       apply inv_bind; [apply run_inv|]; intros ?;
       apply inv_bind; [apply save_stdout_stderr_inv|]; intros ?).
    - apply inv_ret.
    - apply inv_bind; [apply inv_pure|]. intros ?. apply inv_ret. }
  intros [[active_range queue_depth] thread_count].
  apply (hoare_bind _ _ _ (fun _ => Good));
    [ apply inv_if; [|apply inv_ret];
      apply inv_bind; [apply inv_log; apply setup_ok; exact I|]; intros; apply inv_ret |].
  intros runtime.
  apply (hoare_bind _ _ _ (fun _ => Good)); [apply inv_pure|]. intros io_size.
  apply (hoare_bind _ _ _ (fun _ => Good));
    [apply inv_attempt_pure; [exact I | apply wipc_ok]|]. intros job.
  apply (hoare_bind _ _ _ (fun _ => Good));
    [ apply inv_if; [apply inv_log; apply setup_ok; exact I|];
      apply inv_bind; [apply inv_log; apply setup_ok; exact I|]; intros _;
      apply inv_bind; [apply run_and_save_fio_inv|]; intros; apply inv_ret |].
  intros _.
  apply Hloop.
Qed.

Hypothesis log_ok : forall msg tr, Good tr -> Good (Log msg :: tr).
Hypothesis wdpc_ok : forall kwargs, admits Good Bad (Render WDPC_IOPS_JOB_TPL kwargs).

Lemma iops_cell_inv queue_depth thread_count seed size runtime round_num rr bs t :
  inv W Good Bad (iops_cell args queue_depth thread_count seed size runtime round_num rr bs t).
Proof.
  unfold iops_cell.
  apply inv_bind; [apply run_inv|]. intros smart.
  apply inv_bind; [apply save_stdout_stderr_inv|]. intros _.
  apply inv_bind; [apply inv_attempt_pure; [exact I | apply wdpc_ok]|]. intros job.
  apply inv_bind; [apply run_and_save_fio_inv|]. intros fio_result.
  apply inv_bind; [apply run_inv|]. intros smart'.
  apply inv_bind; [apply save_stdout_stderr_inv|]. intros _.
  apply inv_bind; [apply inv_pure|]. intros job0.
  apply inv_bind; [apply inv_pure|]. intros read_iops.
  apply inv_bind; [apply inv_pure|]. intros job0'.
  apply inv_bind; [apply inv_pure|]. intros write_iops.
  apply inv_bind; [apply inv_log; apply log_ok|]. intros _.
  repeat (apply inv_if; [apply inv_ret|]). apply inv_ret.
Qed.

Lemma all_steady_inv t : inv W Good Bad (all_steady t).
Proof.
  unfold all_steady, steady.
  apply inv_bind; [apply inv_pure|]. intros a.
  apply inv_if; [|apply inv_ret].
  apply inv_bind; [apply inv_pure|]. intros b.
  apply inv_if; [apply inv_pure | apply inv_ret].
Qed.

Lemma iops_rounds_inv queue_depth thread_count seed size runtime rounds :
  forall round_num t,
  inv W Good Bad (iops_rounds args queue_depth thread_count seed size runtime rounds round_num t).
Proof.
  induction rounds as [|n rest IH]; intros round_num t; cbn [iops_rounds].
  - apply inv_ret.
  - apply inv_bind.
    { apply inv_for_each. intros rr st. apply inv_for_each. intros bs st'.
      apply iops_cell_inv. }
    intros t'.
    apply inv_bind; [apply inv_log; apply log_ok|]. intros _.
    apply inv_bind; [apply all_steady_inv|]. intros s.
    apply inv_if; [|apply IH].
    apply inv_bind; [apply inv_log; apply log_ok|]. intros _. apply inv_ret.
Qed.

(** The whole session keeps such an invariant. *)
Lemma iops_inv : inv W Good Bad (iops args).
Proof.
  apply iops_hoare. intros queue_depth thread_count size runtime.
  unfold iops_test_loop.
  apply inv_bind; [apply iops_rounds_inv|]. intros [[n|] t];
    [apply inv_if; [apply inv_log; apply log_ok | apply inv_ret] | apply inv_pure].
Qed.

End Inv.

End Logic.

(** ** Messages of a trace *)

Lemma messages_before_app later tr :
  messages_before later tr = (messages tr ++ later)%list.
Proof.
  unfold messages. revert later.
  induction tr as [|e tr IH]; intros later; [reflexivity|].
  unfold messages_before in *. simpl.
  destruct e as [req ok|msg]; [apply IH|].
  rewrite (IH (msg :: later)), (IH [msg]), <- app_assoc. reflexivity.
Qed.

Lemma messages_app new old : messages (new ++ old) = (messages old ++ messages new)%list.
Proof.
  unfold messages at 1. unfold messages_before. rewrite fold_left_app.
  fold (messages_before [] new). fold (messages new).
  apply messages_before_app.
Qed.

Lemma messages_log msg tr : messages (Log msg :: tr) = (messages tr ++ [msg])%list.
Proof. apply (messages_app [Log msg] tr). Qed.

Lemma messages_call req ok tr : messages (Call req ok :: tr) = messages tr.
Proof. change (Call req ok :: tr) with ([Call req ok] ++ tr)%list.
  rewrite messages_app. apply app_nil_r. Qed.

Lemma quiet_is_call e : quiet e -> is_call e.
Proof. destruct e as [[] ?|]; simpl; auto. Qed.

Lemma messages_calls tr : Forall is_call tr -> messages tr = [].
Proof.
  induction 1 as [|e tr He _ IH]; [reflexivity|].
  destruct e; [|contradiction]. now rewrite messages_call.
Qed.

Lemma grown_refl P tr0 : grown P tr0 tr0.
Proof. exists []. auto. Qed.

Lemma grown_cons (P : event -> Prop) tr0 e tr : P e -> grown P tr0 tr -> grown P tr0 (e :: tr).
Proof. intros He (new & -> & Hnew). exists (e :: new). auto. Qed.

Lemma grown_admits (P : event -> Prop) tr0 req :
  (forall ok, P (Call req ok)) -> admits (grown P tr0) (grown P tr0) req.
Proof. intros H tr Htr. split; apply grown_cons; auto. Qed.

Lemma grown_weaken (P P' : event -> Prop) tr0 tr :
  (forall e, P e -> P' e) -> grown P tr0 tr -> grown P' tr0 tr.
Proof.
  intros H (new & -> & Hnew). exists new. split; [reflexivity|].
  eapply Forall_impl; eauto.
Qed.

Section Cell.

Context {W : Type} {host : Host W} {libs : Libs}.

(** What [run_and_save_fio] leaves on the trace when it returns: the
    report it returns is the parse of the data read from [output.json]. *)
Lemma run_and_save_fio_spec (Good Bad : list event -> Prop) dirname job :
  (forall tr, Good tr -> Bad tr) ->
  (forall req, kind_of req <> KRender -> kind_of req <> KMatch -> admits Good Bad req) ->
  hoare W Good (run_and_save_fio dirname job)
    (fun fio_result tr =>
       exists data tr1,
         tr = Call (Loads data) true
              :: Call (ReadFile (path_join dirname "output.json")) true :: tr1 /\
         Good tr1 /\ json_loads data = Some fio_result)
    Bad.
Proof.
  intros GB Hadm.
  assert (Hfs : forall req, kind_of req = KFs -> admits Good Bad req)
    by (intros req E; apply Hadm; rewrite E; discriminate).
  assert (Hrun : forall req, kind_of req = KRun -> admits Good Bad req)
    by (intros req E; apply Hadm; rewrite E; discriminate).
  unfold run_and_save_fio.
  eapply hoare_bind; [apply create_dir_inv; auto|]. intros ?.
  eapply hoare_bind; [apply save_file_inv; auto|]. intros ?.
  eapply hoare_bind; [apply run_inv; auto|]. intros result.
  eapply hoare_bind; [apply save_stdout_stderr_inv; auto|]. intros ?.
  unfold read_file.
  apply (hoare_bind _ _ _
           (fun (_ : string) tr => exists tr1,
              tr = Call (ReadFile (path_join dirname "output.json")) true :: tr1 /\
              Good tr1)).
  { eapply hoare_bind.
    - apply (hoare_attempt Good _ _ _
               (fun _ tr => exists tr1,
                  tr = Call (ReadFile (path_join dirname "output.json")) true :: tr1 /\
                  Good tr1)); [exact I| |].
      + intros v tr Htr. now exists tr.
      + intros tr Htr. now apply Hfs.
    - intros content. apply hoare_ret. intros tr Htr. exact Htr. }
  intros data. cbv beta.
  apply hoare_attempt_pure; [exact I| |].
  - intros v tr Hv (tr1 & -> & Htr1). now exists data, tr1.
  - intros tr _ (tr1 & -> & Htr1).
    apply Hadm; [discriminate | discriminate |]. apply Hfs; [reflexivity | exact Htr1].
Qed.

Lemma grown_calls_admits tr0 req : admits (grown is_call tr0) (grown is_call tr0) req.
Proof. apply grown_admits. intros ok. exact I. Qed.

Lemma iops_cell_spec args queue_depth thread_count seed size runtime n rr bs t tr0 :
  hoare W (eq tr0)
    (iops_cell args queue_depth thread_count seed size runtime n rr bs t)
    (cell_done args n rr bs t tr0)
    (grown is_call tr0).
Proof.
  set (G0 := grown is_call tr0).
  assert (G0ok : forall req, admits G0 G0 req) by (intros; apply grown_calls_admits).
  apply (hoare_conseq G0 _ _ (cell_done args n rr bs t tr0) _ G0 G0);
    [|intros ? <-; apply grown_refl|auto|auto].
  unfold iops_cell.
  eapply hoare_bind; [apply run_inv; auto|]. intros smart.
  eapply hoare_bind; [apply save_stdout_stderr_inv; auto|]. intros ?.
  eapply hoare_bind; [apply inv_attempt_pure; [exact I | auto]|]. intros job.
  eapply hoare_bind; [apply run_and_save_fio_spec; auto|]. intros fio_result.
  (* from here on the parsed report is on the trace *)
  set (p := path_join (cell_dir args n rr bs "wdpc") "output.json").
  set (G2 := fun tr : list event =>
     exists data after before,
       tr = (after ++ Call (Loads data) true :: Call (ReadFile p) true
                   :: before ++ tr0)%list /\
       Forall quiet after /\ Forall is_call before /\
       json_loads data = Some fio_result).
  assert (G2_G0 : forall tr, G2 tr -> G0 tr).
  { intros tr (data & after & before & -> & Ha & Hb & _).
    exists (after ++ Call (Loads data) true :: Call (ReadFile p) true :: before)%list.
    split; [now rewrite <- app_assoc|].
    apply Forall_app. split; [eapply Forall_impl; [apply quiet_is_call | exact Ha]|].
    repeat constructor. exact Hb. }
  assert (G2ok : forall req, kind_of req <> KLoads -> admits G2 G0 req).
  { intros req Hk tr Htr. split; [|apply grown_cons; [exact I | now apply G2_G0]].
    destruct Htr as (data & after & before & -> & Ha & Hb & Hj).
    exists data, (Call req true :: after), before. split; [reflexivity|].
    split; [|auto]. constructor; [|exact Ha].
    destruct req; simpl; auto; now elim Hk. }
  apply (hoare_conseq G2 _ _ (cell_done args n rr bs t tr0) _ G0 G0); [| |auto|auto].
  2: { intros tr (data & tr1 & -> & (before & -> & Hb) & Hj).
       exists data, [], before. simpl. auto. }
  eapply hoare_bind;
    [apply (run_inv G2 G0); intros req E; apply G2ok; rewrite E; discriminate|].
  intros smart'.
  eapply hoare_bind;
    [apply (save_stdout_stderr_inv G2 G0); intros req E; apply G2ok; rewrite E; discriminate|].
  intros ?.
  apply (hoare_bind _ _ _
           (fun job0 tr => G2 tr /\ rbind (getitem fio_result "jobs") getitem0 = Ok job0));
    [apply hoare_pure; auto|].
  intros job0. apply hoare_assume. intros Ejob0.
  apply (hoare_bind _ _ _ (fun rd tr => G2 tr /\ counter fio_result "read" = Ok rd)).
  { apply hoare_pure; [|auto]. intros rd tr Erd Htr. split; [exact Htr|].
    unfold counter. rewrite Ejob0. exact Erd. }
  intros rd. apply hoare_assume. intros Erd.
  apply (hoare_bind _ _ _
           (fun job0' tr => G2 tr /\ rbind (getitem fio_result "jobs") getitem0 = Ok job0'));
    [apply hoare_pure; auto|].
  intros job0'. apply hoare_assume. intros Ejob0'.
  apply (hoare_bind _ _ _ (fun wr tr => G2 tr /\ counter fio_result "write" = Ok wr)).
  { apply hoare_pure; [|auto]. intros wr tr Ewr Htr. split; [exact Htr|].
    unfold counter. rewrite Ejob0'. exact Ewr. }
  intros wr. apply hoare_assume. intros Ewr.
  cbv zeta. fold (blend rr rd wr).
  apply (hoare_bind _ _ _ (fun _ tr => cell_done args n rr bs t tr0
                                         (track rr bs (blend rr rd wr) t) tr)).
  { apply hoare_log. intros tr (data & after & before & -> & Ha & Hb & Hj).
    exists data, fio_result, rd, wr, after, before. auto 10. }
  intros _. unfold track.
  destruct ((rr =? 0)%Z && String.eqb bs "4k"); [apply hoare_ret; auto|].
  destruct ((rr =? 65)%Z && String.eqb bs "64k"); [apply hoare_ret; auto|].
  destruct ((rr =? 100)%Z && String.eqb bs "1024k"); apply hoare_ret; auto.
Qed.

End Cell.

Lemma combine_snoc {A B} (l : list A) (l' : list B) a b :
  length l = length l' ->
  combine (l ++ [a]) (l' ++ [b]) = (combine l l' ++ [(a, b)])%list.
Proof.
  revert l'. induction l as [|x l IH]; intros [|y l'] H; simpl in *; try discriminate.
  - reflexivity.
  - f_equal. apply IH. now injection H.
Qed.

Lemma list_prod_snoc {A B} (l : list A) (a : A) (l' : list B) :
  list_prod (l ++ [a]) l' = (list_prod l l' ++ map (pair a) l')%list.
Proof.
  induction l as [|x l IH]; simpl.
  - now rewrite app_nil_r.
  - now rewrite IH, app_assoc.
Qed.

Lemma cell_msgs_is_cell n cells vs : Forall (is_cell_of n) (cell_msgs n cells vs).
Proof.
  unfold cell_msgs. apply Forall_forall. intros m Hm.
  apply in_map_iff in Hm. destruct Hm as (cv & <- & _). reflexivity.
Qed.

Section Round.

Context {W : Type} {host : Host W} {libs : Libs}.

Lemma hoare_frame {A} (P : list event -> Prop) (m : M W A)
    (Q : list event -> A -> list event -> Prop) (E : list event -> list event -> Prop) :
  (forall tr1, P tr1 -> hoare W (eq tr1) m (Q tr1) (E tr1)) ->
  hoare W P m (fun a tr => exists tr1, P tr1 /\ Q tr1 a tr)
            (fun tr => exists tr1, P tr1 /\ E tr1 tr).
Proof.
  intros H s Hs. specialize (H (trace s) Hs s eq_refl).
  destruct (m s) as [[a|c|e] s']; eauto.
Qed.

Lemma cell_done_messages args n rr bs t tr0 t' tr :
  cell_done args n rr bs t tr0 t' tr ->
  exists new v, tr = (new ++ tr0)%list /\ messages new = [MsgCell n rr bs v] /\
                t' = track rr bs v t.
Proof.
  intros (data & j & rd & wr & after & before & -> & Ha & Hb & _ & _ & _ & ->).
  eexists (Log _ :: after ++ Call (Loads data) true :: Call (ReadFile _) true :: before)%list,
          (blend rr rd wr).
  split; [simpl; rewrite <- app_assoc; reflexivity|]. split; [|reflexivity].
  rewrite messages_log, messages_calls; [reflexivity|].
  apply Forall_app. split; [eapply Forall_impl; [apply quiet_is_call | exact Ha]|].
  repeat constructor. exact Hb.
Qed.

Lemma cell_step args queue_depth thread_count seed size runtime n t0 tr0 cells rr bs t :
  hoare W (cells_done n t0 tr0 cells t)
    (iops_cell args queue_depth thread_count seed size runtime n rr bs t)
    (fun t' => cells_done n t0 tr0 (cells ++ [(rr, bs)]) t')
    (round_cut n tr0).
Proof.
  eapply hoare_conseq;
    [apply (hoare_frame (cells_done n t0 tr0 cells t) _
              (fun tr1 => cell_done args n rr bs t tr1)
              (fun tr1 => grown is_call tr1));
     intros; apply iops_cell_spec
    | auto | |].
  - intros t' tr (tr1 & (new & vs & -> & Hlen & Hmsgs & ->) & Hdone).
    apply cell_done_messages in Hdone. destruct Hdone as (new' & v & -> & Hm & ->).
    exists (new' ++ new)%list, (vs ++ [v])%list.
    split; [now rewrite app_assoc|].
    split; [rewrite !length_app; simpl; lia|].
    unfold cell_msgs, track_all.
    rewrite combine_snoc by (symmetry; exact Hlen).
    rewrite messages_app, Hmsgs, Hm, map_app, fold_left_app. split; reflexivity.
  - intros tr (tr1 & (new & vs & -> & Hlen & Hmsgs & ->) & (new' & -> & Hcalls)).
    exists (new' ++ new)%list. split; [now rewrite app_assoc|].
    rewrite messages_app, Hmsgs, (messages_calls _ Hcalls), app_nil_r.
    apply cell_msgs_is_cell.
Qed.

Lemma round_spec args queue_depth thread_count seed size runtime n t0 tr0 :
  hoare W (eq tr0)
    (for_each MIXES
       (fun rr => for_each BLOCK_SIZES
          (fun bs => iops_cell args queue_depth thread_count seed size runtime n rr bs)) t0)
    (cells_done n t0 tr0 CELLS)
    (round_cut n tr0).
Proof.
  eapply hoare_conseq;
    [apply (hoare_for_each
              (fun done t tr => cells_done n t0 tr0 (list_prod done BLOCK_SIZES) t tr)
              _ (round_cut n tr0) MIXES [] t0)
    | | auto | auto].
  - intros rr t mixes_done.
    eapply hoare_conseq;
      [apply (hoare_for_each
                (fun done' t tr =>
                   cells_done n t0 tr0
                     (list_prod mixes_done BLOCK_SIZES ++ map (pair rr) done') t tr)
                _ (round_cut n tr0) BLOCK_SIZES [] t)
      | | | auto].
    + intros bs t' sizes_done.
      eapply hoare_conseq;
        [apply (cell_step args queue_depth thread_count seed size runtime n t0 tr0
                  (list_prod mixes_done BLOCK_SIZES ++ map (pair rr) sizes_done))
        | auto | | auto].
      intros t'' tr H. cbv beta. rewrite map_app, app_assoc. exact H.
    + intros tr H. simpl. now rewrite app_nil_r.
    + intros t' tr H. simpl in H. now rewrite list_prod_snoc.
  - intros tr <-. exists [], []. simpl. auto.
Qed.

End Round.

Section Loop.

Context {W : Type} {host : Host W} {libs : Libs}.

Lemma steady_run values (s : state W) : steady values s = (Ok (verdict values), s).
Proof.
  unfold steady, verdict, pure, MEASUREMENT_WINDOW.
  destruct (binary64_in_steady_state_5_total values) as [b ->]. reflexivity.
Qed.

Lemma all_steady_run t (s : state W) : all_steady t s = (Ok (all_stable t), s).
Proof.
  unfold all_steady, all_stable, bind. rewrite steady_run.
  destruct (verdict (rr0_4k_iops t)); [|reflexivity].
  rewrite steady_run.
  destruct (verdict (rr65_64k_iops t)); [|reflexivity].
  rewrite steady_run. reflexivity.
Qed.

Lemma hoare_all_steady (P : list event -> Prop) t E :
  hoare W P (all_steady t) (fun b tr => P tr /\ b = all_stable t) E.
Proof. intros s Hs. rewrite all_steady_run. auto. Qed.

Lemma iops_rounds_spec args queue_depth thread_count seed size runtime rounds :
  forall round_num t tr0,
  hoare W (eq tr0)
    (iops_rounds args queue_depth thread_count seed size runtime rounds round_num t)
    (loop_returned rounds round_num t tr0)
    (loop_cut rounds round_num t tr0).
Proof.
  induction rounds as [|n rest IH]; intros round_num t tr0; cbn [iops_rounds].
  - apply hoare_ret. intros tr <-. exists []. simpl. auto.
  - (* the cells of the round *)
    apply (hoare_bind _ _ _ (cells_done n t tr0 CELLS)).
    { eapply hoare_conseq;
        [apply (round_spec args queue_depth thread_count seed size runtime n t tr0)
        | auto | auto |].
      intros tr (new & -> & Hcells). exists new. split; [reflexivity|].
      left. auto. }
    intros t'.
    (* the four log lines *)
    apply (hoare_bind _ _ _
             (fun _ tr => exists new vs,
                tr = (new ++ tr0)%list /\ length vs = length CELLS /\
                t' = track_all CELLS vs t /\
                messages new = (cell_msgs n CELLS vs ++ [msg_round n t'])%list)).
    { apply hoare_log. intros tr (new & vs & -> & Hlen & Hm & ->).
      exists (Log (msg_round n (track_all CELLS vs t)) :: new), vs.
      rewrite messages_log, Hm. auto. }
    intros _.
    (* the verdicts *)
    eapply hoare_bind; [apply hoare_all_steady|].
    intros s. apply hoare_assume. intros ->.
    destruct (all_stable t') eqn:Es.
    + (* steady state, breaking the loop *)
      apply (hoare_bind _ _ _
               (fun _ tr => loop_returned (n :: rest) round_num t tr0 (Some n, t') tr)).
      2: { intros _. apply hoare_ret. auto. }
      apply hoare_log.
      intros tr (new & vs & -> & Hlen & -> & Hm).
      exists (Log MsgSteady :: new). split; [reflexivity|].
      right. exists vs, [MsgSteady]. split; [exact Hlen|].
      rewrite messages_log, Hm, <- app_assoc. split; [reflexivity|].
      rewrite Es. auto.
    + (* next round *)
      eapply hoare_conseq;
        [apply (hoare_frame _ _
                  (loop_returned rest (Some n) t')
                  (loop_cut rest (Some n) t'));
         intros tr1 _; apply IH
        | intros tr H; exact H | |].
      * intros res tr (tr1 & (new & vs & -> & Hlen & -> & Hm) & (new' & -> & Hlog)).
        exists (new' ++ new)%list. split; [now rewrite app_assoc|].
        right. exists vs, (messages new'). split; [exact Hlen|].
        rewrite messages_app, Hm, <- app_assoc. split; [reflexivity|].
        rewrite Es. exact Hlog.
      * intros tr (tr1 & (new & vs & -> & Hlen & -> & Hm) & (new' & -> & Hlog)).
        exists (new' ++ new)%list. split; [now rewrite app_assoc|].
        right. exists vs, (messages new'). split; [exact Hlen|].
        rewrite messages_app, Hm, <- app_assoc. split; [reflexivity|].
        rewrite Es. exact Hlog.
Qed.

End Loop.

Section SessionLog.

Context {W : Type} {host : Host W} {libs : Libs}.

Lemma setup_only_call req ok tr : setup_only tr -> setup_only (Call req ok :: tr).
Proof. unfold setup_only. now rewrite messages_call. Qed.

Lemma setup_only_cut tr : setup_only tr -> session_log false (messages tr).
Proof.
  intros H. exists (messages tr), [], None.
  split; [exact H|]. split; [now left|]. split; [simpl; now rewrite app_nil_r|].
  split; [discriminate | intros (n & t & [=])].
Qed.

Lemma iops_test_loop_log args queue_depth thread_count size runtime :
  hoare W setup_only (iops_test_loop args queue_depth thread_count size runtime)
    (fun _ tr => session_log true (messages tr))
    (fun tr => session_log false (messages tr)).
Proof.
  unfold iops_test_loop.
  eapply hoare_bind.
  - eapply hoare_conseq;
      [apply (hoare_frame setup_only _
                (loop_returned (range 1 26) None no_series)
                (loop_cut (range 1 26) None no_series));
       intros tr1 _; apply iops_rounds_spec
      | auto | intros a tr H; exact H |].
    intros tr (tr1 & Hsetup & new & -> & Hlog).
    exists (messages tr1), (messages new), None.
    split; [exact Hsetup|]. split; [now right|].
    split; [simpl; now rewrite messages_app, app_nil_r|].
    split; [discriminate | intros (n & t & [=])].
  - intros [[n|] t].
    + destruct (n =? 25)%Z eqn:En.
      * apply hoare_log. intros tr (tr1 & Hsetup & new & -> & Hlog).
        exists (messages tr1), (messages new), (Some (Some n, t)).
        split; [exact Hsetup|]. split; [now right|].
        split; [simpl; rewrite En, messages_log, messages_app, app_assoc; reflexivity|].
        split; [eauto | reflexivity].
      * apply hoare_ret. intros tr (tr1 & Hsetup & new & -> & Hlog).
        exists (messages tr1), (messages new), (Some (Some n, t)).
        split; [exact Hsetup|]. split; [now right|].
        split; [simpl; rewrite En, messages_app, app_nil_r; reflexivity|].
        split; [eauto | reflexivity].
    + apply hoare_pure; [discriminate|].
      intros tr _ (tr1 & Hsetup & new & -> & Hlog).
      exists (messages tr1), (messages new), (Some (None, t)).
      split; [exact Hsetup|]. split; [now right|].
      split; [simpl; now rewrite messages_app, app_nil_r|].
      split; [discriminate | intros (n & t' & [=])].
Qed.

Lemma iops_log args :
  hoare W setup_only (iops args)
    (fun _ tr => session_log true (messages tr))
    (fun tr => session_log false (messages tr)).
Proof.
  apply iops_hoare.
  - apply setup_only_cut.
  - intros req _ tr Htr. split; [now apply setup_only_call|].
    apply setup_only_cut. now apply setup_only_call.
  - intros req _ tr Htr. split; [now apply setup_only_call|].
    apply setup_only_cut. now apply setup_only_call.
  - intros req _ tr Htr. split; [now apply setup_only_call|].
    apply setup_only_cut. now apply setup_only_call.
  - intros req _ tr Htr. split; [now apply setup_only_call|].
    apply setup_only_cut. now apply setup_only_call.
  - intros msg Hmsg tr Htr. unfold setup_only. rewrite messages_log.
    apply Forall_app. split; [exact Htr | now constructor].
  - intros kwargs tr Htr. split; [now apply setup_only_call|].
    apply setup_only_cut. now apply setup_only_call.
  - apply iops_test_loop_log.
Qed.

(** The log of every session started on an empty trace. *)
Lemma session_has_log args (w : W) :
  session_log (is_ok (fst (iops args (fresh w))))
              (messages (trace (snd (iops args (fresh w))))).
Proof.
  pose proof (iops_log args (fresh w)) as H.
  destruct (iops args (fresh w)) as [[a|c|e] s']; simpl; apply H; constructor.
Qed.

End SessionLog.

(** ** What a round does to the tracked series *)

Lemma cells_count : length CELLS = 56%nat.
Proof. reflexivity. Qed.

Lemma track_all_cons c cells v vs t :
  track_all (c :: cells) (v :: vs) t = track_all cells vs (track (fst c) (snd c) v t).
Proof. reflexivity. Qed.

Lemma track_all_nil t : track_all [] [] t = t.
Proof. reflexivity. Qed.

Lemma track_other rr bs v t :
  ((rr =? 0)%Z && String.eqb bs "4k" = false) ->
  ((rr =? 65)%Z && String.eqb bs "64k" = false) ->
  ((rr =? 100)%Z && String.eqb bs "1024k" = false) ->
  track rr bs v t = t.
Proof. intros H1 H2 H3. unfold track. now rewrite H1, H2, H3. Qed.

Lemma track_all_cells vs t :
  length vs = length CELLS ->
  track_all CELLS vs t =
    {| rr0_4k_iops := rr0_4k_iops t ++ [nth 54 vs Binary64.zero];
       rr65_64k_iops := rr65_64k_iops t ++ [nth 18 vs Binary64.zero];
       rr100_1024k_iops := rr100_1024k_iops t ++ [nth 0 vs Binary64.zero] |}.
Proof.
  intros H. rewrite cells_count in H.
  do 56 (destruct vs as [|? vs]; [discriminate H|]).
  destruct vs; [|discriminate H].
  clear H. destruct t as [a b c].
  vm_compute.
  reflexivity.
Qed.

Lemma cell_eq_dec (x y : Z * string) : {x = y} + {x <> y}.
Proof. decide equality; [apply string_dec | apply Z.eq_dec]. Defined.

Lemma cells_nodup : NoDup CELLS.
Proof.
  replace CELLS with (nodup cell_eq_dec CELLS) by (vm_compute; reflexivity).
  apply NoDup_nodup.
Qed.

Lemma cells_matrix :
  CELLS = flat_map (fun rr => map (pair rr) BLOCK_SIZES) MIXES.
Proof. reflexivity. Qed.

(** ** Reading the log of the loop *)

#[local] Opaque CELLS.

Lemma snapshots_app l l' : snapshots (l ++ l') = (snapshots l ++ snapshots l')%list.
Proof. apply flat_map_app. Qed.

Lemma cells_of_round_app n l l' :
  cells_of_round n (l ++ l') = (cells_of_round n l ++ cells_of_round n l')%list.
Proof. apply flat_map_app. Qed.

Lemma snapshots_cells n l : Forall (is_cell_of n) l -> snapshots l = [].
Proof.
  induction 1 as [|m l Hm _ IH]; [reflexivity|].
  destruct m; try contradiction. exact IH.
Qed.

Lemma snapshots_setup l : Forall is_setup l -> snapshots l = [].
Proof.
  induction 1 as [|m l Hm _ IH]; [reflexivity|].
  destruct m; try contradiction; exact IH.
Qed.

Lemma cells_of_round_setup n l : Forall is_setup l -> cells_of_round n l = [].
Proof.
  induction 1 as [|m l Hm _ IH]; [reflexivity|].
  destruct m; try contradiction; exact IH.
Qed.

Lemma snapshots_msg_round n t : snapshots [msg_round n t] = [(n, t)].
Proof. destruct t. reflexivity. Qed.

Lemma cells_of_round_other n n' l :
  n' <> n -> Forall (is_cell_of n') l -> cells_of_round n l = [].
Proof.
  intros Hn. induction 1 as [|m l Hm _ IH]; [reflexivity|].
  destruct m; try contradiction. simpl in *. subst.
  destruct (Z.eqb_spec n' n); [contradiction | exact IH].
Qed.

Lemma cells_of_round_same n cells vs :
  length vs = length cells -> cells_of_round n (cell_msgs n cells vs) = cells.
Proof.
  revert vs. induction cells as [|[rr bs] cells IH]; intros [|v vs] H;
    try discriminate; [reflexivity|].
  simpl. rewrite Z.eqb_refl. simpl. f_equal. apply IH. now injection H.
Qed.

Lemma not_in_cells msg n l : Forall (is_cell_of n) l -> In msg l -> is_cell_of n msg.
Proof. intros H Hin. rewrite Forall_forall in H. auto. Qed.

(** Only the rounds of [rounds] are mentioned in the log of the loop. *)
Lemma loop_log_cells_elsewhere rounds : forall round_num t ms fin n,
  loop_log rounds round_num t ms fin -> ~ In n rounds -> cells_of_round n ms = [].
Proof.
  induction rounds as [|n0 rest IH]; intros round_num t ms fin n H Hn; simpl in H.
  - destruct H as [-> _]. reflexivity.
  - assert (Hne : n0 <> n) by (intros ->; apply Hn; now left).
    assert (Hrest : ~ In n rest) by (intros Hin; apply Hn; now right).
    destruct H as [[_ Hcells] | (vs & ms' & Hlen & -> & Hrest')].
    + now apply (cells_of_round_other n n0).
    + rewrite cells_of_round_app.
      rewrite (cells_of_round_other n n0 _ Hne (cell_msgs_is_cell _ _ _)).
      simpl. destruct (all_stable (track_all CELLS vs t)).
      * destruct Hrest' as [-> _]. reflexivity.
      * eapply IH; eauto.
Qed.

(** Only the rounds of [rounds] have a snapshot in the log of the loop. *)
Lemma loop_log_snapshots_within rounds : forall round_num t ms fin n,
  loop_log rounds round_num t ms fin -> In n (map fst (snapshots ms)) -> In n rounds.
Proof.
  induction rounds as [|n0 rest IH]; intros round_num t ms fin n H Hn; simpl in H.
  - destruct H as [-> _]. destruct Hn.
  - destruct H as [[_ Hcells] | (vs & ms' & Hlen & -> & Hrest)].
    + rewrite (snapshots_cells _ _ Hcells) in Hn. destruct Hn.
    + rewrite snapshots_app, (snapshots_cells _ _ (cell_msgs_is_cell _ _ _)) in Hn.
      change (msg_round n0 (track_all CELLS vs t) :: ms')
        with ([msg_round n0 (track_all CELLS vs t)] ++ ms')%list in Hn.
      rewrite snapshots_app, snapshots_msg_round in Hn. simpl in Hn.
      destruct Hn as [<- | Hn]; [now left|]. right.
      destruct (all_stable (track_all CELLS vs t)).
      * destruct Hrest as [-> _]. destruct Hn.
      * eapply IH; eauto.
Qed.

(** Every completed round logged the 56 cells of the matrix, in order. *)
Lemma loop_log_cells rounds : forall round_num t ms fin n,
  loop_log rounds round_num t ms fin -> NoDup rounds ->
  In n (map fst (snapshots ms)) -> cells_of_round n ms = CELLS.
Proof.
  induction rounds as [|n0 rest IH]; intros round_num t ms fin n H Hnd Hn; simpl in H.
  - destruct H as [-> _]. destruct Hn.
  - inversion Hnd as [|? ? Hnotin Hnd']; subst.
    destruct H as [[_ Hcells] | (vs & ms' & Hlen & -> & Hrest)].
    + rewrite (snapshots_cells _ _ Hcells) in Hn. destruct Hn.
    + rewrite snapshots_app, (snapshots_cells _ _ (cell_msgs_is_cell _ _ _)) in Hn.
      change (msg_round n0 (track_all CELLS vs t) :: ms')
        with ([msg_round n0 (track_all CELLS vs t)] ++ ms')%list in Hn.
      rewrite snapshots_app, snapshots_msg_round in Hn. simpl in Hn.
      rewrite cells_of_round_app. simpl.
      destruct Hn as [<- | Hn].
      * rewrite cells_of_round_same by exact Hlen.
        destruct (all_stable (track_all CELLS vs t)).
        -- destruct Hrest as [-> _]. simpl. apply app_nil_r.
        -- rewrite (loop_log_cells_elsewhere _ _ _ _ _ n0 Hrest Hnotin). apply app_nil_r.
      * destruct (all_stable (track_all CELLS vs t)).
        -- destruct Hrest as [-> _]. destruct Hn.
        -- assert (n0 <> n).
           { intros ->. apply Hnotin. eapply loop_log_snapshots_within; eauto. }
           rewrite (cells_of_round_other n n0 _ H (cell_msgs_is_cell _ _ _)). simpl.
           eapply IH; eauto.
Qed.

Lemma snapshots_round n vs t ms' :
  snapshots (cell_msgs n CELLS vs ++ msg_round n t :: ms') = (n, t) :: snapshots ms'.
Proof.
  rewrite snapshots_app, (snapshots_cells _ _ (cell_msgs_is_cell _ _ _)).
  change (msg_round n t :: ms') with ([msg_round n t] ++ ms')%list.
  now rewrite snapshots_app, snapshots_msg_round.
Qed.

Lemma in_round_log (msg : message) n vs t ms' :
  (forall n' a b c, msg <> MsgRound n' a b c) ->
  (forall n' rr bs v, msg <> MsgCell n' rr bs v) ->
  In msg (cell_msgs n CELLS vs ++ msg_round n t :: ms') <-> In msg ms'.
Proof.
  intros Hr Hc. rewrite in_app_iff. simpl. split; [|auto].
  intros [H | [H | H]]; [| |exact H].
  - apply (not_in_cells _ _ _ (cell_msgs_is_cell _ _ _)) in H.
    destruct msg as [| | | | |k rr bs v| | |]; try contradiction. now elim (Hc k rr bs v).
  - unfold msg_round in H. symmetry in H. now elim (Hr _ _ _ _ H).
Qed.

Lemma last_snapshot_cons s snaps :
  last_snapshot (s :: snaps) = match snaps with [] => s | _ => last_snapshot snaps end.
Proof. destruct snaps; reflexivity. Qed.

(** What the log of the loop says about the verdicts. *)
Lemma loop_log_verdicts rounds : forall round_num t ms fin,
  loop_log rounds round_num t ms fin ->
  Forall (fun s => all_stable (snd s) = false) (removelast (snapshots ms)) /\
  (In MsgSteady ms <->
   snapshots ms <> [] /\ all_stable (snd (last_snapshot (snapshots ms))) = true) /\
  ~ In MsgNotReached ms /\
  (length (snapshots ms) <= length rounds)%nat /\
  match fin with
  | None =>
      snapshots ms = [] \/
      (all_stable (snd (last_snapshot (snapshots ms))) = false /\
       (length (snapshots ms) < length rounds)%nat)
  | Some res =>
      (rounds = [] /\ res = (round_num, t)) \/
      (snapshots ms <> [] /\
       res = (Some (fst (last_snapshot (snapshots ms))), snd (last_snapshot (snapshots ms))) /\
       (all_stable (snd (last_snapshot (snapshots ms))) = true \/
        length (snapshots ms) = length rounds))
  end.
Proof.
  induction rounds as [|n0 rest IH]; intros round_num t ms fin H; cbn [loop_log] in H.
  - destruct H as [-> ->]. simpl.
    split; [constructor|]. split; [split; [intros [] | intros [[] _]; reflexivity]|].
    split; [intros []|]. split; [lia|]. now left.
  - destruct H as [[-> Hcells] | (vs & ms' & Hlen & -> & Hrest)].
    + rewrite (snapshots_cells _ _ Hcells). simpl.
      split; [constructor|].
      split; [split; [|intros [[] _]; reflexivity]|].
      { intros Hin. apply (not_in_cells _ _ _ Hcells) in Hin. destruct Hin. }
      split; [intros Hin; apply (not_in_cells _ _ _ Hcells) in Hin; destruct Hin|].
      split; [lia|]. now left.
    + rewrite snapshots_round.
      rewrite (in_round_log MsgSteady) by discriminate.
      rewrite (in_round_log MsgNotReached) by discriminate.
      set (t' := track_all CELLS vs t) in *.
      destruct (all_stable t') eqn:Es.
      * destruct Hrest as [-> ->]. simpl.
        split; [constructor|].
        split; [split; [intros _; split; [discriminate | exact Es] | intros _; now left]|].
        split; [intros [[=]|[]]|]. split; [lia|].
        right. split; [discriminate|]. split; [reflexivity | now left].
      * specialize (IH _ _ _ _ Hrest).
        destruct IH as (Hun & Hst & Hnr & Hle & Hfin).
        rewrite last_snapshot_cons.
        destruct (snapshots ms') as [|s snaps'] eqn:Esn.
        -- (* no later round completed *)
           split; [constructor|].
           split; [rewrite Hst; split; [intros [[] _]; reflexivity|];
                   intros [_ Hs]; simpl in Hs; congruence|].
           split; [exact Hnr|]. split; [simpl; lia|].
           destruct fin as [res|].
           ++ destruct Hfin as [[-> ->] | [[] _]]; [|reflexivity].
              right. split; [discriminate|]. split; [reflexivity | now right].
           ++ right. split; [exact Es|]. simpl.
              destruct rest; [|simpl; lia].
              cbn [loop_log] in Hrest. destruct Hrest as [_ [=]].
        -- (* some later round completed *)
           split.
           { change (removelast ((n0, t') :: s :: snaps'))
               with ((n0, t') :: removelast (s :: snaps')).
             constructor; [exact Es | exact Hun]. }
           split.
           { rewrite Hst. split; intros [_ Hs]; (split; [discriminate | exact Hs]). }
           split; [exact Hnr|]. split; [simpl in *; lia|].
           destruct fin as [res|].
           ++ destruct Hfin as [[-> _] | (_ & -> & Hend)].
              { cbn [loop_log] in Hrest. destruct Hrest as [-> _]. discriminate Esn. }
              right. split; [discriminate|]. split; [reflexivity|].
              destruct Hend as [Hs | Hl]; [now left | right; simpl in *; lia].
           ++ destruct Hfin as [[=] | [Hs Hl]].
              right. split; [exact Hs | simpl in *; lia].
Qed.

Lemma firstn_series_all m t : series_len m t -> firstn_series m t = t.
Proof.
  destruct t as [a b c]. intros (Ha & Hb & Hc). simpl in *. unfold firstn_series. simpl.
  rewrite <- Ha at 1. rewrite <- Hb at 1. rewrite <- Hc at 1.
  now rewrite !firstn_all.
Qed.

Lemma firstn_series_firstn m k t :
  (m <= k)%nat -> firstn_series m (firstn_series k t) = firstn_series m t.
Proof.
  intros H. unfold firstn_series. simpl.
  rewrite !firstn_firstn. now replace (Nat.min m k) with m by lia.
Qed.

Lemma firstn_snoc {A} (l : list A) x : firstn (length l) (l ++ [x]) = l.
Proof.
  rewrite firstn_app, Nat.sub_diag, firstn_all. simpl. apply app_nil_r.
Qed.

(** The snapshots logged by the loop are the successive prefixes of the
    final series: one point per round is appended to each series, and
    nothing is removed or moved. *)
Lemma loop_log_snapshots j : forall m round_num t ms fin,
  series_len m t ->
  loop_log (map Z.of_nat (seq (S m) j)) round_num t ms fin ->
  exists k final,
    (k <= j)%nat /\ series_len (m + k) final /\ firstn_series m final = t /\
    snapshots ms = map (fun i => (Z.of_nat i, firstn_series i final)) (seq (S m) k).
Proof.
  induction j as [|j IH]; intros m round_num t ms fin Ht H; cbn [seq map loop_log] in H.
  - destruct H as [-> _]. exists 0%nat, t.
    split; [lia|]. split; [now rewrite Nat.add_0_r|].
    split; [now apply firstn_series_all | reflexivity].
  - destruct H as [[_ Hcells] | (vs & ms' & Hlen & -> & Hrest)].
    + exists 0%nat, t.
      split; [lia|]. split; [now rewrite Nat.add_0_r|].
      split; [now apply firstn_series_all|].
      now rewrite (snapshots_cells _ _ Hcells).
    + rewrite snapshots_round.
      rewrite (track_all_cells vs t Hlen) in *.
      set (t' := {| rr0_4k_iops := rr0_4k_iops t ++ [nth 54 vs Binary64.zero];
                    rr65_64k_iops := rr65_64k_iops t ++ [nth 18 vs Binary64.zero];
                    rr100_1024k_iops := rr100_1024k_iops t ++ [nth 0 vs Binary64.zero] |}) in *.
      assert (Ht' : series_len (S m) t').
      { destruct Ht as (Ha & Hb & Hc). unfold series_len, t'. simpl.
        rewrite !length_app. simpl. lia. }
      assert (Hpre : firstn_series m t' = t).
      { destruct t as [a b c]. destruct Ht as (Ha & Hb & Hc). simpl in *.
        unfold firstn_series, t'. simpl. subst m.
        rewrite firstn_snoc.
        rewrite <- Hb at 1. rewrite firstn_snoc.
        rewrite <- Hc at 1. rewrite firstn_snoc. reflexivity. }
      destruct (all_stable t') eqn:Es.
      * destruct Hrest as [-> _]. exists 1%nat, t'.
        split; [lia|]. split; [now rewrite Nat.add_1_r|]. split; [exact Hpre|].
        simpl. now rewrite (firstn_series_all _ _ Ht').
      * destruct (IH (S m) _ _ _ _ Ht' Hrest) as (k & final & Hk & Hlenf & Hfirst & Hsnaps).
        exists (S k), final.
        split; [lia|]. split; [now rewrite Nat.add_succ_r|].
        split; [rewrite <- Hpre, <- Hfirst; symmetry; apply firstn_series_firstn; lia|].
        cbn [seq map]. now rewrite Hfirst, Hsnaps.
Qed.

Lemma range_1_26 : range 1 26 = map Z.of_nat (seq 1 25).
Proof. reflexivity. Qed.

Lemma range_1_26_nodup : NoDup (range 1 26).
Proof.
  rewrite range_1_26. apply NoDup_map_NoDup_ForallPairs; [|apply seq_NoDup].
  intros x y _ _. apply Nat2Z.inj.
Qed.

(** ** Reading the log of a session *)

Lemma snapshots_final_report fin : snapshots (final_report fin) = [].
Proof.
  destruct fin as [[[n|] t]|]; simpl; auto. destruct (n =? 25)%Z; reflexivity.
Qed.

Lemma cells_of_round_final_report n fin : cells_of_round n (final_report fin) = [].
Proof.
  destruct fin as [[[n'|] t]|]; simpl; auto. destruct (n' =? 25)%Z; reflexivity.
Qed.

Lemma session_snapshots setup ms fin :
  Forall is_setup setup -> snapshots (setup ++ ms ++ final_report fin) = snapshots ms.
Proof.
  intros H. rewrite !snapshots_app, (snapshots_setup _ H), snapshots_final_report.
  simpl. apply app_nil_r.
Qed.

Lemma session_cells n setup ms fin :
  Forall is_setup setup ->
  cells_of_round n (setup ++ ms ++ final_report fin) = cells_of_round n ms.
Proof.
  intros H.
  rewrite !cells_of_round_app, (cells_of_round_setup _ _ H), cells_of_round_final_report.
  simpl. apply app_nil_r.
Qed.

Lemma in_session_log (msg : message) setup ms fin :
  Forall is_setup setup -> ~ is_setup msg ->
  In msg (setup ++ ms ++ final_report fin) <-> In msg ms \/ In msg (final_report fin).
Proof.
  intros Hs Hm. rewrite !in_app_iff. split; [|tauto].
  intros [H|H]; [|exact H]. exfalso. apply Hm.
  rewrite Forall_forall in Hs. now apply Hs.
Qed.

Lemma last_snapshot_seq (f : nat -> Z * tracking) k :
  last_snapshot (map f (seq 1 (S k))) = f (S k).
Proof.
  unfold last_snapshot. rewrite seq_S, map_app. simpl. apply last_last.
Qed.

(** The rounds of a session: the snapshots are numbered 1, 2, ..., and
    each holds the first points of one and the same final series. *)
Lemma session_log_rounds ok msgs :
  session_log ok msgs ->
  exists k final,
    (k <= 25)%nat /\ series_len k final /\
    snapshots msgs = map (fun i => (Z.of_nat i, firstn_series i final)) (seq 1 k).
Proof.
  intros (setup & ms & fin & Hsetup & Hloop & -> & _).
  rewrite (session_snapshots _ _ _ Hsetup).
  destruct Hloop as [[-> _]|Hloop].
  - exists 0%nat, no_series. repeat split; auto. lia.
  - rewrite range_1_26 in Hloop.
    destruct (loop_log_snapshots 25 0 None no_series ms fin) as (k & final & Hk & Hlen & _ & Hs);
      [repeat split | exact Hloop |].
    exists k, final. auto.
Qed.

(** The verdicts of a session, read from its log. *)
Lemma session_log_verdicts ok msgs :
  session_log ok msgs ->
  Forall (fun s => all_stable (snd s) = false) (removelast (snapshots msgs)) /\
  (In MsgSteady msgs <->
   snapshots msgs <> [] /\ all_stable (snd (last_snapshot (snapshots msgs))) = true) /\
  (In MsgNotReached msgs <-> length (snapshots msgs) = 25%nat) /\
  (ok = true <->
   snapshots msgs <> [] /\
   (all_stable (snd (last_snapshot (snapshots msgs))) = true \/
    length (snapshots msgs) = 25%nat)).
Proof.
  intros Hlog.
  destruct (session_log_rounds _ _ Hlog) as (k & final & Hk & Hlen & Hsnaps).
  destruct Hlog as (setup & ms & fin & Hsetup & Hloop & -> & Hok).
  rewrite (session_snapshots _ _ _ Hsetup) in *.
  rewrite !(in_session_log _ _ _ _ Hsetup) by (simpl; tauto).
  destruct Hloop as [[-> ->]|Hloop].
  { simpl. split; [constructor|].
    split; [split; [intros [[]|[]] | intros [H _]; now elim H]|].
    split; [split; [intros [[]|[]] | discriminate]|].
    rewrite Hok. split; [intros (n & t & [=]) | intros [H _]; now elim H]. }
  destruct (loop_log_verdicts _ _ _ _ _ Hloop) as (Hpre & Hsteady & Hnot & Hle & Hfin).
  change (length (range 1 26)) with 25%nat in *.
  split; [exact Hpre|].
  assert (Hnum : snapshots ms <> [] ->
                 fst (last_snapshot (snapshots ms)) = Z.of_nat (length (snapshots ms))).
  { rewrite Hsnaps. destruct k as [|k]; [intros H; now elim H|]. intros _.
    rewrite last_snapshot_seq, length_map, length_seq. reflexivity. }
  destruct fin as [res|].
  - destruct Hfin as [[[=] _]|(Hne & -> & Hwhy)].
    specialize (Hnum Hne). simpl final_report. rewrite Hnum.
    assert (Hrep : In MsgNotReached
                     (if (Z.of_nat (length (snapshots ms)) =? 25)%Z then [MsgNotReached] else [])
                   <-> length (snapshots ms) = 25%nat).
    { destruct (Z.of_nat (length (snapshots ms)) =? 25)%Z eqn:E.
      - apply Z.eqb_eq in E. split; [lia | simpl; auto].
      - apply Z.eqb_neq in E. split; [intros [] | lia]. }
    split; [|split].
    + rewrite <- Hsteady. split; [intros [H|H]; [exact H|] | auto].
      destruct (Z.of_nat (length (snapshots ms)) =? 25)%Z; simpl in H;
        [destruct H as [[=]|[]] | destruct H].
    + rewrite <- Hrep. split; [intros [H|H]; [now elim Hnot | exact H] | auto].
    + rewrite Hok. split; [auto | eauto].
  - simpl final_report.
    split; [|split].
    + rewrite <- Hsteady. split; [intros [H|[]]; exact H | auto].
    + split; [intros [H|[]]; now elim Hnot|].
      intros H25. destruct Hfin as [H0|[_ Hlt]]; [rewrite H0 in H25; discriminate | lia].
    + rewrite Hok. split; [intros (n & t & [=])|].
      intros [Hne [Hst|H25]]; destruct Hfin as [H0|[Hun Hlt]];
        try (now elim Hne); [congruence | lia].
Qed.

(** The cells of every completed round of a session. *)
Lemma session_log_cells ok msgs n :
  session_log ok msgs -> In n (map fst (snapshots msgs)) -> cells_of_round n msgs = CELLS.
Proof.
  intros (setup & ms & fin & Hsetup & Hloop & -> & _).
  rewrite (session_snapshots _ _ _ Hsetup), (session_cells _ _ _ _ Hsetup).
  destruct Hloop as [[-> _]|Hloop]; [intros []|].
  intros Hn. eapply loop_log_cells; [exact Hloop | apply range_1_26_nodup | exact Hn].
Qed.

(** * Computations that return *)

Section Returns.

Context {W : Type} {host : Host W} {libs : Libs}.

Lemma bind_ok {A B} (m : M W A) (f : A -> M W B) s b s' :
  bind m f s = (Ok b, s') -> exists a s1, m s = (Ok a, s1) /\ f a s1 = (Ok b, s').
Proof.
  unfold bind. destruct (m s) as [[a|c|e] s1]; intros H; try discriminate. eauto.
Qed.

Lemma pure_ok {A} (r : result A) (s s' : state W) a :
  pure r s = (Ok a, s') -> r = Ok a /\ s' = s.
Proof. unfold pure. intros [= -> <-]. auto. Qed.

Lemma ret_ok {A} (a b : A) (s s' : state W) : ret a s = (Ok b, s') -> b = a /\ s' = s.
Proof. unfold ret. intros [= -> <-]. auto. Qed.

Lemma log_returns msg (s s' : state W) a :
  log msg s = (Ok a, s') -> trace s' = Log msg :: trace s.
Proof. unfold log. intros [= _ <-]. reflexivity. Qed.

Lemma attempt_ok {R} req (f : W -> option R * W) failure (s s' : state W) (v : R) :
  aborted failure -> attempt req f failure s = (Ok v, s') ->
  trace s' = Call req true :: trace s /\ fst (f (world s)) = Some v.
Proof.
  unfold attempt. intros Hab. destruct (f (world s)) as [[v'|] w']; simpl.
  - intros [= <- <-]. auto.
  - destruct failure; simpl in Hab; try contradiction; discriminate.
Qed.

Lemma attempt_world {R} req (f : W -> option R * W) failure (s s' : state W) (v : R) :
  aborted failure -> attempt req f failure s = (Ok v, s') -> world s' = snd (f (world s)).
Proof.
  unfold attempt. intros Hab. destruct (f (world s)) as [[v'|] w']; simpl.
  - intros [= <- <-]. reflexivity.
  - destruct failure; simpl in Hab; try contradiction; discriminate.
Qed.

(** A loop that returns has kept every invariant its body keeps. *)
Lemma for_each_ok {A St} (R : list A -> St -> Prop) (body : A -> St -> M W St) :
  (forall a st s st' s' done, R done st -> body a st s = (Ok st', s') -> R (done ++ [a]) st') ->
  forall l done st s st' s',
    R done st -> for_each l body st s = (Ok st', s') -> R (done ++ l) st'.
Proof.
  intros Hbody. induction l as [|a l IH]; intros done st s st' s' HR H; simpl in H.
  - injection H as <- _. now rewrite app_nil_r.
  - apply bind_ok in H. destruct H as (st1 & s1 & H1 & H2).
    change (a :: l) with ([a] ++ l)%list. rewrite app_assoc.
    eapply IH; [|exact H2]. eapply Hbody; eauto.
Qed.

(** What a wrapper that returns has added to the trace. *)
Lemma returned_grown {A} (P : event -> Prop) (m : M W A) (s s' : state W) a :
  inv W (grown P (trace s)) (grown P (trace s)) m ->
  m s = (Ok a, s') -> grown P (trace s) (trace s').
Proof.
  intros Hinv H. specialize (Hinv s (grown_refl _ _)). rewrite H in Hinv. exact Hinv.
Qed.

Lemma quiet_fs req ok : kind_of req = KFs -> quiet (Call req ok).
Proof. destruct req; simpl; intros H; try discriminate H; exact I. Qed.

Lemma create_dir_grown dirname (s s' : state W) a :
  create_dir dirname s = (Ok a, s') -> grown quiet (trace s) (trace s').
Proof.
  apply returned_grown. apply create_dir_inv.
  intros req H. apply grown_admits. intros ok. now apply quiet_fs.
Qed.

Lemma save_stdout_stderr_grown dirname result (s s' : state W) a :
  save_stdout_stderr dirname result s = (Ok a, s') -> grown quiet (trace s) (trace s').
Proof.
  apply returned_grown. apply save_stdout_stderr_inv.
  intros req H. apply grown_admits. intros ok. now apply quiet_fs.
Qed.

(** When [run_and_save_fio] returns, the value returned is the parse of
    what was read from [output.json], without its trailing blanks. *)
Lemma run_and_save_fio_returns dirname job (s s' : state W) v :
  run_and_save_fio dirname job s = (Ok v, s') ->
  exists w raw later earlier,
    fst (file_read (path_join dirname "output.json") w) = Some raw /\
    json_loads (rstrip raw) = Some v /\
    trace s' =
      (Call (Loads (rstrip raw)) true
       :: Call (ReadFile (path_join dirname "output.json")) true
       :: later
       ++ Call (Run ["/usr/bin/sudo"; "/usr/bin/fio"; "--output-format=json+";
                     "--output=" ++ path_join dirname "output.json";
                     path_join dirname "job.fio"]%string) true
       :: Call (WriteFile (path_join dirname "job.fio") job) true
       :: earlier ++ trace s)%list /\
    Forall quiet later /\ Forall quiet earlier.
Proof.
  intros H. unfold run_and_save_fio in H.
  apply bind_ok in H. destruct H as (a1 & s1 & H1 & H).
  apply bind_ok in H. destruct H as (a2 & s2 & H2 & H).
  apply bind_ok in H. destruct H as (result & s3 & H3 & H).
  apply bind_ok in H. destruct H as (a4 & s4 & H4 & H).
  apply bind_ok in H. destruct H as (data & s5 & H5 & H).
  apply create_dir_grown in H1. destruct H1 as (earlier & E1 & Hearlier).
  apply attempt_ok in H2; [|exact I]. destruct H2 as [E2 _].
  apply attempt_ok in H3; [|exact I]. destruct H3 as [E3 _].
  apply save_stdout_stderr_grown in H4. destruct H4 as (later & E4 & Hlater).
  unfold read_file in H5. apply bind_ok in H5. destruct H5 as (raw & s5' & H5 & Hret).
  injection Hret as <- <-.
  apply attempt_ok in H5; [|exact I]. destruct H5 as [E5 Hraw].
  unfold attempt_pure in H.
  apply attempt_ok in H; [|exact I]. destruct H as [E6 Hload]. simpl in Hload.
  exists (world s4), raw, later, earlier.
  rewrite E6, E5, E4, E3, E2, E1. auto 10.
Qed.

End Returns.

(** * Progress on a machine that cooperates *)

Section Progress.

Context {W : Type} {host : Host W} {libs : Libs}.

Lemma succeeds_ret {A} (a : A) (Q : A -> Prop) : Q a -> succeeds (W := W) (ret a) Q.
Proof. intros H s. exists a, s. split; [reflexivity | exact H]. Qed.

Lemma succeeds_bind {A B} (m : M W A) (f : A -> M W B) (Q : A -> Prop) (R : B -> Prop) :
  succeeds m Q -> (forall a, Q a -> succeeds (f a) R) -> succeeds (bind m f) R.
Proof.
  intros Hm Hf s. destruct (Hm s) as (a & s1 & E & Ha).
  destruct (Hf a Ha s1) as (b & s2 & E' & Hb).
  exists b, s2. unfold bind. rewrite E. auto.
Qed.

Lemma succeeds_weaken {A} (m : M W A) (Q Q' : A -> Prop) :
  succeeds m Q -> (forall a, Q a -> Q' a) -> succeeds m Q'.
Proof.
  intros Hm HQ s. destruct (Hm s) as (a & s1 & E & Ha). exists a, s1. auto.
Qed.

Lemma succeeds_log msg : succeeds (W := W) (log msg) any.
Proof. intros s. eexists _, _. split; [reflexivity | exact I]. Qed.

Lemma succeeds_pure {A} (r : result A) (a : A) (Q : A -> Prop) :
  r = Ok a -> Q a -> succeeds (W := W) (pure r) Q.
Proof. intros -> H s. exists a, s. split; [reflexivity | exact H]. Qed.

Lemma succeeds_attempt {R} req (f : W -> option R * W) failure (Q : R -> Prop) :
  (forall w, exists v, fst (f w) = Some v /\ Q v) -> succeeds (attempt req f failure) Q.
Proof.
  intros Hf s. destruct (Hf (world s)) as (v & E & Hv).
  unfold attempt. destruct (f (world s)) as [r w']. simpl in E. subst r.
  eexists _, _. split; [reflexivity | exact Hv].
Qed.

Lemma succeeds_for_each {A St} (l : list A) (body : A -> St -> M W St) :
  (forall a st, succeeds (body a st) any) -> forall st, succeeds (for_each l body st) any.
Proof.
  intros Hbody. induction l as [|a l IH]; intros st; cbn [for_each].
  - now apply succeeds_ret.
  - eapply succeeds_bind; [apply Hbody | intros st' _; apply IH].
Qed.

Lemma not_none {A} (o : option A) : o <> None -> exists v, o = Some v /\ any v.
Proof. destruct o as [v|]; [intros _; exists v; split; [reflexivity | exact I] | congruence]. Qed.

Hypothesis coop : cooperative host libs.

Lemma run_succeeds cmd : succeeds (run cmd) any.
Proof.
  apply succeeds_attempt. intros w. apply not_none. apply (proj1 coop).
Qed.

Lemma save_file_succeeds dirname filename data : succeeds (save_file dirname filename data) any.
Proof.
  apply succeeds_attempt. intros w. apply not_none. apply (proj1 (proj2 coop)).
Qed.

Lemma create_dir_succeeds dirname : succeeds (create_dir dirname) any.
Proof.
  intros s. unfold create_dir, bind, query.
  destruct (os_path_exists dirname (world s)); cbn [negb].
  - exists tt, s. split; [reflexivity | exact I].
  - apply succeeds_attempt. intros w. apply not_none.
    apply (proj1 (proj2 (proj2 (proj2 coop)))).
Qed.

Lemma save_stdout_stderr_succeeds dirname result :
  succeeds (save_stdout_stderr dirname result) any.
Proof.
  unfold save_stdout_stderr.
  eapply succeeds_bind; [apply create_dir_succeeds|]. intros _ _.
  eapply succeeds_bind.
  - destruct (negb _); [apply save_file_succeeds | now apply succeeds_ret].
  - intros _ _. destruct (negb _); [apply save_file_succeeds | now apply succeeds_ret].
Qed.

(** What [read_file] returns was read from a file. *)
Lemma read_file_succeeds dirname filename :
  succeeds (read_file dirname filename)
    (fun data => exists path w raw, fst (file_read path w) = Some raw /\ data = rstrip raw).
Proof.
  unfold read_file.
  apply (succeeds_bind _ _
           (fun raw => exists w, fst (file_read (path_join dirname filename) w) = Some raw)).
  - apply succeeds_attempt. intros w.
    pose proof (proj1 (proj2 (proj2 coop)) (path_join dirname filename) w) as H.
    destruct (fst (file_read (path_join dirname filename) w)) as [raw|] eqn:E; [|congruence].
    exists raw. split; [reflexivity|]. exists w. exact E.
  - intros raw (w & E). apply succeeds_ret. eauto.
Qed.

Lemma render_succeeds template kwargs : succeeds (W := W) (render template kwargs) any.
Proof.
  apply succeeds_attempt. intros w. apply not_none.
  apply (proj1 (proj2 (proj2 (proj2 (proj2 coop))))).
Qed.

(** The report returned by [run_and_save_fio] has the two counters. *)
Lemma run_and_save_fio_succeeds dirname job :
  succeeds (run_and_save_fio dirname job)
    (fun fio_result =>
       exists rd wr,
         counter fio_result "read" = Ok rd /\ counter fio_result "write" = Ok wr).
Proof.
  unfold run_and_save_fio.
  eapply succeeds_bind; [apply create_dir_succeeds|]. intros _ _.
  eapply succeeds_bind; [apply save_file_succeeds|]. intros _ _.
  eapply succeeds_bind; [apply run_succeeds|]. intros result _.
  eapply succeeds_bind; [apply save_stdout_stderr_succeeds|]. intros _ _.
  eapply succeeds_bind; [apply read_file_succeeds|]. intros data (path & w & raw & E & ->).
  destruct (proj2 (proj2 (proj2 (proj2 (proj2 coop)))) path w raw E)
    as (fio_result & rd & wr & Hload & Hrd & Hwr).
  apply succeeds_attempt. intros w'. exists fio_result. simpl. eauto.
Qed.

Lemma counter_steps fio_result direction v :
  counter fio_result direction = Ok v ->
  exists job0,
    rbind (getitem fio_result "jobs") getitem0 = Ok job0 /\
    rbind (rbind (getitem job0 direction) (fun r => getitem r "iops")) as_number = Ok v.
Proof.
  unfold counter. intros H.
  destruct (rbind (getitem fio_result "jobs") getitem0) as [job0| |]; try discriminate H.
  cbn [rbind] in H. exists job0. split; [reflexivity|].
  destruct (rbind (getitem job0 direction) (fun r => getitem r "iops")) as [x| |];
    try discriminate H.
  exact H.
Qed.

Lemma iops_cell_succeeds args queue_depth thread_count seed size runtime n rr bs t :
  succeeds (iops_cell args queue_depth thread_count seed size runtime n rr bs t) any.
Proof.
  unfold iops_cell.
  eapply succeeds_bind; [apply run_succeeds|]. intros smart _.
  eapply succeeds_bind; [apply save_stdout_stderr_succeeds|]. intros _ _.
  eapply succeeds_bind; [apply render_succeeds|]. intros job _.
  eapply succeeds_bind; [apply run_and_save_fio_succeeds|].
  intros fio_result (rd & wr & Hrd & Hwr).
  apply counter_steps in Hrd, Hwr.
  destruct Hrd as (job0 & Hjob & Hrd). destruct Hwr as (job0' & Hjob' & Hwr).
  eapply succeeds_bind; [apply run_succeeds|]. intros smart' _.
  eapply succeeds_bind; [apply save_stdout_stderr_succeeds|]. intros _ _.
  eapply succeeds_bind; [apply (succeeds_pure _ job0 (eq job0)); [exact Hjob | reflexivity]|].
  intros ? <-.
  eapply succeeds_bind; [apply (succeeds_pure _ rd any); [exact Hrd | exact I]|].
  intros read_iops _.
  eapply succeeds_bind; [apply (succeeds_pure _ job0' (eq job0')); [exact Hjob' | reflexivity]|].
  intros ? <-.
  eapply succeeds_bind; [apply (succeeds_pure _ wr any); [exact Hwr | exact I]|].
  intros write_iops _. cbv zeta.
  eapply succeeds_bind; [apply succeeds_log|]. intros _ _.
  destruct (_ && _); [now apply succeeds_ret|].
  destruct (_ && _); [now apply succeeds_ret|].
  destruct (_ && _); now apply succeeds_ret.
Qed.

(** On a machine that cooperates the loop returns, whatever the rounds
    left and the series so far. *)
Lemma iops_rounds_succeeds args queue_depth thread_count seed size runtime rounds :
  forall round_num t,
    succeeds (iops_rounds args queue_depth thread_count seed size runtime rounds round_num t)
      any.
Proof.
  induction rounds as [|n rest IH]; intros round_num t; cbn [iops_rounds].
  - now apply succeeds_ret.
  - eapply succeeds_bind.
    { apply succeeds_for_each. intros rr t1.
      apply succeeds_for_each. intros bs t2. apply iops_cell_succeeds. }
    intros t' _.
    eapply succeeds_bind; [apply succeeds_log|]. intros _ _.
    apply (succeeds_bind _ _ any).
    { intros s. rewrite all_steady_run. eexists _, _. split; [reflexivity | exact I]. }
    intros [|] _.
    + eapply succeeds_bind; [apply succeeds_log|]. intros _ _. now apply succeeds_ret.
    + apply IH.
Qed.

End Progress.

(** * The steady-state test on a window of mean zero *)







(** * The verdict and the position of the window *)



(** * The measurement loop of a session *)

Lemma reports_steady_In msgs : reports_steady msgs = true <-> In MsgSteady msgs.
Proof.
  unfold reports_steady. rewrite existsb_exists. split.
  - intros (msg & Hin & Hmsg). destruct msg; try discriminate. exact Hin.
  - intros H. exists MsgSteady. auto.
Qed.

Lemma reports_not_reached_In msgs : reports_not_reached msgs = true <-> In MsgNotReached msgs.
Proof.
  unfold reports_not_reached. rewrite existsb_exists. split.
  - intros (msg & Hin & Hmsg). destruct msg; try discriminate. exact Hin.
  - intros H. exists MsgNotReached. auto.
Qed.

Section Claims.

Context {W : Type} {host : Host W} {libs : Libs}.

(** On any machine, whether the session fails or not: at most 25 rounds
    are completed, numbered 1, 2, ...; every round that was followed by
    another one left the three series not all stable; convergence is
    reported exactly when the last completed round left all three
    stable; and the session ends normally exactly when its last
    completed round either left all three stable or was round 25. *)
Lemma session_rounds_and_verdicts (args : Args) (w : W) :
  let session := iops args (fresh w) in
  let msgs := messages (trace (snd session)) in
  let snaps := snapshots msgs in
  (length snaps <= 25)%nat /\
  map fst snaps = map Z.of_nat (seq 1 (length snaps)) /\
  Forall (fun s => all_stable (snd s) = false) (removelast snaps) /\
  (In MsgSteady msgs <->
   snaps <> [] /\ all_stable (snd (last_snapshot snaps)) = true) /\
  (is_ok (fst session) = true <->
   snaps <> [] /\
   (all_stable (snd (last_snapshot snaps)) = true \/ length snaps = 25%nat)).
Proof.
  intros session msgs snaps.
  pose proof (session_has_log args w) as Hlog. fold session msgs in Hlog.
  destruct (session_log_rounds _ _ Hlog) as (k & final & Hk & _ & Hsnaps).
  destruct (session_log_verdicts _ _ Hlog) as (Hpre & Hsteady & _ & Hok).
  fold snaps in Hsnaps, Hpre, Hsteady, Hok.
  assert (Hlen : length snaps = k) by now rewrite Hsnaps, length_map, length_seq.
  split; [lia|]. split; [|auto].
  rewrite Hlen, Hsnaps, map_map. apply map_ext. reflexivity.
Qed.

Lemma removelast_seq (f : nat -> Z * tracking) k :
  removelast (map f (seq 1 (S k))) = map f (seq 1 k).
Proof. rewrite seq_S, map_app. simpl. apply removelast_last. Qed.

(** C4: on a machine that cooperates, the loop over the rounds 1 to 25,
    entered from any state with empty series, returns: it does not raise
    and does not exit.  It returns the number [k] of its last round,
    between 1 and 25, and the final series, which have [k] points each.
    Every round from 1 to [k] was run in full: its 56 cells were logged
    in order, and then its snapshot, which holds the first points of the
    final series; no other round was run.  After a round [i] the loop
    goes on to round [i + 1] exactly when the three series were not all
    stable under the test with window size 5 and [i < 25]; so the last
    round is the first one that left all three stable, or round 25;
    and convergence is logged exactly when the last round left all three
    stable. *)
Theorem loop_runs_until_stable_or_round_25 (args : Args) (queue_depth thread_count seed : Z)
    (size runtime : string) (s : state W) :
  cooperative host libs ->
  exists (k : nat) (final : tracking) (new : list event) (s' : state W),
    iops_rounds args queue_depth thread_count seed size runtime (range 1 26) None no_series s
      = (Ok (Some (Z.of_nat k), final), s') /\
    trace s' = (new ++ trace s)%list /\
    (1 <= k <= 25)%nat /\
    series_len k final /\
    snapshots (messages new)
      = map (fun i => (Z.of_nat i, firstn_series i final)) (seq 1 k) /\
    (forall i, (1 <= i <= k)%nat -> cells_of_round (Z.of_nat i) (messages new) = CELLS) /\
    (forall i, (1 <= i <= k)%nat ->
       (In (Z.of_nat (S i)) (map fst (snapshots (messages new))) <->
        all_stable (firstn_series i final) = false /\ (i < 25)%nat)) /\
    (forall i, (1 <= i < k)%nat -> all_stable (firstn_series i final) = false) /\
    (all_stable final = true \/ k = 25%nat) /\
    (In MsgSteady (messages new) <-> all_stable final = true).
Proof.
  intros coop.
  destruct (iops_rounds_succeeds coop args queue_depth thread_count seed size runtime
              (range 1 26) None no_series s) as (res & s' & Hrun & _).
  pose proof (iops_rounds_spec args queue_depth thread_count seed size runtime
                (range 1 26) None no_series (trace s) s eq_refl) as Hspec.
  rewrite Hrun in Hspec. destruct Hspec as (new & Htrace & Hlog).
  destruct (loop_log_verdicts _ _ _ _ _ Hlog) as (Hpre & Hsteady & _ & _ & Hfin).
  rewrite range_1_26 in Hlog.
  destruct (loop_log_snapshots 25 0 None no_series _ _ ltac:(repeat split) Hlog)
    as (k & final & Hk & Hlen & _ & Hsnaps).
  rewrite <- range_1_26 in Hlog.
  simpl in Hlen.
  destruct Hfin as [[[=] _]|(Hne & -> & Hend)].
  rewrite Hsnaps in Hne, Hpre, Hsteady, Hend.
  destruct k as [|k]; [now elim Hne|].
  rewrite last_snapshot_seq in Hsteady, Hend. rewrite removelast_seq in Hpre.
  rewrite length_map, length_seq in Hend. cbn [fst snd] in Hsteady, Hend.
  rewrite (firstn_series_all _ _ Hlen) in Hsteady, Hend.
  change (length (range 1 26)) with 25%nat in Hend.
  assert (Hearlier : forall i, (1 <= i < S k)%nat -> all_stable (firstn_series i final) = false).
  { intros i Hi. rewrite Forall_forall in Hpre.
    apply (Hpre (Z.of_nat i, firstn_series i final)).
    apply in_map_iff. exists i. split; [reflexivity|]. apply in_seq. lia. }
  assert (Hrounds : forall n, In n (map fst (snapshots (messages new)))
                              <-> exists i, n = Z.of_nat i /\ (1 <= i <= S k)%nat).
  { intros n. rewrite Hsnaps, map_map. cbn [fst]. rewrite in_map_iff. split.
    - intros (i & <- & Hi). apply in_seq in Hi. exists i. split; [reflexivity | lia].
    - intros (i & -> & Hi). exists i. split; [reflexivity | apply in_seq; lia]. }
  exists (S k), final, new, s'.
  rewrite Hsnaps, last_snapshot_seq in Hrun. cbn [fst snd] in Hrun.
  rewrite (firstn_series_all _ _ Hlen) in Hrun.
  split; [exact Hrun|]. split; [exact Htrace|]. split; [lia|]. split; [exact Hlen|].
  split; [exact Hsnaps|]. split; [|split; [|split; [exact Hearlier|split]]].
  - intros i Hi. eapply loop_log_cells; [exact Hlog | apply range_1_26_nodup |].
    apply Hrounds. exists i. split; [reflexivity | exact Hi].
  - intros i Hi. rewrite Hrounds. split.
    + intros (j & Hj & Hjk). apply Nat2Z.inj in Hj. subst j.
      split; [apply Hearlier; lia | lia].
    + intros [Hun H25]. exists (S i). split; [reflexivity|].
      destruct (Nat.eq_dec i (S k)) as [->|Hneq]; [|lia].
      rewrite (firstn_series_all _ _ Hlen) in Hun.
      destruct Hend as [Hst|H]; [congruence | lia].
  - exact Hend.
  - rewrite Hsteady. split; [intros [_ H]; exact H | intros H; split; [discriminate | exact H]].
Qed.

(** C5: the snapshot logged after round [n] has exactly [n] points in
    each of the three series, and all snapshots are prefixes of one and
    the same final series: a round adds one point at the end of each
    series and changes nothing before it. *)
Theorem tracked_series_grow_one_point_per_round (args : Args) (w : W) :
  let snaps := snapshots (messages (trace (snd (iops args (fresh w))))) in
  Forall (fun s => series_len (Z.to_nat (fst s)) (snd s)) snaps /\
  exists final,
    series_len (length snaps) final /\
    snaps = map (fun i => (Z.of_nat i, firstn_series i final)) (seq 1 (length snaps)).
Proof.
  intros snaps.
  destruct (session_log_rounds _ _ (session_has_log args w)) as (k & final & Hk & Hfinal & Hsnaps).
  fold snaps in Hsnaps.
  assert (Hlen : length snaps = k) by now rewrite Hsnaps, length_map, length_seq.
  split.
  - rewrite Hsnaps. apply Forall_forall. intros s Hs.
    apply in_map_iff in Hs. destruct Hs as (i & <- & Hi). apply in_seq in Hi.
    simpl. rewrite Nat2Z.id.
    destruct Hfinal as (Ha & Hb & Hc). unfold series_len, firstn_series. simpl.
    rewrite !length_firstn. lia.
  - exists final. rewrite Hlen. auto.
Qed.

(** C6: in every completed round the cells were logged once each, in
    the order of the two nested loops: the seven mixes in the outer
    loop, the eight block sizes in the inner one; 56 cells, none twice. *)
Theorem every_round_runs_the_matrix (args : Args) (w : W) (n : Z) :
  let msgs := messages (trace (snd (iops args (fresh w)))) in
  In n (map fst (snapshots msgs)) ->
  cells_of_round n msgs = flat_map (fun rr => map (pair rr) BLOCK_SIZES) MIXES /\
  length (cells_of_round n msgs) = 56%nat /\
  NoDup (cells_of_round n msgs).
Proof.
  intros msgs Hn. subst msgs.
  rewrite (session_log_cells _ _ n (session_has_log args w) Hn).
  split; [apply cells_matrix|]. split; [apply cells_count | apply cells_nodup].
Qed.

(** C7: a cell that completes has logged, as its newest event, the
    blend [(rr/100) * read + (1 - rr/100) * write] of the two counters
    [jobs[0].read.iops] and [jobs[0].write.iops] of its own report: the
    document parsed from what was read from the [output.json] of the
    cell, the only document parsed in the cell.  The blend is computed
    in binary64, every operation rounded to nearest, and this value is
    what the tracked series receive. *)
Theorem cell_logs_blended_metric (args : Args) (queue_depth thread_count seed : Z)
    (size runtime : string) (n rr : Z) (bs : string) (t t' : tracking) (s s' : state W) :
  iops_cell args queue_depth thread_count seed size runtime n rr bs t s = (Ok t', s') ->
  exists w raw fio_result read_iops write_iops after before,
    fst (file_read (path_join (cell_dir args n rr bs "wdpc") "output.json") w) = Some raw /\
    json_loads (rstrip raw) = Some fio_result /\
    counter fio_result "read" = Ok read_iops /\
    counter fio_result "write" = Ok write_iops /\
    trace s' =
      (Log (MsgCell n rr bs
              (Binary64.add
                 (Binary64.mul (Binary64.div (Binary64.of_Z rr) (Binary64.of_Z 100)) read_iops)
                 (Binary64.mul
                    (Binary64.sub (Binary64.of_Z 1)
                       (Binary64.div (Binary64.of_Z rr) (Binary64.of_Z 100)))
                    write_iops)))
       :: after
       ++ Call (Loads (rstrip raw)) true
       :: Call (ReadFile (path_join (cell_dir args n rr bs "wdpc") "output.json")) true
       :: before ++ trace s)%list /\
    Forall quiet after /\ Forall is_call before /\
    t' = track rr bs (blend rr read_iops write_iops) t.
Proof.
  intros H. unfold iops_cell in H.
  apply bind_ok in H. destruct H as (smart & s1 & H1 & H).
  apply bind_ok in H. destruct H as (a2 & s2 & H2 & H).
  apply bind_ok in H. destruct H as (job & s3 & H3 & H).
  apply bind_ok in H. destruct H as (fio_result & s4 & H4 & H).
  apply bind_ok in H. destruct H as (smart' & s5 & H5 & H).
  apply bind_ok in H. destruct H as (a6 & s6 & H6 & H).
  apply bind_ok in H. destruct H as (job0 & s7 & H7 & H).
  apply bind_ok in H. destruct H as (rd & s8 & H8 & H).
  apply bind_ok in H. destruct H as (job0' & s9 & H9 & H).
  apply bind_ok in H. destruct H as (wr & s10 & H10 & H).
  apply bind_ok in H. destruct H as (a11 & s11 & H11 & H).
  apply attempt_ok in H1; [|exact I]. destruct H1 as [E1 _].
  apply save_stdout_stderr_grown in H2. destruct H2 as (new2 & E2 & Hnew2).
  unfold render, attempt_pure in H3.
  apply attempt_ok in H3; [|exact I]. destruct H3 as [E3 _].
  apply run_and_save_fio_returns in H4.
  destruct H4 as (w & raw & later & earlier & Hraw & Hload & E4 & Hlater & Hearlier).
  apply attempt_ok in H5; [|exact I]. destruct H5 as [E5 _].
  apply save_stdout_stderr_grown in H6. destruct H6 as (new6 & E6 & Hnew6).
  apply pure_ok in H7. destruct H7 as [Ejob0 ->].
  apply pure_ok in H8. destruct H8 as [Erd ->].
  apply pure_ok in H9. destruct H9 as [Ejob0' ->].
  apply pure_ok in H10. destruct H10 as [Ewr ->].
  apply log_returns in H11. cbv zeta in H11, H.
  fold (blend rr rd wr) in H11, H.
  assert (Hend : t' = track rr bs (blend rr rd wr) t /\ s' = s11).
  { unfold track. remember (blend rr rd wr) as v eqn:Ev. clear Ev H11.
    destruct ((rr =? 0)%Z && String.eqb bs "4k");
      [|destruct ((rr =? 65)%Z && String.eqb bs "64k");
        [|destruct ((rr =? 100)%Z && String.eqb bs "1024k")]];
      apply ret_ok in H; exact H. }
  destruct Hend as [Ht ->]. clear H.
  exists w, raw, fio_result, rd, wr.
  exists (new6 ++ [Call (Run ["/usr/bin/sudo"; "/usr/sbin/nvme"; "smart-log";
                             "--output-format=json"; dev args]%string) true])%list.
  lazymatch type of E1 with _ = ?e1 :: _ =>
  lazymatch type of E3 with _ = ?e3 :: _ =>
  lazymatch type of E4 with _ = (_ :: _ :: _ ++ ?e4a :: ?e4b :: _)%list =>
    exists (later ++ e4a :: e4b :: earlier ++ e3 :: new2 ++ [e1])%list
  end end end.
  split; [exact Hraw|]. split; [exact Hload|].
  split; [unfold counter; rewrite Ejob0; exact Erd|].
  split; [unfold counter; rewrite Ejob0'; exact Ewr|].
  split.
  { rewrite H11. fold (blend rr rd wr). f_equal.
    rewrite E6, E5, E4, E3, E2, E1.
    repeat (rewrite <- app_assoc; cbn [app]). reflexivity. }
  split.
  { apply Forall_app. split; [exact Hnew6 | repeat constructor]. }
  split.
  { repeat first [ apply Forall_app; split | apply Forall_cons | apply Forall_nil ];
      try exact I;
      try (eapply Forall_impl; [apply quiet_is_call | assumption]). }
  exact Ht.
Qed.

(** C8: a failed request is the last thing a session does: nothing is
    on the trace after it, the session did not end normally, and every
    request before it had succeeded. *)
Theorem collaborator_failure_is_fatal (args : Args) (w : W)
    (req : request) (after before : list event) :
  trace (snd (iops args (fresh w))) = (after ++ Call req false :: before)%list ->
  after = [] /\ aborted (fst (iops args (fresh w))) /\ Forall succeeded before.
Proof.
  intros Htr.
  assert (Hinv : inv W (Forall succeeded) (fun tr => Forall succeeded (tl tr)) (iops args)).
  { assert (Hreq : forall r, admits (Forall succeeded) (fun tr => Forall succeeded (tl tr)) r).
    { intros r tr Htr'. split; [constructor; [reflexivity | exact Htr'] | exact Htr']. }
    apply iops_inv; auto.
    - intros tr H. destruct tr; [constructor | now inversion H].
    - intros msg _ tr H. constructor; [exact I | exact H].
    - intros msg tr H. constructor; [exact I | exact H]. }
  specialize (Hinv (fresh w) (Forall_nil _)).
  destruct (iops args (fresh w)) as [r s']. simpl in *.
  assert (Hbad : forall pre, ~ Forall succeeded (pre ++ Call req false :: before)%list).
  { intros pre H. apply Forall_app in H. destruct H as [_ H]. inversion H as [|? ? Hc _].
    discriminate Hc. }
  rewrite Htr in Hinv.
  destruct r as [a|c|e]; [now elim (Hbad after)| |];
    (destruct after as [|e0 after]; [|now elim (Hbad after)]);
    simpl in Hinv; repeat split; auto.
Qed.

End Claims.

(** * The pre-conditioning job *)

Lemma wdpc_is_not_wipc : WDPC_IOPS_JOB_TPL <> WIPC_JOB_TPL.
Proof. intros H. apply String.eqb_eq in H. vm_compute in H. discriminate. Qed.

(** * Sessions on the simulated machine *)

(** C9: on a device that reports a physical size of 3072 bytes, tested
    in mode PTS-E, the program takes the physical size to be
    [int(3072 / 1024)] = 3 KiB and renders the pre-conditioning job for
    4 threads with [size=3k] and [io_size=1k], where 1 is
    [int(2 * 3 / 4)]: the threads write 4 KiB together, and not twice
    the physical size, 6 KiB. *)
Theorem wipc_volume_not_twice_physical_size :
  let session := sim_session 3072 constant_workload 0 (sim_args false "PTS-E") in
  let ns := JObj [("NameSpace", JStr "nvme0n1"); ("PhysicalSize", JInt 3072)]%string in
  let kwargs :=
    [("device", PStr "/dev/nvme0n1"); ("queue_depth", PInt 32);
     ("thread_count", PInt 4); ("seed", PInt 3735928559);
     ("size", PStr "3k"); ("io_size", PStr "1k")]%string in
  find_namespace (sim_nvme_list 3072) (basename "/dev/nvme0n1") = Ok (Some ns) /\
  rbind (rbind (getitem ns "PhysicalSize") (fun x => truediv x 1024)) py_int = Ok 3%Z /\
  rbind (int_truediv (2 * 3) 4) py_int = Ok 1%Z /\
  In (Call (Render WIPC_JOB_TPL kwargs) true) (trace (snd session)) /\
  ~ wipc_volume_is_twice 3 kwargs.
Proof.
  split; [reflexivity|]. split; [vm_compute; reflexivity|].
  split; [vm_compute; reflexivity|]. split.
  - vm_compute. repeat (first [left; reflexivity | right]).
  - intros (thread_count & io_size & Hthreads & _ & Htotal).
    vm_compute in Hthreads. injection Hthreads as <-. lia.
Qed.

(** The cells of round 1 in a session that completed round 1 and failed in
    round 2. *)
Lemma every_round_runs_the_matrix_witness :
  let msgs :=
    messages (trace (snd (sim_session 512000 constant_workload 58 (sim_args false "PTS-E")))) in
  cells_of_round 1 msgs = flat_map (fun rr => map (pair rr) BLOCK_SIZES) MIXES /\
  length (cells_of_round 1 msgs) = 56%nat /\
  NoDup (cells_of_round 1 msgs).
Proof.
  apply (every_round_runs_the_matrix (host := sim_host 58)
           (libs := sim_libs 512000 constant_workload) (sim_args false "PTS-E") 0%nat 1%Z).
  vm_compute. left. reflexivity.
Defined.

(** The cell (65, 64k) of round 1 with 1234.567 read and 89.1 write
    IOPS: the blend is 7332894174093928 * 2^-43, the float next above
    the exact sum of the two products. *)
Lemma cell_logs_blended_metric_witness :
  let workload (k : nat) := (Binary64.ratio 1234567 1000, Binary64.ratio 891 10) in
  let cell :=
    iops_cell (host := sim_host 1) (libs := sim_libs 512000 workload)
      (sim_args false "PTS-E") 32 4 3735928559 "500k" "1m" 1 65 "64k" no_series (fresh 0%nat) in
  let v := S754_finite false 7332894174093928 (-43) in
  exists w raw fio_result read_iops write_iops after before,
    fst (file_read (Host := sim_host 1)
           (path_join (cell_dir (sim_args false "PTS-E") 1 65 "64k" "wdpc") "output.json") w)
      = Some raw /\
    sim_json_loads 512000 workload raw = Some fio_result /\
    counter fio_result "read" = Ok read_iops /\
    counter fio_result "write" = Ok write_iops /\
    trace (snd cell) =
      (Log (MsgCell 1 65 "64k"
              (Binary64.add
                 (Binary64.mul (Binary64.div (Binary64.of_Z 65) (Binary64.of_Z 100)) read_iops)
                 (Binary64.mul
                    (Binary64.sub (Binary64.of_Z 1)
                       (Binary64.div (Binary64.of_Z 65) (Binary64.of_Z 100)))
                    write_iops)))
       :: after
       ++ Call (Loads raw) true
       :: Call (ReadFile
                  (path_join (cell_dir (sim_args false "PTS-E") 1 65 "64k" "wdpc")
                     "output.json")) true
       :: before ++ trace (fresh 0%nat))%list /\
    Forall quiet after /\ Forall is_call before /\
    track 65 "64k" v no_series = track 65 "64k" (blend 65 read_iops write_iops) no_series.
Proof.
  intros workload cell v.
  apply (cell_logs_blended_metric (host := sim_host 1) (libs := sim_libs 512000 workload)
           (sim_args false "PTS-E") 32 4 3735928559 "500k" "1m" 1 65 "64k" no_series
           (track 65 "64k" v no_series) (fresh 0%nat) (snd cell)).
  vm_compute. reflexivity.
Defined.

(** The loop on a machine where no request fails and every report has
    the counters 100 and 100. *)
Lemma loop_runs_until_stable_or_round_25_witness :
  exists (k : nat) (final : tracking) (new : list event) (s' : state nat),
    iops_rounds (host := reliable_host)
      (libs := report_libs (Binary64.of_Z 100, Binary64.of_Z 100))
      (sim_args false "PTS-E") 32 4 3735928559 "500k" "1m" (range 1 26) None no_series
      (fresh 0%nat)
      = (Ok (Some (Z.of_nat k), final), s') /\
    trace s' = (new ++ trace (fresh 0%nat))%list /\
    (1 <= k <= 25)%nat /\
    series_len k final /\
    snapshots (messages new)
      = map (fun i => (Z.of_nat i, firstn_series i final)) (seq 1 k) /\
    (forall i, (1 <= i <= k)%nat -> cells_of_round (Z.of_nat i) (messages new) = CELLS) /\
    (forall i, (1 <= i <= k)%nat ->
       (In (Z.of_nat (S i)) (map fst (snapshots (messages new))) <->
        all_stable (firstn_series i final) = false /\ (i < 25)%nat)) /\
    (forall i, (1 <= i < k)%nat -> all_stable (firstn_series i final) = false) /\
    (all_stable final = true \/ k = 25%nat) /\
    (In MsgSteady (messages new) <-> all_stable final = true).
Proof.
  apply (loop_runs_until_stable_or_round_25 (host := reliable_host)
           (libs := report_libs (Binary64.of_Z 100, Binary64.of_Z 100))
           (sim_args false "PTS-E") 32 4 3735928559 "500k" "1m" (fresh 0%nat)).
  unfold cooperative.
  split; [intros cmd w; simpl; discriminate|].
  split; [intros path data w; simpl; discriminate|].
  split; [intros path w; simpl; discriminate|].
  split; [intros dirname w; simpl; discriminate|].
  split; [intros template kwargs; simpl; discriminate|].
  intros path w raw _.
  exists (sim_fio_report (Binary64.of_Z 100, Binary64.of_Z 100)),
         (Binary64.of_Z 100), (Binary64.of_Z 100).
  split; [reflexivity|]. split; vm_compute; reflexivity.
Defined.

(** A session whose third fio run fails. *)
Lemma collaborator_failure_is_fatal_witness :
  let session := sim_session 512000 constant_workload 3 (sim_args false "PTS-E") in
  @nil event = [] /\ aborted (fst session) /\ Forall succeeded (tl (trace (snd session))).
Proof.
  intros session.
  apply (collaborator_failure_is_fatal (host := sim_host 3)
           (libs := sim_libs 512000 constant_workload) (sim_args false "PTS-E") 0%nat
           (Run ["/usr/bin/sudo"; "/usr/bin/fio"; "--output-format=json+";
                 "--output=out/round-1/rr-100/bs-64k/wdpc/output.json";
                 "out/round-1/rr-100/bs-64k/wdpc/job.fio"]%string)
           [] (tl (trace (snd session)))).
  vm_compute. reflexivity.
Defined.

(** C3: on a device whose counters jump for 20 rounds and are constant
    from round 21 on, the three series are first stable after round 25.
    The loop is left by [break] with [round_num = 25]; the session logs
    both "steady state reached" and "not reached in 25 rounds". *)
Theorem convergence_at_round_25_reports_not_reached :
  let session := sim_session 512000 late_workload 2000 (sim_args false "PTS-E") in
  let msgs := messages (trace (snd session)) in
  is_ok (fst session) = true /\
  length (snapshots msgs) = 25%nat /\
  all_stable (snd (last_snapshot (snapshots msgs))) = true /\
  In MsgSteady msgs /\ In MsgNotReached msgs.
Proof.
  intros session msgs.
  assert (E : is_ok (fst session) && (length (snapshots msgs) =? 25)%nat
              && all_stable (snd (last_snapshot (snapshots msgs)))
              && reports_steady msgs && reports_not_reached msgs = true)
    by (vm_compute; reflexivity).
  apply andb_prop in E; destruct E as (E & Hn).
  apply andb_prop in E; destruct E as (E & Hs).
  apply andb_prop in E; destruct E as (E & Hst).
  apply andb_prop in E; destruct E as (Hok & Hlen).
  apply Nat.eqb_eq in Hlen.
  apply reports_steady_In in Hs. apply reports_not_reached_In in Hn.
  exact (conj Hok (conj Hlen (conj Hst (conj Hs Hn)))).
Qed.

(** A session whose series never stabilise: 25 rounds, a normal end,
    the line of exhaustion and no line of convergence. *)
Example exhausted_session :
  let session := sim_session 512000 jumping_workload 2000 (sim_args false "PTS-E") in
  let msgs := messages (trace (snd session)) in
  is_ok (fst session) = true /\
  length (snapshots msgs) = 25%nat /\
  all_stable (snd (last_snapshot (snapshots msgs))) = false /\
  ~ In MsgSteady msgs /\ In MsgNotReached msgs.
Proof.
  intros session msgs.
  assert (E : is_ok (fst session) && (length (snapshots msgs) =? 25)%nat
              && negb (all_stable (snd (last_snapshot (snapshots msgs))))
              && negb (reports_steady msgs) && reports_not_reached msgs = true)
    by (vm_compute; reflexivity).
  apply andb_prop in E; destruct E as (E & Hn).
  apply andb_prop in E; destruct E as (E & Hs).
  apply andb_prop in E; destruct E as (E & Hst).
  apply andb_prop in E; destruct E as (Hok & Hlen).
  apply Nat.eqb_eq in Hlen. apply negb_true_iff in Hst, Hs.
  apply reports_not_reached_In in Hn.
  assert (Hs' : ~ In MsgSteady msgs).
  { intros H. apply reports_steady_In in H. rewrite H in Hs. discriminate Hs. }
  exact (conj Hok (conj Hlen (conj Hst (conj Hs' Hn)))).
Qed.

(** A session with constant counters: convergence after round 5, and no
    line of exhaustion. *)
Example converged_session :
  let session := sim_session 512000 constant_workload 2000 (sim_args false "PTS-E") in
  let msgs := messages (trace (snd session)) in
  is_ok (fst session) = true /\
  length (snapshots msgs) = 5%nat /\
  In MsgSteady msgs /\ ~ In MsgNotReached msgs.
Proof.
  intros session msgs.
  assert (E : is_ok (fst session) && (length (snapshots msgs) =? 5)%nat
              && reports_steady msgs && negb (reports_not_reached msgs) = true)
    by (vm_compute; reflexivity).
  apply andb_prop in E; destruct E as (E & Hn).
  apply andb_prop in E; destruct E as (E & Hs).
  apply andb_prop in E; destruct E as (Hok & Hlen).
  apply Nat.eqb_eq in Hlen. apply negb_true_iff in Hn.
  apply reports_steady_In in Hs.
  assert (Hn' : ~ In MsgNotReached msgs).
  { intros H. apply reports_not_reached_In in H. rewrite H in Hn. discriminate Hn. }
  exact (conj Hok (conj Hlen (conj Hs Hn'))).
Qed.

(** * More on the steady-state test *)











(** * More on the measurement loop *)

(** ** Which cells feed the tracked series *)

Lemma combine_nodup_nth {A B} (l : list A) : forall (vs : list B) c v i d d',
  NoDup l -> In (c, v) (combine l vs) -> (i < length l)%nat -> nth i l d = c ->
  v = nth i vs d'.
Proof.
  induction l as [|a l IH]; intros [|b vs] c v i d d' Hnd Hin Hi Hnth;
    simpl in *; try contradiction.
  apply NoDup_cons_iff in Hnd. destruct Hnd as [Hna Hnd'].
  destruct i as [|i].
  - destruct Hin as [E|Hin]; [now inversion E|].
    exfalso. apply Hna. rewrite Hnth. apply in_combine_l in Hin. exact Hin.
  - destruct Hin as [E|Hin].
    + exfalso. injection E as Ea Eb. apply Hna. rewrite Ea, <- Hnth. apply nth_In. lia.
    + apply (IH vs _ v i d d' Hnd' Hin); [lia | exact Hnth].
Qed.

Lemma in_cell_msgs n cells vs k rr bs v :
  In (MsgCell k rr bs v) (cell_msgs n cells vs) -> k = n /\ In ((rr, bs), v) (combine cells vs).
Proof.
  unfold cell_msgs. intros H. apply in_map_iff in H.
  destruct H as ([[rr' bs'] v'] & [= <- <- <- <-] & Hin). auto.
Qed.

Lemma no_cells_of_round n ms rr bs v :
  cells_of_round n ms = [] -> ~ In (MsgCell n rr bs v) ms.
Proof.
  induction ms as [|msg ms IH]; intros H Hin; [destruct Hin|].
  simpl in H. apply app_eq_nil in H. destruct H as [H0 H].
  destruct Hin as [->|Hin]; [|now apply IH].
  rewrite Z.eqb_refl in H0. discriminate H0.
Qed.

(** The metric of a tracked cell among the metrics [vs] of a round. *)
Lemma tracked_cell_metric vs rr bs v :
  length vs = length CELLS -> In ((rr, bs), v) (combine CELLS vs) ->
  ((rr, bs) = (0%Z, "4k"%string) -> v = nth 54 vs Binary64.zero) /\
  ((rr, bs) = (65%Z, "64k"%string) -> v = nth 18 vs Binary64.zero) /\
  ((rr, bs) = (100%Z, "1024k"%string) -> v = nth 0 vs Binary64.zero).
Proof.
  intros Hlen Hin. rewrite cells_count in Hlen.
  repeat split; intros E;
    apply (combine_nodup_nth CELLS vs (rr, bs) v _ (0%Z, EmptyString) Binary64.zero cells_nodup Hin);
    rewrite ?cells_count; try lia; rewrite E; vm_compute; reflexivity.
Qed.

Lemma loop_log_points rounds : forall round_num t ms fin n t' rr bs v,
  loop_log rounds round_num t ms fin -> NoDup rounds ->
  In (n, t') (snapshots ms) -> In (MsgCell n rr bs v) ms ->
  ((rr, bs) = (0%Z, "4k"%string) -> exists prev, rr0_4k_iops t' = (prev ++ [v])%list) /\
  ((rr, bs) = (65%Z, "64k"%string) -> exists prev, rr65_64k_iops t' = (prev ++ [v])%list) /\
  ((rr, bs) = (100%Z, "1024k"%string) -> exists prev, rr100_1024k_iops t' = (prev ++ [v])%list).
Proof.
  induction rounds as [|n0 rest IH]; intros round_num t ms fin n t' rr bs v H Hnd Hs Hc;
    simpl in H.
  - destruct H as [-> _]. destruct Hs.
  - inversion Hnd as [|? ? Hn0 Hnd']; subst.
    destruct H as [[_ Hcells] | (vs & ms' & Hlen & -> & Hrest)].
    + rewrite (snapshots_cells _ _ Hcells) in Hs. destruct Hs.
    + rewrite snapshots_round in Hs.
      assert (Hlater : forall k, In k (map fst (snapshots ms')) -> In k rest).
      { intros k Hk. destruct (all_stable (track_all CELLS vs t)).
        - destruct Hrest as [-> _]. destruct Hk.
        - eapply loop_log_snapshots_within; eauto. }
      assert (Hnone : forall rr' bs' v', ~ In (MsgCell n0 rr' bs' v') ms').
      { intros rr' bs' v'. destruct (all_stable (track_all CELLS vs t)).
        - destruct Hrest as [-> _]. intros [[=]|[]].
        - apply no_cells_of_round. eapply loop_log_cells_elsewhere; eauto. }
      apply in_app_or in Hc.
      destruct Hs as [[= <- <-]|Hs].
      * destruct Hc as [Hc|[Hc|Hc]]; [|discriminate Hc|now elim (Hnone rr bs v)].
        apply in_cell_msgs in Hc. destruct Hc as [_ Hc].
        destruct (tracked_cell_metric vs rr bs v Hlen Hc) as (H1 & H2 & H3).
        rewrite (track_all_cells vs t Hlen). simpl.
        split; [|split]; intros E.
        { exists (rr0_4k_iops t). now rewrite (H1 E). }
        { exists (rr65_64k_iops t). now rewrite (H2 E). }
        { exists (rr100_1024k_iops t). now rewrite (H3 E). }
      * assert (Hn : In n rest) by (apply Hlater; apply (in_map fst) in Hs; exact Hs).
        destruct Hc as [Hc|[Hc|Hc]]; [|discriminate Hc|].
        { apply in_cell_msgs in Hc. destruct Hc as [-> _]. now elim Hn0. }
        destruct (all_stable (track_all CELLS vs t)).
        { destruct Hrest as [-> _]. destruct Hs. }
        eapply IH; eauto.
Qed.

Section Loop.

Context {W : Type} {host : Host W} {libs : Libs}.

(** The point a completed round adds to a tracked series is the metric
    logged for the cell of that series in that round: the cell (0, 4k)
    for [rr0_4k_iops], (65, 64k) for [rr65_64k_iops] and (100, 1024k) for
    [rr100_1024k_iops]. *)
Theorem tracked_points_are_cell_metrics (args : Args) (w : W)
    (n : Z) (t : tracking) (rr : Z) (bs : string) (v : Binary64.float) :
  let msgs := messages (trace (snd (iops args (fresh w)))) in
  In (n, t) (snapshots msgs) -> In (MsgCell n rr bs v) msgs ->
  ((rr, bs) = (0%Z, "4k"%string) -> exists prev, rr0_4k_iops t = (prev ++ [v])%list) /\
  ((rr, bs) = (65%Z, "64k"%string) -> exists prev, rr65_64k_iops t = (prev ++ [v])%list) /\
  ((rr, bs) = (100%Z, "1024k"%string) -> exists prev, rr100_1024k_iops t = (prev ++ [v])%list).
Proof.
  intros msgs. subst msgs.
  destruct (session_has_log args w) as (setup & ms & fin & Hsetup & Hloop & -> & _).
  rewrite (session_snapshots _ _ _ Hsetup).
  rewrite (in_session_log _ _ _ _ Hsetup) by (simpl; tauto).
  intros Hs Hc.
  destruct Hloop as [[-> _]|Hloop]; [destruct Hs|].
  destruct Hc as [Hc|Hc].
  - eapply loop_log_points; eauto. apply range_1_26_nodup.
  - exfalso. destruct fin as [[[k|] t0]|]; simpl in Hc; try contradiction.
    destruct (k =? 25)%Z; simpl in Hc; [destruct Hc as [[=]|[]] | contradiction].
Qed.

(** The line "steady state was not reached in 25 rounds" is logged
    exactly when round 25 was completed, whatever the verdict on it. *)
Theorem not_reached_logged_iff_round_25_completed (args : Args) (w : W) :
  let msgs := messages (trace (snd (iops args (fresh w)))) in
  In MsgNotReached msgs <-> length (snapshots msgs) = 25%nat.
Proof.
  intros msgs.
  destruct (session_log_verdicts _ _ (session_has_log args w)) as (_ & _ & H & _).
  exact H.
Qed.

(** The check after a round never raises and leaves the session as it
    is: it returns [True] exactly when [in_steady_state] returns [True]
    on each of the three series. *)
Theorem all_steady_returns (t : tracking) (s : state W) :
  exists b,
    all_steady t s = (Ok b, s) /\
    (b = true <->
     Binary64.in_steady_state (rr0_4k_iops t) MEASUREMENT_WINDOW = Some true /\
     Binary64.in_steady_state (rr65_64k_iops t) MEASUREMENT_WINDOW = Some true /\
     Binary64.in_steady_state (rr100_1024k_iops t) MEASUREMENT_WINDOW = Some true).
Proof.
  exists (all_stable t). split; [apply all_steady_run|].
  unfold all_stable, verdict, MEASUREMENT_WINDOW.
  destruct (binary64_in_steady_state_5_total (rr0_4k_iops t)) as [a ->].
  destruct (binary64_in_steady_state_5_total (rr65_64k_iops t)) as [b ->].
  destruct (binary64_in_steady_state_5_total (rr100_1024k_iops t)) as [c ->].
  destruct a, b, c; simpl; split; try discriminate; auto;
    intros (Ha & Hb & Hc); discriminate.
Qed.

End Loop.

(** The three tracked cells of round 1 in a session that completed
    round 1. *)
Lemma tracked_points_are_cell_metrics_witness :
  let msgs :=
    messages (trace (snd (sim_session 512000 constant_workload 58 (sim_args false "PTS-E")))) in
  let t := {| rr0_4k_iops := [blend 0 (Binary64.of_Z 100) (Binary64.of_Z 100)];
              rr65_64k_iops := [blend 65 (Binary64.of_Z 100) (Binary64.of_Z 100)];
              rr100_1024k_iops := [blend 100 (Binary64.of_Z 100) (Binary64.of_Z 100)] |} in
  ((65%Z, "64k"%string) = (0%Z, "4k"%string) ->
   exists prev, rr0_4k_iops t = (prev ++ [blend 65 (Binary64.of_Z 100) (Binary64.of_Z 100)])%list) /\
  ((65%Z, "64k"%string) = (65%Z, "64k"%string) ->
   exists prev, rr65_64k_iops t = (prev ++ [blend 65 (Binary64.of_Z 100) (Binary64.of_Z 100)])%list) /\
  ((65%Z, "64k"%string) = (100%Z, "1024k"%string) ->
   exists prev, rr100_1024k_iops t = (prev ++ [blend 65 (Binary64.of_Z 100) (Binary64.of_Z 100)])%list).
Proof.
  intros msgs t.
  apply (tracked_points_are_cell_metrics (host := sim_host 58)
           (libs := sim_libs 512000 constant_workload) (sim_args false "PTS-E") 0%nat
           1%Z t 65%Z "64k"%string (blend 65 (Binary64.of_Z 100) (Binary64.of_Z 100))).
  - vm_compute. left. reflexivity.
  - vm_compute. repeat (first [left; reflexivity | right]).
Defined.

(** * The namespace of the device *)

Lemma first_found_some {A B} (f : A -> result (option B)) (l : list A) (b : B) :
  first_found f l = Ok (Some b) -> exists a, In a l /\ f a = Ok (Some b).
Proof.
  induction l as [|a l IH]; simpl; [discriminate|].
  destruct (f a) as [[b'|]| |] eqn:E; intros H; try discriminate.
  - exists a. split; [now left | congruence].
  - destruct (IH H) as (a' & Hin & Ha'). exists a'. auto.
Qed.

Lemma first_found_none {A B} (f : A -> result (option B)) (l : list A) :
  first_found f l = Ok None -> Forall (fun a => f a = Ok None) l.
Proof.
  induction l as [|a l IH]; simpl; [constructor|].
  destruct (f a) as [[b'|]| |] eqn:E; intros H; try discriminate.
  constructor; auto.
Qed.

Lemma rbind_ok {A B} (r : result A) (f : A -> result B) (b : B) :
  rbind r f = Ok b -> exists a, r = Ok a /\ f a = Ok b.
Proof. destruct r; simpl; intros H; try discriminate. eauto. Qed.

Lemma json_is_str_eq (x : json) (s : string) : json_is_str x s = true -> x = JStr s.
Proof.
  destruct x; simpl; try discriminate. intros H. apply String.eqb_eq in H. now subst.
Qed.

(** What the three nested loops return: an entry of some
    [Devices[i].Controllers[j].Namespaces[k]] whose ["NameSpace"] is the
    name looked for. *)
Lemma find_namespace_sound (j : json) (ns : string) (n : json) :
  find_namespace j ns = Ok (Some n) ->
  namespace_entry j n /\ getitem n "NameSpace" = Ok (JStr ns).
Proof.
  unfold find_namespace. intros H.
  apply rbind_ok in H. destruct H as (devices & Hdev & H).
  apply first_found_some in H. destruct H as (d & Hd & H).
  apply rbind_ok in H. destruct H as (controllers & Hctl & H).
  apply first_found_some in H. destruct H as (c & Hc & H).
  apply rbind_ok in H. destruct H as (namespaces & Hns & H).
  apply first_found_some in H. destruct H as (n' & Hn & H).
  apply rbind_ok in H. destruct H as (name & Hname & H).
  destruct (json_is_str name ns) eqn:E; [|discriminate].
  injection H as <-. apply json_is_str_eq in E. subst name.
  split; [|exact Hname].
  exists devices, d, controllers, c, namespaces. auto 10.
Qed.

Section Namespace.

Context {W : Type} {host : Host W} {libs : Libs}.

(** The namespace [get_nvme_namespace] returns is an entry of the
    listing it parsed, found under Devices, Controllers, Namespaces, and
    its ["NameSpace"] is the device path without its directories. *)
Theorem get_nvme_namespace_sound (data dev : string) (s s' : state W) (n : json) :
  get_nvme_namespace data dev s = (Ok n, s') ->
  exists j,
    json_loads data = Some j /\
    namespace_entry j n /\
    getitem n "NameSpace" = Ok (JStr (basename dev)).
Proof.
  unfold get_nvme_namespace, bind, attempt_pure, attempt, pure.
  destruct (json_loads data) as [j|]; simpl; [|discriminate].
  destruct (find_namespace j (basename dev)) as [[n'|]| |] eqn:E; simpl; try discriminate.
  intros [= <- _]. exists j. split; [reflexivity|]. now apply find_namespace_sound.
Qed.

End Namespace.

(** The listing of the simulated machine. *)
Lemma get_nvme_namespace_sound_witness :
  exists j,
    sim_json_loads 512000 constant_workload "nvme-list" = Some j /\
    namespace_entry j
      (JObj [("NameSpace", JStr "nvme0n1"); ("PhysicalSize", JInt 512000)]%string) /\
    getitem (JObj [("NameSpace", JStr "nvme0n1"); ("PhysicalSize", JInt 512000)]%string)
      "NameSpace" = Ok (JStr (basename "/dev/nvme0n1")).
Proof.
  apply (get_nvme_namespace_sound (libs := sim_libs 512000 constant_workload)
           "nvme-list" "/dev/nvme0n1" (fresh 0%nat)
           {| world := 0%nat;
              trace := [Call (Loads "nvme-list") true] |}).
  reflexivity.
Defined.

(** * What a session asks of the machine *)

(** ** Paths under a directory *)

Lemma prefix_refl (s : string) : String.prefix s s = true.
Proof.
  induction s as [|c s IH]; simpl; [reflexivity|].
  destruct (ascii_dec c c); [exact IH | congruence].
Qed.

Lemma prefix_append (a b : string) : String.prefix a (a ++ b) = true.
Proof.
  induction a as [|c a IH]; simpl; [now destruct b|].
  destruct (ascii_dec c c); [exact IH | congruence].
Qed.

Lemma prefix_trans (a b c : string) :
  String.prefix a b = true -> String.prefix b c = true -> String.prefix a c = true.
Proof.
  revert b c. induction a as [|x a IH]; intros [|y b] [|z c]; simpl; try congruence.
  destruct (ascii_dec x y), (ascii_dec y z); try congruence. subst.
  destruct (ascii_dec z z); [apply IH | congruence].
Qed.

(** Joining a relative path stays under the directory. *)
Lemma path_join_under (root a b : string) :
  String.prefix "/" b = false -> String.prefix root a = true ->
  String.prefix root (path_join a b) = true.
Proof.
  intros Hb Ha. unfold path_join. rewrite Hb.
  apply (prefix_trans root a); [exact Ha|].
  destruct (String.eqb a EmptyString || ends_with_slash a); apply prefix_append.
Qed.

Lemma cell_dir_under (args : Args) (n rr : Z) (bs leaf : string) :
  String.prefix "/" leaf = false ->
  String.prefix (output args) (cell_dir args n rr bs leaf) = true.
Proof.
  intros Hleaf. unfold cell_dir, path_join_all. simpl.
  repeat (apply path_join_under; [first [exact Hleaf | reflexivity]|]).
  apply prefix_refl.
Qed.

(** ** Pure code never calls [sys.exit] *)

Lemma exit1_rbind {A B} (r : result A) (f : A -> result B) :
  exit1 r -> (forall a, exit1 (f a)) -> exit1 (rbind r f).
Proof. destruct r; simpl; auto. Qed.

Lemma exit1_getitem x k : exit1 (getitem x k).
Proof. destruct x; simpl; auto. destruct (dict_get k kv); simpl; auto. Qed.

Lemma exit1_getitem0 x : exit1 (getitem0 x).
Proof. destruct x as [| | | |[|c s]|[|v l]|]; simpl; auto. Qed.

Lemma exit1_py_iter x : exit1 (py_iter x).
Proof. destruct x; simpl; auto. Qed.

Lemma exit1_int_to_float z : exit1 (int_to_float z).
Proof. unfold int_to_float. destruct (Binary64.is_infinite _); exact I. Qed.

Lemma exit1_as_number x : exit1 (as_number x).
Proof. destruct x; simpl; auto. apply exit1_int_to_float. Qed.

Lemma exit1_int_truediv a b : exit1 (int_truediv a b).
Proof.
  unfold int_truediv. destruct (b =? 0)%Z; [exact I|].
  destruct (Binary64.is_infinite _); exact I.
Qed.

Lemma exit1_truediv x d : exit1 (truediv x d).
Proof.
  destruct x; simpl; auto; try apply exit1_int_truediv.
  apply exit1_rbind; [apply exit1_int_to_float|]. intros y.
  destruct (d =? 0)%Z; exact I.
Qed.

Lemma exit1_py_int f : exit1 (py_int f).
Proof.
  unfold py_int. destruct (Binary64.truncate f); [exact I|].
  destruct (Binary64.is_infinite f); exact I.
Qed.

Lemma exit1_first_found {A B} (f : A -> result (option B)) (l : list A) :
  (forall a, exit1 (f a)) -> exit1 (first_found f l).
Proof.
  intros Hf. induction l as [|a l IH]; simpl; [exact I|].
  specialize (Hf a). destruct (f a) as [[b|]| |]; simpl in *; auto.
Qed.

Lemma exit1_find_namespace j ns : exit1 (find_namespace j ns).
Proof.
  unfold find_namespace.
  repeat first [ apply exit1_rbind | apply exit1_getitem | apply exit1_py_iter
               | apply exit1_first_found | intros ? ]; simpl; auto.
Qed.

(** ** The rules *)

Section Sound.

Context {W : Type} {host : Host W} {libs : Libs}.

Variable args : Args.

Lemma sound_weaken {A} (m : M W A) (Q Q' : A -> Prop) :
  sound W args m Q -> (forall a, Q a -> Q' a) -> sound W args m Q'.
Proof.
  intros H HQ s Hs. destruct (H s Hs) as [Htr Hres]. split; [exact Htr|].
  destruct (fst (m s)); auto.
Qed.

Lemma sound_ret {A} (a : A) (Q : A -> Prop) : Q a -> sound W args (ret a) Q.
Proof. intros H s Hs. simpl. auto. Qed.

Lemma sound_bind {A B} (m : M W A) (f : A -> M W B) (Q1 : A -> Prop) (Q2 : B -> Prop) :
  sound W args m Q1 -> (forall a, Q1 a -> sound W args (f a) Q2) ->
  sound W args (bind m f) Q2.
Proof.
  intros Hm Hf s Hs. unfold bind. destruct (Hm s Hs) as [Htr Hres].
  destruct (m s) as [[a|c|e] s']; simpl in *; auto.
  apply (Hf a Hres s' Htr).
Qed.

Lemma sound_sys_exit {A} (Q : A -> Prop) : sound W args (sys_exit 1) Q.
Proof. intros s Hs. simpl. auto. Qed.

Lemma sound_pure {A} (r : result A) : exit1 r -> sound W args (pure r) (fun a => r = Ok a).
Proof. intros Hr s Hs. unfold pure. simpl. split; [exact Hs|]. destruct r; auto. Qed.

Lemma sound_log msg : sound W args (log msg) any.
Proof. intros s Hs. simpl. split; [constructor; [exact I | exact Hs] | exact I]. Qed.

Lemma sound_query {R} (f : W -> R) : sound W args (query f) any.
Proof. intros s Hs. simpl. split; [exact Hs | exact I]. Qed.

Lemma sound_attempt {R} req (f : W -> option R * W) failure :
  (forall ok, issued args (Call req ok)) -> exit1 failure ->
  sound W args (attempt req f failure) any.
Proof.
  intros Hreq Hfail s Hs. unfold attempt.
  destruct (f (world s)) as [[v|] w']; simpl.
  - split; [constructor; [apply Hreq | exact Hs] | exact I].
  - split; [constructor; [apply Hreq | exact Hs]|]. destruct failure; simpl in *; auto.
Qed.

Lemma sound_for_each {A St} (l : list A) (body : A -> St -> M W St) :
  (forall a st, In a l -> sound W args (body a st) any) ->
  forall st, sound W args (for_each l body st) any.
Proof.
  induction l as [|a l IH]; intros Hbody st; simpl.
  - now apply sound_ret.
  - apply (sound_bind _ _ any); [apply Hbody; now left|].
    intros st' _. apply IH. intros a' st'' Hin. apply Hbody. now right.
Qed.

Lemma sound_any {A} (m : M W A) (Q : A -> Prop) : sound W args m Q -> sound W args m any.
Proof. intros H. apply (sound_weaken m Q); [exact H | intros; exact I]. Qed.

Lemma sound_then {A B} (m : M W A) (f : A -> M W B) (Q : B -> Prop) :
  sound W args m any -> (forall a, sound W args (f a) Q) -> sound W args (bind m f) Q.
Proof. intros Hm Hf. apply (sound_bind m f any Q); auto. Qed.

Lemma sound_ret_any {A} (a : A) : sound W args (ret a) any.
Proof. now apply sound_ret. Qed.

Lemma sound_pure_any {A} (r : result A) : exit1 r -> sound W args (pure r) any.
Proof. intros H. apply (sound_any _ _ (sound_pure r H)). Qed.

(** ** The wrappers *)

Lemma save_file_sound dirname filename data :
  String.prefix (output args) (path_join dirname filename) = true ->
  sound W args (save_file dirname filename data) any.
Proof. intros H. apply sound_attempt; [intros ok; exact H | reflexivity]. Qed.

Lemma read_file_sound dirname filename : sound W args (read_file dirname filename) any.
Proof.
  apply sound_then; [apply sound_attempt; [intros ok; exact I | reflexivity]|].
  intros data. apply sound_ret_any.
Qed.

Lemma create_dir_sound dirname :
  String.prefix (output args) dirname = true -> sound W args (create_dir dirname) any.
Proof.
  intros H. apply sound_then; [apply sound_query|]. intros present.
  destruct (negb present); [|apply sound_ret_any].
  apply sound_attempt; [intros ok; exact H | reflexivity].
Qed.

Lemma run_sound cmd : command_ok args cmd -> sound W args (run cmd) any.
Proof. intros H. apply sound_attempt; [intros ok; exact H | reflexivity]. Qed.

Lemma save_stdout_stderr_sound dirname result :
  String.prefix (output args) dirname = true ->
  sound W args (save_stdout_stderr dirname result) any.
Proof.
  intros H. unfold save_stdout_stderr.
  apply sound_then; [now apply create_dir_sound|]. intros _.
  apply sound_then.
  { destruct (negb _); [|apply sound_ret_any].
    apply save_file_sound. now apply path_join_under. }
  intros _.
  destruct (negb _); [|apply sound_ret_any].
  apply save_file_sound. now apply path_join_under.
Qed.

Lemma save_dict_sound dirname data :
  String.prefix (output args) dirname = true -> sound W args (save_dict dirname data) any.
Proof.
  intros H. apply sound_then; [now apply create_dir_sound|]. intros _.
  apply save_file_sound. now apply path_join_under.
Qed.

Lemma read_dir_files_sound dirname names : sound W args (read_dir_files dirname names) any.
Proof.
  apply sound_for_each. intros n d _.
  apply sound_then; [apply read_file_sound|]. intros v. apply sound_ret_any.
Qed.

Lemma read_dir_sound dirname : sound W args (read_dir dirname) any.
Proof.
  apply sound_then; [apply sound_attempt; [intros ok; exact I | reflexivity]|].
  intros names. apply read_dir_files_sound.
Qed.

Lemma get_nvme_module_info_sound : sound W args get_nvme_module_info any.
Proof.
  apply sound_then; [apply read_dir_files_sound|]. intros t.
  apply sound_then; [apply read_dir_sound|]. intros p. apply sound_ret_any.
Qed.

Lemma get_nvme_features_sound : sound W args (get_nvme_features (dev args)) any.
Proof.
  apply sound_then; [|intros result; apply sound_ret_any].
  apply sound_for_each. intros fid result Hfid.
  apply sound_then.
  { apply run_sound. do 5 right. left. exists fid. split; [exact Hfid | reflexivity]. }
  intros r.
  apply sound_then.
  { apply sound_pure_any. destruct (splitlines (stdout r)); exact I. }
  intros line0.
  apply sound_then; [apply sound_attempt; [intros ok; exact I | reflexivity]|].
  intros g.
  apply sound_then; [|intros hr; apply sound_ret_any].
  apply sound_for_each. intros l hr _.
  apply sound_then; [apply sound_attempt; [intros ok; exact I | reflexivity]|].
  intros g'. apply sound_ret_any.
Qed.

Lemma get_nvme_namespace_sound' data dev : sound W args (get_nvme_namespace data dev) any.
Proof.
  apply sound_then; [apply sound_attempt; [intros ok; exact I | reflexivity]|].
  intros j.
  apply sound_then; [apply sound_pure_any; apply exit1_find_namespace|].
  intros [n|]; [apply sound_ret_any | apply sound_sys_exit].
Qed.

Lemma run_and_save_fio_sound dirname job :
  String.prefix (output args) dirname = true -> fio_dir args dirname ->
  sound W args (run_and_save_fio dirname job) any.
Proof.
  intros Hunder Hdir. unfold run_and_save_fio.
  apply sound_then; [now apply create_dir_sound|]. intros _.
  apply sound_then; [apply save_file_sound; now apply path_join_under|]. intros _.
  apply sound_then.
  { apply run_sound. do 9 right. exists dirname. split; [exact Hdir | reflexivity]. }
  intros result.
  apply sound_then; [now apply save_stdout_stderr_sound|]. intros _.
  apply sound_then; [apply read_file_sound|]. intros data.
  apply sound_attempt; [intros ok; exact I | exact I].
Qed.

End Sound.

(** ** The session *)

Ltac solve_exit1 :=
  repeat first [ apply exit1_rbind | apply exit1_getitem | apply exit1_getitem0
               | apply exit1_as_number | apply exit1_py_iter | apply exit1_truediv
               | apply exit1_int_truediv | apply exit1_int_to_float | apply exit1_py_int
               | intros ? ].

Section SoundSession.

Context {W : Type} {host : Host W} {libs : Libs}.

Variable args : Args.

Lemma under_output (rel : string) :
  String.prefix "/" rel = false ->
  String.prefix (output args) (path_join (output args) rel) = true.
Proof. intros H. apply path_join_under; [exact H | apply prefix_refl]. Qed.

Lemma render_wipc_sound kwargs :
  wipc_params args kwargs -> sound W args (render WIPC_JOB_TPL kwargs) any.
Proof.
  intros H. unfold render, attempt_pure.
  apply sound_attempt; [intros ok; left; auto | reflexivity].
Qed.

Lemma render_wdpc_sound kwargs :
  wdpc_params args kwargs -> sound W args (render WDPC_IOPS_JOB_TPL kwargs) any.
Proof.
  intros H. unfold render, attempt_pure.
  apply sound_attempt; [intros ok; right; auto | reflexivity].
Qed.

Lemma smart_log_sound : sound W args (run_nvme_smart_log (dev args)) any.
Proof. apply run_sound. do 4 right. left. reflexivity. Qed.

Lemma iops_cell_sound queue_depth thread_count active_range runtime n rr bs t :
  mode_params args queue_depth thread_count ->
  runtime = (if test args then "10s" else "1m")%string ->
  In n (range 1 26) -> In rr MIXES -> In bs BLOCK_SIZES ->
  sound W args
    (iops_cell args queue_depth thread_count 3735928559 (fmt_d active_range ++ "k") runtime
       n rr bs t) any.
Proof.
  intros Hmode -> Hn Hrr Hbs. unfold iops_cell.
  apply sound_then; [apply smart_log_sound|]. intros smart.
  apply sound_then; [apply save_stdout_stderr_sound; now apply cell_dir_under|]. intros _.
  apply sound_then.
  { apply render_wdpc_sound.
    exists queue_depth, thread_count, active_range, rr, bs. auto. }
  intros job.
  apply sound_then.
  { apply run_and_save_fio_sound; [now apply cell_dir_under|].
    right. exists n, rr, bs. auto. }
  intros fio_result.
  apply sound_then; [apply smart_log_sound|]. intros smart'.
  apply sound_then; [apply save_stdout_stderr_sound; now apply cell_dir_under|]. intros _.
  do 4 (apply sound_then; [apply sound_pure_any; solve_exit1|]; intros ?).
  apply sound_then; [apply sound_log|]. intros _.
  repeat (destruct (_ && _); [apply sound_ret_any|]). apply sound_ret_any.
Qed.

Lemma all_steady_sound t : sound W args (all_steady t) any.
Proof. intros s Hs. rewrite all_steady_run. simpl. split; [exact Hs | exact I]. Qed.

Lemma iops_rounds_sound queue_depth thread_count active_range runtime rounds :
  mode_params args queue_depth thread_count ->
  runtime = (if test args then "10s" else "1m")%string ->
  (forall n, In n rounds -> In n (range 1 26)) ->
  forall round_num t,
  sound W args
    (iops_rounds args queue_depth thread_count 3735928559 (fmt_d active_range ++ "k") runtime
       rounds round_num t) any.
Proof.
  intros Hmode Hruntime.
  induction rounds as [|n rest IH]; intros Hrounds round_num t; cbn [iops_rounds].
  - apply sound_ret_any.
  - apply sound_then.
    { apply sound_for_each. intros rr st Hrr. apply sound_for_each. intros bs st' Hbs.
      apply iops_cell_sound; auto. apply Hrounds. now left. }
    intros t'.
    apply sound_then; [apply sound_log|]. intros _.
    apply sound_then; [apply all_steady_sound|]. intros s.
    destruct s.
    + apply sound_then; [apply sound_log|]. intros _. apply sound_ret_any.
    + apply IH. intros k Hk. apply Hrounds. now right.
Qed.

Lemma iops_sound : sound W args (iops args) any.
Proof.
  unfold iops.
  apply sound_then; [apply run_sound; left; reflexivity|]. intros r1.
  apply sound_then; [apply save_stdout_stderr_sound; now apply under_output|]. intros _.
  apply sound_then; [apply run_sound; right; left; reflexivity|]. intros r2.
  apply sound_then; [apply save_stdout_stderr_sound; now apply under_output|]. intros _.
  apply sound_then; [apply run_sound; do 3 right; left; reflexivity|]. intros r3.
  apply sound_then; [apply save_stdout_stderr_sound; now apply under_output|]. intros _.
  apply sound_then; [apply smart_log_sound|]. intros r4.
  apply sound_then; [apply save_stdout_stderr_sound; now apply under_output|]. intros _.
  apply sound_then; [apply get_nvme_module_info_sound|]. intros info.
  apply sound_then; [apply save_dict_sound; now apply under_output|]. intros _.
  apply sound_then; [apply get_nvme_features_sound|]. intros features.
  apply sound_then; [apply save_dict_sound; now apply under_output|]. intros _.
  apply sound_then; [apply read_dir_sound|]. intros queue.
  apply sound_then; [apply save_dict_sound; now apply under_output|]. intros _.
  apply sound_then; [apply run_sound; do 2 right; left; reflexivity|]. intros nvme_list_result.
  apply sound_then; [apply save_stdout_stderr_sound; now apply under_output|]. intros _.
  apply sound_then; [apply get_nvme_namespace_sound'|]. intros ns.
  apply sound_then; [apply sound_pure_any; solve_exit1|]. intros physical_size.
  (* 1 Purge the device *)
  apply sound_then.
  { destruct (test args) eqn:Etest; simpl; [apply sound_log|].
    apply sound_then.
    { apply run_sound. do 8 right. left. split; [exact Etest | reflexivity]. }
    intros r. apply save_stdout_stderr_sound. now apply under_output. }
  intros _.
  (* 2.1 test conditions *)
  apply (sound_bind args _ _ (fun v => mode_params args (snd (fst v)) (snd v))).
  { destruct (String.eqb (mode args) "PTS-E") eqn:EE;
      [|destruct (String.eqb (mode args) "PTS-C") eqn:EC]; [| |apply sound_sys_exit].
    - apply sound_then; [apply sound_log|]. intros _.
      apply sound_then.
      { apply run_sound. do 6 right. left. split; [now apply String.eqb_eq | reflexivity]. }
      intros r.
      apply sound_then; [apply save_stdout_stderr_sound; now apply under_output|]. intros _.
      apply sound_ret. left. split; [now apply String.eqb_eq | auto].
    - apply sound_then; [apply sound_log|]. intros _.
      apply sound_then.
      { apply run_sound. do 7 right. left. split; [now apply String.eqb_eq | reflexivity]. }
      intros r.
      apply sound_then; [apply save_stdout_stderr_sound; now apply under_output|]. intros _.
      apply sound_then; [apply sound_pure_any; solve_exit1|]. intros active_range.
      apply sound_ret. right. split; [now apply String.eqb_eq | auto]. }
  intros [[active_range queue_depth] thread_count] Hmode. simpl in Hmode.
  apply (sound_bind args _ _ (fun r => r = (if test args then "10s" else "1m")%string)).
  { destruct (test args); [|now apply sound_ret].
    apply sound_then; [apply sound_log|]. intros _. now apply sound_ret. }
  intros runtime Hruntime.
  apply sound_then; [apply sound_pure_any; solve_exit1|]. intros io_size.
  apply sound_then.
  { apply render_wipc_sound. exists queue_depth, thread_count, active_range, io_size. auto. }
  intros job.
  apply sound_then.
  { destruct (test args) eqn:Etest; [apply sound_log|].
    apply sound_then; [apply sound_log|]. intros _.
    apply sound_then.
    { apply run_and_save_fio_sound; [now apply under_output | left; auto]. }
    intros _. apply sound_ret_any. }
  intros _.
  apply sound_then; [apply iops_rounds_sound; auto|].
  intros [[n|] t];
    [destruct (n =? 25)%Z; [apply sound_log | apply sound_ret_any]
    | apply sound_pure_any; exact I].
Qed.

Lemma main_run_sound : sound W args (main_run args) any.
Proof.
  apply sound_then; [apply create_dir_sound; apply prefix_refl|].
  intros _. apply iops_sound.
Qed.

End SoundSession.

(** ** What every run of the program asks of the machine *)

Section Footprint.

Context {W : Type} {host : Host W} {libs : Libs}.

Lemma session_footprint (args : Args) (w : W) :
  Forall (issued args) (trace (snd (main_run args (fresh w)))) /\
  exit1 (fst (main_run args (fresh w))).
Proof.
  destruct (main_run_sound args (fresh w) (Forall_nil _)) as [Htr Hres].
  split; [exact Htr|].
  destruct (fst (main_run args (fresh w))); simpl; auto.
Qed.

Lemma session_issued (args : Args) (w : W) (e : event) :
  In e (trace (snd (main_run args (fresh w)))) -> issued args e.
Proof.
  intros H. destruct (session_footprint args w) as [Hall _].
  rewrite Forall_forall in Hall. now apply Hall.
Qed.

(** The program runs no other command than those of [command_ok]: lshw,
    lspci, and the nvme verbs list, id-ctrl, smart-log, get-feature for
    the nine feature ids, set-feature 0x06 with the value of the mode,
    format outside test mode, all on the device given; and fio on the job
    file of the pre-conditioning directory (outside test mode) or of a
    cell of rounds 1 to 25.  Every command goes through sudo. *)
Theorem session_commands (args : Args) (w : W) (cmd : list string) (ok : bool) :
  In (Call (Run cmd) ok) (trace (snd (main_run args (fresh w)))) ->
  command_ok args cmd /\ nth 0 cmd EmptyString = "/usr/bin/sudo"%string.
Proof.
  intros H. apply session_issued in H. simpl in H. split; [exact H|].
  destruct H as [->|[->|[->|[->|[->|[(fid & _ & ->)|[[_ ->]|[[_ ->]|[[_ ->]|(d & _ & ->)]]]]]]]]];
    reflexivity.
Qed.

(** In test mode the device is neither purged nor pre-conditioned: no
    command has the verb [format], and every fio run is the run of a
    cell. *)
Theorem test_mode_skips_purge_and_wipc (args : Args) (w : W) (cmd : list string) (ok : bool) :
  test args = true ->
  In (Call (Run cmd) ok) (trace (snd (main_run args (fresh w)))) ->
  nth 2 cmd EmptyString <> "format"%string /\
  (nth 1 cmd EmptyString = "/usr/bin/fio"%string ->
   exists n rr bs,
     In n (range 1 26) /\ In rr MIXES /\ In bs BLOCK_SIZES /\
     cmd = fio_command (cell_dir args n rr bs "wdpc")).
Proof.
  intros Htest H. apply session_issued in H. simpl in H.
  destruct H as [->|[->|[->|[->|[->|[(fid & _ & ->)|[[_ ->]|[[_ ->]|[[Hf _]|(d & Hd & ->)]]]]]]]]];
    try (split; [discriminate | intros E; discriminate E]).
  - congruence.
  - split; [discriminate|]. intros _.
    destruct Hd as [[Hf _]|(n & rr & bs & Hn & Hrr & Hbs & ->)]; [congruence|].
    exists n, rr, bs. auto.
Qed.

(** Every file the program writes and every directory it creates lies
    under the output directory. *)
Theorem writes_stay_under_output (args : Args) (w : W)
    (req : request) (ok : bool) (path : string) :
  In (Call req ok) (trace (snd (main_run args (fresh w)))) ->
  written_path req = Some path ->
  String.prefix (output args) path = true.
Proof.
  intros H Hpath. apply session_issued in H.
  destruct req; simpl in *; try discriminate; injection Hpath as <-; exact H.
Qed.

(** When the program ends by [sys.exit], either the command line was
    parsed and the status is 1, or the exit is the one [parse_args] made
    with its own status, and then nothing was asked of the machine and
    nothing was logged. *)
Theorem exit_status_is_1_after_parsing (argv : list string) (w : W) (code : Z) :
  fst (main argv (fresh w)) = Exit code ->
  (exists args, parse_args argv = Parsed args /\ code = 1%Z) \/
  (parse_args argv = ParseExit code /\ snd (main argv (fresh w)) = fresh w).
Proof.
  unfold main. destruct (parse_args argv) as [args|c].
  - intros H. left. exists args. split; [reflexivity|].
    destruct (session_footprint args w) as [_ Hres].
    rewrite H in Hres. exact Hres.
  - unfold sys_exit. simpl. intros [= <-]. right. split; reflexivity.
Qed.

(** The job of every cell is rendered with the queue depth and thread
    count of the mode (32 and 4 for PTS-E, 16 and 2 for PTS-C), the seed
    0xDEADBEEF, a mix and a block size of the matrix, and the run time
    [1m], or [10s] in test mode. *)
Theorem wdpc_job_parameters (args : Args) (w : W)
    (kwargs : list (string * pyval)) (ok : bool) :
  In (Call (Render WDPC_IOPS_JOB_TPL kwargs) ok) (trace (snd (main_run args (fresh w)))) ->
  exists queue_depth thread_count active_range rr bs,
    (mode args = "PTS-E"%string /\ queue_depth = 32%Z /\ thread_count = 4%Z \/
     mode args = "PTS-C"%string /\ queue_depth = 16%Z /\ thread_count = 2%Z) /\
    In rr MIXES /\ In bs BLOCK_SIZES /\
    kwargs =
      [("device", PStr (dev args)); ("queue_depth", PInt queue_depth);
       ("thread_count", PInt thread_count); ("seed", PInt 3735928559);
       ("size", PStr (fmt_d active_range ++ "k")); ("read_rate", PInt rr);
       ("block_size", PStr bs);
       ("runtime", PStr (if test args then "10s" else "1m"))]%string.
Proof.
  intros H. apply session_issued in H. simpl in H.
  destruct H as [[E _]|[_ H]]; [now elim wdpc_is_not_wipc|]. exact H.
Qed.

End Footprint.

(** A test-mode session on the simulated machine whose second fio run
    fails. *)

Lemma session_commands_witness :
  command_ok (sim_args true "PTS-E")
    ["/usr/bin/sudo"; "/usr/sbin/nvme"; "set-feature";
     "--feature-id=0x06"; "--value=0x0"; "/dev/nvme0n1"]%string /\
  nth 0 ["/usr/bin/sudo"; "/usr/sbin/nvme"; "set-feature";
         "--feature-id=0x06"; "--value=0x0"; "/dev/nvme0n1"]%string EmptyString
  = "/usr/bin/sudo"%string.
Proof.
  apply (session_commands (host := sim_host 1) (libs := sim_libs 512000 constant_workload)
           (sim_args true "PTS-E") 0%nat _ true).
  vm_compute. repeat (first [left; reflexivity | right]).
Defined.

Lemma test_mode_skips_purge_and_wipc_witness :
  let cmd := fio_command (cell_dir (sim_args true "PTS-E") 1 100 "1024k" "wdpc") in
  nth 2 cmd EmptyString <> "format"%string /\
  (nth 1 cmd EmptyString = "/usr/bin/fio"%string ->
   exists n rr bs,
     In n (range 1 26) /\ In rr MIXES /\ In bs BLOCK_SIZES /\
     cmd = fio_command (cell_dir (sim_args true "PTS-E") n rr bs "wdpc")).
Proof.
  apply (test_mode_skips_purge_and_wipc (host := sim_host 1)
           (libs := sim_libs 512000 constant_workload) (sim_args true "PTS-E") 0%nat _ true).
  - reflexivity.
  - vm_compute. repeat (first [left; reflexivity | right]).
Defined.

Lemma writes_stay_under_output_witness :
  String.prefix (output (sim_args true "PTS-E"))
    "out/round-1/rr-100/bs-1024k/wdpc/job.fio" = true.
Proof.
  apply (writes_stay_under_output (host := sim_host 1)
           (libs := sim_libs 512000 constant_workload) (sim_args true "PTS-E") 0%nat
           (WriteFile "out/round-1/rr-100/bs-1024k/wdpc/job.fio" "job") true).
  - vm_compute. repeat (first [left; reflexivity | right]).
  - reflexivity.
Defined.

(** The command line with the device alone, on a machine where fio
    fails. *)
Lemma exit_status_is_1_after_parsing_witness :
  (exists args, sim_parse_args ["/dev/nvme0n1"%string] = Parsed args /\ 1%Z = 1%Z) \/
  (sim_parse_args ["/dev/nvme0n1"%string] = ParseExit 1 /\
   snd (main (host := sim_host 0) (libs := sim_libs 512000 constant_workload)
          ["/dev/nvme0n1"%string] (fresh 0%nat)) = fresh 0%nat).
Proof.
  apply (exit_status_is_1_after_parsing (host := sim_host 0)
           (libs := sim_libs 512000 constant_workload) ["/dev/nvme0n1"%string] 0%nat 1%Z).
  vm_compute. reflexivity.
Defined.

Lemma wdpc_job_parameters_witness :
  exists queue_depth thread_count active_range rr bs,
    (mode (sim_args true "PTS-E") = "PTS-E"%string /\
     queue_depth = 32%Z /\ thread_count = 4%Z \/
     mode (sim_args true "PTS-E") = "PTS-C"%string /\
     queue_depth = 16%Z /\ thread_count = 2%Z) /\
    In rr MIXES /\ In bs BLOCK_SIZES /\
    [("device", PStr "/dev/nvme0n1"); ("queue_depth", PInt 32);
     ("thread_count", PInt 4); ("seed", PInt 3735928559);
     ("size", PStr "500k"); ("read_rate", PInt 100);
     ("block_size", PStr "1024k"); ("runtime", PStr "10s")]%string =
      [("device", PStr (dev (sim_args true "PTS-E"))); ("queue_depth", PInt queue_depth);
       ("thread_count", PInt thread_count); ("seed", PInt 3735928559);
       ("size", PStr (fmt_d active_range ++ "k")); ("read_rate", PInt rr);
       ("block_size", PStr bs);
       ("runtime", PStr (if test (sim_args true "PTS-E") then "10s" else "1m"))]%string.
Proof.
  apply (wdpc_job_parameters (host := sim_host 1) (libs := sim_libs 512000 constant_workload)
           (sim_args true "PTS-E") 0%nat _ true).
  vm_compute. repeat (first [left; reflexivity | right]).
Defined.

(** * The order of purge, pre-conditioning and measurement *)

Lemma before_purge_in_order args tr : Forall before_purge tr -> in_order args tr.
Proof.
  induction 1 as [|e tr He _ IH]; simpl; [exact I|]. split; [|exact IH].
  destruct e as [[]|]; simpl in *; auto; try congruence.
Qed.

Lemma in_order_split args after e before :
  in_order args (after ++ e :: before) -> step_in_order args e before.
Proof.
  induction after as [|a after IH]; simpl; intros [H1 H2]; auto.
Qed.

Section Order.

Context {W : Type} {host : Host W} {libs : Libs}.

Variable args : Args.

(** The three phases of a session outside test mode. *)
Let phase1 (tr : list event) : Prop := Forall before_purge tr.
Let phase2 (tr : list event) : Prop := in_order args tr /\ purged args tr.
Let phase3 (tr : list event) : Prop :=
  in_order args tr /\ purged args tr /\ preconditioned args tr.

Lemma phase1_in_order tr : phase1 tr -> in_order args tr.
Proof. apply before_purge_in_order. Qed.

Lemma phase2_in_order tr : phase2 tr -> in_order args tr.
Proof. now intros [H _]. Qed.

Lemma phase3_in_order tr : phase3 tr -> in_order args tr.
Proof. now intros [H _]. Qed.

Lemma phase1_admits req :
  before_purge (Call req true) -> admits phase1 (in_order args) req.
Proof.
  intros Hreq tr Htr. split.
  - constructor; [exact Hreq | exact Htr].
  - apply before_purge_in_order. constructor; [|exact Htr].
    destruct req; simpl in *; auto.
Qed.

Lemma phase1_admits_other req :
  kind_of req <> KRun -> kind_of req <> KRender -> admits phase1 (in_order args) req.
Proof.
  intros H1 H2. apply phase1_admits. destruct req; simpl in *; auto; congruence.
Qed.

Lemma phase1_log msg tr : phase1 tr -> phase1 (Log msg :: tr).
Proof. intros H. constructor; [exact I | exact H]. Qed.

Lemma phase2_admits req :
  (forall kwargs, req <> Render WDPC_IOPS_JOB_TPL kwargs) ->
  admits phase2 (in_order args) req.
Proof.
  intros Hreq tr [Hord Hp].
  assert (Hstep : forall ok, step_in_order args (Call req ok) tr).
  { intros ok. destruct req; simpl; auto. intros ->. now elim (Hreq kwargs). }
  unfold phase2, purged in *. cbn [in_order].
  split; [split; [split; [apply Hstep | exact Hord] | right; exact Hp]
         | split; [apply Hstep | exact Hord]].
Qed.

Lemma phase2_log msg tr : phase2 tr -> phase2 (Log msg :: tr).
Proof.
  intros [Hord Hp]. unfold phase2, purged in *. cbn [in_order].
  split; [split; [exact I | exact Hord] | right; exact Hp].
Qed.

Lemma phase3_admits req : admits phase3 (in_order args) req.
Proof.
  intros tr (Hord & Hp & Hw).
  assert (Hstep : forall ok, step_in_order args (Call req ok) tr).
  { intros ok. destruct req; simpl; auto. }
  unfold phase3, purged, preconditioned in *. cbn [in_order].
  split; [split; [split; [apply Hstep | exact Hord] | split; right; assumption]
         | split; [apply Hstep | exact Hord]].
Qed.

Lemma phase3_log msg tr : phase3 tr -> phase3 (Log msg :: tr).
Proof.
  intros (Hord & Hp & Hw). unfold phase3, purged, preconditioned in *. cbn [in_order].
  split; [split; [exact I | exact Hord] | split; right; assumption].
Qed.

(** *** Before the purge *)

Lemma run_phase1 cmd : is_fio cmd = false -> inv W phase1 (in_order args) (run cmd).
Proof.
  intros H. apply inv_attempt; [exact I | now apply phase1_admits].
Qed.

Lemma fs_phase1 req : kind_of req = KFs -> admits phase1 (in_order args) req.
Proof. intros H. apply phase1_admits_other; congruence. Qed.

Lemma get_nvme_features_phase1 dev : inv W phase1 (in_order args) (get_nvme_features dev).
Proof.
  pose proof phase1_in_order as GB.
  apply inv_bind; [|intros; apply inv_ret].
  apply inv_for_each. intros fid result.
  apply inv_bind; [apply run_phase1; reflexivity|]. intros r.
  apply inv_bind; [apply inv_pure; assumption|]. intros line0.
  apply inv_bind.
  { apply inv_attempt_pure; [exact I|]. apply phase1_admits_other; simpl; congruence. }
  intros g.
  apply inv_bind; [|intros; apply inv_ret].
  apply inv_for_each. intros l hr.
  apply inv_bind; [|intros; apply inv_ret].
  apply inv_attempt_pure; [exact I|]. apply phase1_admits_other; simpl; congruence.
Qed.

Hypothesis Htest : test args = false.

(** The session up to the purge, the purge, the pre-conditioning and the
    loop: the trace is in order wherever the session ends. *)
Lemma iops_in_order : hoare W phase1 (iops args) (fun _ => in_order args) (in_order args).
Proof.
  pose proof phase1_in_order as GB1.
  pose proof phase2_in_order as GB2.
  pose proof phase3_in_order as GB3.
  pose proof fs_phase1 as FS1.
  assert (FS2 : forall req, kind_of req = KFs -> admits phase2 (in_order args) req).
  { intros req H. apply phase2_admits. intros kw ->. discriminate H. }
  assert (RUN2 : forall req, kind_of req = KRun -> admits phase2 (in_order args) req).
  { intros req H. apply phase2_admits. intros kw ->. discriminate H. }
  assert (ALL3 : forall req, admits phase3 (in_order args) req) by exact phase3_admits.
  unfold iops.
  do 4 (eapply hoare_bind; [apply run_phase1; reflexivity|]; intros ?;
        eapply hoare_bind; [apply save_stdout_stderr_inv; assumption|]; intros ?).
  eapply hoare_bind; [apply get_nvme_module_info_inv; assumption|]. intros info.
  eapply hoare_bind; [apply save_dict_inv; assumption|]. intros ?.
  eapply hoare_bind; [apply get_nvme_features_phase1|]. intros features.
  eapply hoare_bind; [apply save_dict_inv; assumption|]. intros ?.
  eapply hoare_bind; [apply get_queue_info_inv; assumption|]. intros queue.
  eapply hoare_bind; [apply save_dict_inv; assumption|]. intros ?.
  eapply hoare_bind; [apply run_phase1; reflexivity|]. intros nvme_list_result.
  eapply hoare_bind; [apply save_stdout_stderr_inv; assumption|]. intros ?.
  eapply hoare_bind.
  { apply get_nvme_namespace_inv; try assumption.
    intros req H. apply phase1_admits_other; congruence. }
  intros ns.
  eapply hoare_bind; [apply inv_pure; assumption|]. intros ns_physical_size.
  (* 1 Purge the device *)
  rewrite Htest. cbn [negb].
  apply (hoare_bind _ _ _ (fun _ => phase2)).
  { apply (hoare_bind _ _ _ (fun _ => phase2)).
    - apply hoare_attempt; [exact I| |].
      + intros v tr Htr. split; [|now left].
        cbn [in_order]. split; [intros E; discriminate E | now apply phase1_in_order].
      + intros tr Htr. cbn [in_order].
        split; [intros E; discriminate E | now apply phase1_in_order].
    - intros r. apply save_stdout_stderr_inv; assumption. }
  intros _.
  (* 2.1 test conditions *)
  apply (hoare_bind _ _ _ (fun _ => phase2)).
  { apply inv_if; [|apply inv_if; [|apply inv_sys_exit; assumption]];
      (apply inv_bind; [apply inv_log; apply phase2_log |]; intros _;
       apply inv_bind; [apply run_inv; assumption |]; intros r;
       apply inv_bind; [apply save_stdout_stderr_inv; assumption |];
       intros _).
    - apply inv_ret.
    - apply inv_bind; [apply inv_pure; assumption|]. intros active_range. apply inv_ret. }
  intros [[active_range queue_depth] thread_count].
  apply (hoare_bind _ _ _ (fun _ => phase2)); [apply inv_ret|]. intros runtime.
  apply (hoare_bind _ _ _ (fun _ => phase2)); [apply inv_pure; assumption|]. intros io_size.
  apply (hoare_bind _ _ _ (fun _ => phase2)).
  { apply inv_attempt_pure; [exact I|]. apply phase2_admits.
    intros kw E. injection E as E _. symmetry in E. now elim wdpc_is_not_wipc. }
  intros job.
  (* 2.2 workload-independent pre-conditioning *)
  apply (hoare_bind _ _ _ (fun _ => phase3)).
  { apply (hoare_bind _ _ _ (fun _ => phase2)); [apply inv_log; apply phase2_log|]. intros _.
    apply (hoare_bind _ _ _ (fun _ => phase3)); [|intros; apply inv_ret].
    unfold run_and_save_fio.
    apply (hoare_bind _ _ _ (fun _ => phase2)); [apply create_dir_inv; assumption|]. intros _.
    apply (hoare_bind _ _ _ (fun _ => phase2)); [apply save_file_inv; assumption|]. intros _.
    apply (hoare_bind _ _ _ (fun _ => phase3)).
    { apply hoare_attempt; [exact I| |].
      - intros v tr [Hord Hp]. split; [|split]; [|now right|now left].
        cbn [in_order]. split; [intros _; exact Hp | exact Hord].
      - intros tr [Hord Hp]. cbn [in_order]. split; [intros _; exact Hp | exact Hord]. }
    intros result.
    apply (hoare_bind _ _ _ (fun _ => phase3));
      [apply save_stdout_stderr_inv; intros; apply ALL3|]. intros _.
    apply (hoare_bind _ _ _ (fun _ => phase3));
      [apply read_file_inv; intros; apply ALL3|]. intros data.
    apply inv_attempt_pure; [exact I | apply ALL3]. }
  intros _.
  (* 3.2 the test loop *)
  apply (hoare_bind _ _ _ (fun _ => phase3)).
  { apply iops_rounds_inv; try assumption; try (intros; apply ALL3).
    exact phase3_log. }
  intros [[n|] t]; [destruct (n =? 25)%Z|].
  - apply hoare_log. intros tr Htr. apply GB3. now apply phase3_log.
  - apply hoare_ret. exact GB3.
  - apply hoare_pure; [discriminate|]. intros tr _. exact (GB3 tr).
Qed.

Lemma main_run_in_order (w : W) : in_order args (trace (snd (main_run args (fresh w)))).
Proof.
  assert (H : hoare W phase1 (main_run args) (fun _ => in_order args) (in_order args)).
  { apply (hoare_bind _ _ _ (fun _ => phase1)); [|intros ?; apply iops_in_order].
    apply create_dir_inv; exact fs_phase1. }
  specialize (H (fresh w) (Forall_nil _)).
  destruct (main_run args (fresh w)) as [[a|c|e] s']; exact H.
Qed.

(** Outside test mode the order purge, pre-conditioning, measurement is
    kept: every fio run comes after a successful [nvme format] of the
    device, and the job of every cell is rendered after a successful fio
    run of the pre-conditioning job. *)
Theorem format_precedes_every_fio_run (w : W) (after : list event) (e : event)
    (before : list event) :
  trace (snd (main_run args (fresh w))) = (after ++ e :: before)%list ->
  (forall cmd ok,
     e = Call (Run cmd) ok -> nth 1 cmd EmptyString = "/usr/bin/fio"%string ->
     In (Call (Run ["/usr/bin/sudo"; "/usr/sbin/nvme"; "format"; "-f"; "-l0"; dev args]%string)
           true) before) /\
  (forall kwargs ok,
     e = Call (Render WDPC_IOPS_JOB_TPL kwargs) ok ->
     In (Call (Run (fio_command (path_join (output args) "pre-conditioning/wipc"))) true)
        before).
Proof.
  intros Htr. pose proof (main_run_in_order w) as H. rewrite Htr in H.
  apply in_order_split in H. split.
  - intros cmd ok -> Hfio. simpl in H. apply H.
    unfold is_fio. now apply String.eqb_eq.
  - intros kwargs ok ->. simpl in H. now apply H.
Qed.

End Order.

(** A session whose second measurement run fails: the failed fio run is
    the newest event. *)
Lemma format_precedes_every_fio_run_witness :
  let args := sim_args false "PTS-E" in
  let session :=
    main_run (host := sim_host 2) (libs := sim_libs 512000 constant_workload) args
      (fresh 0%nat) in
  let e := hd (Log MsgSteady) (trace (snd session)) in
  let before := tl (trace (snd session)) in
  (forall cmd ok,
     e = Call (Run cmd) ok -> nth 1 cmd EmptyString = "/usr/bin/fio"%string ->
     In (Call (Run ["/usr/bin/sudo"; "/usr/sbin/nvme"; "format"; "-f"; "-l0"; dev args]%string)
           true) before) /\
  (forall kwargs ok,
     e = Call (Render WDPC_IOPS_JOB_TPL kwargs) ok ->
     In (Call (Run (fio_command (path_join (output args) "pre-conditioning/wipc"))) true)
        before).
Proof.
  intros args session e before.
  apply (format_precedes_every_fio_run (host := sim_host 2)
           (libs := sim_libs 512000 constant_workload) args eq_refl 0%nat []).
  vm_compute. reflexivity.
Defined.

(** * The recorded settings *)

(** ** Dictionaries *)

Lemma dict_get_set_same {V} (k : string) (v : V) d : dict_get k (dict_set k v d) = Some v.
Proof.
  induction d as [|[k' v'] d IH]; simpl.
  - now rewrite String.eqb_refl.
  - destruct (String.eqb k k') eqn:E; simpl; rewrite ?String.eqb_refl, ?E; auto.
Qed.

Lemma dict_get_set_other {V} (k k' : string) (v : V) d :
  k <> k' -> dict_get k' (dict_set k v d) = dict_get k' d.
Proof.
  intros Hne. induction d as [|[k0 v0] d IH]; simpl.
  - destruct (String.eqb k' k) eqn:E; [|reflexivity].
    apply String.eqb_eq in E. congruence.
  - destruct (String.eqb k k0) eqn:E; simpl.
    + apply String.eqb_eq in E. subst k0.
      destruct (String.eqb k' k) eqn:E'; [|reflexivity].
      apply String.eqb_eq in E'. congruence.
    + destruct (String.eqb k' k0); auto.
Qed.

(** ** Computations that return *)

Section Returns.

Context {W : Type} {host : Host W} {libs : Libs}.

(** What [read_file] returns is the content of the file at the time of
    the call, without its trailing blanks. *)
Lemma read_file_ok dirname n (s s' : state W) v :
  read_file dirname n s = (Ok v, s') ->
  exists raw,
    fst (file_read (path_join dirname n) (world s)) = Some raw /\ v = rstrip raw /\
    world s' = snd (file_read (path_join dirname n) (world s)).
Proof.
  unfold read_file. intros H. apply bind_ok in H. destruct H as (raw & s1 & H & Hret).
  apply ret_ok in Hret. destruct Hret as [-> ->].
  pose proof (attempt_world _ _ (Exit 1) _ _ _ I H) as Hw.
  apply attempt_ok in H; [|exact I]. destruct H as [_ H]. eauto.
Qed.

(** The dictionary of [read_dir_files] has, for each name, what was read
    from the file of that name, and no other key. *)
Lemma read_dir_files_contents dirname names (s s' : state W) d :
  read_dir_files dirname names s = (Ok d, s') ->
  (forall k, In k names ->
     exists w raw,
       fst (file_read (path_join dirname k) w) = Some raw /\
       dict_get k d = Some (JStr (rstrip raw))) /\
  (forall k x, dict_get k d = Some x -> In k names).
Proof.
  intros H. unfold read_dir_files in H.
  apply (for_each_ok
           (fun done d =>
              (forall k, In k done ->
                 exists w raw,
                   fst (file_read (path_join dirname k) w) = Some raw /\
                   dict_get k d = Some (JStr (rstrip raw))) /\
              (forall k x, dict_get k d = Some x -> In k done)))
    with (done := []) in H; [exact H| |].
  - clear. intros n d s d' s' done [Hdone Hall] H.
    apply bind_ok in H. destruct H as (v & s1 & Hread & H).
    apply ret_ok in H. destruct H as [-> _].
    apply read_file_ok in Hread. destruct Hread as (raw & Hraw & -> & _).
    split.
    + intros k Hk. apply in_app_or in Hk. destruct (string_dec n k) as [->|Hne].
      * rewrite dict_get_set_same. eauto.
      * rewrite dict_get_set_other by exact Hne.
        destruct Hk as [Hk|[Hk|[]]]; [now apply Hdone | congruence].
    + intros k x. destruct (string_dec n k) as [->|Hne].
      * intros _. apply in_or_app. right. now left.
      * rewrite dict_get_set_other by exact Hne. intros Hk.
        apply in_or_app. left. now apply (Hall k x).
  - split; [intros k [] | intros k x; discriminate].
Qed.

(** A loop that appends one element in each iteration. *)
Lemma for_each_appends {A B} (P : A -> B -> Prop) (body : A -> list B -> M W (list B)) :
  (forall a acc s acc' s',
     body a acc s = (Ok acc', s') -> exists b, acc' = (acc ++ [b])%list /\ P a b) ->
  forall l acc s acc' s',
    for_each l body acc s = (Ok acc', s') ->
    exists bs, acc' = (acc ++ bs)%list /\ Forall2 P l bs.
Proof.
  intros Hbody. induction l as [|a l IH]; intros acc s acc' s' H; cbn [for_each] in H.
  - apply ret_ok in H. destruct H as [-> _]. exists [].
    split; [now rewrite app_nil_r | constructor].
  - apply bind_ok in H. destruct H as (acc1 & s1 & H1 & H2).
    destruct (Hbody _ _ _ _ _ H1) as (b & -> & Hb).
    destruct (IH _ _ _ _ H2) as (bs & -> & Hbs).
    exists (b :: bs). split; [now rewrite <- app_assoc | now constructor].
Qed.

(** When [get_nvme_module_info] returns, it has read the files [version]
    and [srcversion] of [/sys/module/nvme], in this order, and then
    listed [/sys/module/nvme/parameters].  The dictionary has three
    entries: under [version] and [srcversion] what was read from the two
    files, without trailing blanks, and under [parameters] a dictionary
    that has, for each name listed, what was read from the file of that
    name in the directory, and no other key. *)
Theorem get_nvme_module_info_contents (s s' : state W) (t : list (string * json)) :
  get_nvme_module_info s = (Ok t, s') ->
  let w1 := snd (file_read (path_join "/sys/module/nvme" "version") (world s)) in
  let w2 := snd (file_read (path_join "/sys/module/nvme" "srcversion") w1) in
  exists version srcversion names parameters,
    fst (file_read (path_join "/sys/module/nvme" "version") (world s)) = Some version /\
    fst (file_read (path_join "/sys/module/nvme" "srcversion") w1) = Some srcversion /\
    fst (os_scandir "/sys/module/nvme/parameters" w2) = Some names /\
    t = [("version", JStr (rstrip version)); ("srcversion", JStr (rstrip srcversion));
         ("parameters", JObj parameters)]%string /\
    (forall k, In k names ->
       exists w raw,
         fst (file_read (path_join "/sys/module/nvme/parameters" k) w) = Some raw /\
         dict_get k parameters = Some (JStr (rstrip raw))) /\
    (forall k x, dict_get k parameters = Some x -> In k names).
Proof.
  intros H w1 w2. unfold get_nvme_module_info in H.
  apply bind_ok in H. destruct H as (t0 & s2 & Ht0 & H).
  apply bind_ok in H. destruct H as (p & s3 & Hp & H).
  apply ret_ok in H. destruct H as [-> _].
  unfold read_dir_files in Ht0. cbn [for_each] in Ht0.
  apply bind_ok in Ht0. destruct Ht0 as (d1 & s1 & H1 & Ht0).
  apply bind_ok in H1. destruct H1 as (v1 & s1' & Hv1 & H1).
  apply ret_ok in H1. destruct H1 as [-> ->].
  apply bind_ok in Ht0. destruct Ht0 as (d2 & s2' & H2 & Ht0).
  apply bind_ok in H2. destruct H2 as (v2 & s2'' & Hv2 & H2).
  apply ret_ok in H2. destruct H2 as [-> ->].
  apply ret_ok in Ht0. destruct Ht0 as [-> ->].
  apply read_file_ok in Hv1. destruct Hv1 as (version & Hversion & -> & Hw1).
  apply read_file_ok in Hv2. destruct Hv2 as (srcversion & Hsrc & -> & Hw2).
  rewrite Hw1 in Hsrc, Hw2. fold w1 in Hsrc, Hw2. fold w2 in Hw2.
  unfold read_dir in Hp. apply bind_ok in Hp. destruct Hp as (names & s4 & Hscan & Hp).
  apply attempt_ok in Hscan; [|exact I]. destruct Hscan as [_ Hscan]. rewrite Hw2 in Hscan.
  apply read_dir_files_contents in Hp. destruct Hp as [Hin Hkeys].
  exists version, srcversion, names, p.
  split; [exact Hversion|]. split; [exact Hsrc|]. split; [exact Hscan|].
  split; [reflexivity|]. split; [exact Hin | exact Hkeys].
Qed.

(** When [get_nvme_features] returns, the list has nine dictionaries, the
    i-th made from the output of [nvme get-feature] for the i-th feature
    id of 0x01, 0x02, 0x04, ..., 0x0A: the groups of [p1] on the first
    line of the output, and under [human-readable] the list of the
    groups of [p2] on each of the other lines, in order. *)
Theorem get_nvme_features_entries (dev : string) (s s' : state W) (v : json) :
  get_nvme_features dev s = (Ok v, s') ->
  exists result,
    v = JArr result /\ length result = 9%nat /\
    FIDS = [1; 2; 4; 5; 6; 7; 8; 9; 10]%Z /\
    Forall2
      (fun fid f =>
         exists w r line0 rest g hr,
           fst (subprocess_run
                  ["/usr/bin/sudo"; "/usr/sbin/nvme"; "get-feature"; "--human-readable";
                   "--feature-id=0x" ++ fmt_02x fid; dev]%string w) = Some r /\
           splitlines (stdout r) = line0 :: rest /\
           p1_match line0 = Some g /\
           Forall2 (fun l h => exists g2, p2_match l = Some g2 /\ h = JObj (groupdict g2))
             rest hr /\
           f = JObj (dict_set "human-readable" (JArr hr) (groupdict g)))
      FIDS result.
Proof.
  intros H. unfold get_nvme_features in H.
  apply bind_ok in H. destruct H as (result & s1 & H & Hret).
  apply ret_ok in Hret. destruct Hret as [-> _].
  apply (for_each_appends
           (fun fid f =>
              exists w r line0 rest g hr,
                fst (subprocess_run
                       ["/usr/bin/sudo"; "/usr/sbin/nvme"; "get-feature"; "--human-readable";
                        "--feature-id=0x" ++ fmt_02x fid; dev]%string w) = Some r /\
                splitlines (stdout r) = line0 :: rest /\
                p1_match line0 = Some g /\
                Forall2 (fun l h => exists g2, p2_match l = Some g2 /\ h = JObj (groupdict g2))
                  rest hr /\
                f = JObj (dict_set "human-readable" (JArr hr) (groupdict g)))) in H.
  - destruct H as (bs & -> & Hall). exists bs. split; [reflexivity|].
    split; [apply Forall2_length in Hall; rewrite <- Hall; reflexivity|].
    split; [reflexivity | exact Hall].
  - clear. intros fid acc s acc' s' H.
    apply bind_ok in H. destruct H as (r & s1 & Hrun & H).
    apply bind_ok in H. destruct H as (line0 & s2 & Hline & H).
    apply bind_ok in H. destruct H as (g & s3 & Hg & H).
    apply bind_ok in H. destruct H as (hr & s4 & Hhr & H).
    apply ret_ok in H. destruct H as [-> _].
    unfold run_nvme_get_feature, run in Hrun.
    apply attempt_ok in Hrun; [|exact I]. destruct Hrun as [_ Hrun].
    apply pure_ok in Hline. destruct Hline as [Hline _].
    destruct (splitlines (stdout r)) as [|l rest] eqn:Elines; [discriminate Hline|].
    injection Hline as ->.
    unfold attempt_pure in Hg. apply attempt_ok in Hg; [|exact I]. destruct Hg as [_ Hg].
    simpl in Hg.
    apply (for_each_appends
             (fun l h => exists g2, p2_match l = Some g2 /\ h = JObj (groupdict g2))) in Hhr.
    + destruct Hhr as (hs & -> & Hhs). simpl in Hhs.
      eexists. split; [reflexivity|].
      exists (world s), r, line0, rest, g, hs. auto 10.
    + clear. intros l hr s hr' s' H.
      apply bind_ok in H. destruct H as (g2 & s1 & Hg2 & H).
      apply ret_ok in H. destruct H as [-> _].
      unfold attempt_pure in Hg2. apply attempt_ok in Hg2; [|exact I].
      destruct Hg2 as [_ Hg2]. simpl in Hg2. eauto.
Qed.

End Returns.

(** The module directory of the simulated machine. *)
Lemma get_nvme_module_info_contents_witness :
  let run :=
    get_nvme_module_info (host := sim_host 0) (libs := sim_libs 512000 constant_workload)
      (fresh 0%nat) in
  let t := match fst run with Ok t => t | _ => [] end in
  exists version srcversion names parameters,
    fst (file_read (Host := sim_host 0) (path_join "/sys/module/nvme" "version") 0%nat)
      = Some version /\
    fst (file_read (Host := sim_host 0) (path_join "/sys/module/nvme" "srcversion") 0%nat)
      = Some srcversion /\
    fst (os_scandir (Host := sim_host 0) "/sys/module/nvme/parameters" 0%nat) = Some names /\
    t = [("version", JStr version); ("srcversion", JStr srcversion);
         ("parameters", JObj parameters)]%string /\
    (forall k, In k names ->
       exists w raw,
         fst (file_read (Host := sim_host 0)
                (path_join "/sys/module/nvme/parameters" k) w) = Some raw /\
         dict_get k parameters = Some (JStr raw)) /\
    (forall k x, dict_get k parameters = Some x -> In k names).
Proof.
  intros run t.
  apply (get_nvme_module_info_contents (host := sim_host 0)
           (libs := sim_libs 512000 constant_workload) (fresh 0%nat) (snd run)).
  vm_compute. reflexivity.
Defined.

(** The features of the simulated machine. *)
Lemma get_nvme_features_entries_witness :
  let run :=
    get_nvme_features (host := sim_host 0) (libs := sim_libs 512000 constant_workload)
      "/dev/nvme0n1" (fresh 0%nat) in
  exists result,
    match fst run with Ok v => v | _ => JNull end = JArr result /\ length result = 9%nat /\
    FIDS = [1; 2; 4; 5; 6; 7; 8; 9; 10]%Z /\
    Forall2
      (fun fid f =>
         exists w r line0 rest g hr,
           fst (subprocess_run (Host := sim_host 0)
                  ["/usr/bin/sudo"; "/usr/sbin/nvme"; "get-feature"; "--human-readable";
                   "--feature-id=0x" ++ fmt_02x fid; "/dev/nvme0n1"]%string w) = Some r /\
           splitlines (Libs := sim_libs 512000 constant_workload) (stdout r) = line0 :: rest /\
           p1_match (Libs := sim_libs 512000 constant_workload) line0 = Some g /\
           Forall2
             (fun l h =>
                exists g2,
                  p2_match (Libs := sim_libs 512000 constant_workload) l = Some g2 /\
                  h = JObj (groupdict g2))
             rest hr /\
           f = JObj (dict_set "human-readable" (JArr hr) (groupdict g)))
      FIDS result.
Proof.
  intros run.
  apply (get_nvme_features_entries (host := sim_host 0)
           (libs := sim_libs 512000 constant_workload) "/dev/nvme0n1" (fresh 0%nat) (snd run)).
  vm_compute. reflexivity.
Defined.

(** * The wrappers, step by step *)

Section Wrappers.

Context {W : Type} {host : Host W} {libs : Libs}.

(** When [run_and_save_fio] returns, it has written the job to
    [job.fio], then run fio on that file, then read [output.json], in
    this order, and it returns the parse of what it read. *)
Theorem run_and_save_fio_steps (dirname job : string) (s s' : state W) (v : json) :
  run_and_save_fio dirname job s = (Ok v, s') ->
  exists data later earlier,
    trace s' =
      (Call (Loads data) true
       :: Call (ReadFile (path_join dirname "output.json")) true
       :: later
       ++ Call (Run ["/usr/bin/sudo"; "/usr/bin/fio"; "--output-format=json+";
                     "--output=" ++ path_join dirname "output.json";
                     path_join dirname "job.fio"]%string) true
       :: Call (WriteFile (path_join dirname "job.fio") job) true
       :: earlier ++ trace s)%list /\
    Forall is_call later /\ Forall is_call earlier /\
    json_loads data = Some v.
Proof.
  intros H. unfold run_and_save_fio in H.
  apply bind_ok in H. destruct H as (a1 & s1 & H1 & H).
  apply bind_ok in H. destruct H as (a2 & s2 & H2 & H).
  apply bind_ok in H. destruct H as (result & s3 & H3 & H).
  apply bind_ok in H. destruct H as (a4 & s4 & H4 & H).
  apply bind_ok in H. destruct H as (data & s5 & H5 & H).
  apply create_dir_grown in H1. destruct H1 as (earlier & E1 & Hearlier).
  apply attempt_ok in H2; [|exact I]. destruct H2 as [E2 _].
  apply attempt_ok in H3; [|exact I]. destruct H3 as [E3 _].
  apply save_stdout_stderr_grown in H4. destruct H4 as (later & E4 & Hlater).
  unfold read_file in H5. apply bind_ok in H5. destruct H5 as (raw & s5' & H5 & Hret).
  injection Hret as <- <-.
  apply attempt_ok in H5; [|exact I]. destruct H5 as [E5 _].
  unfold attempt_pure in H.
  apply attempt_ok in H; [|exact I]. destruct H as [E6 Hload]. simpl in Hload.
  exists (rstrip raw), later, earlier.
  rewrite E6, E5, E4, E3, E2, E1.
  split; [reflexivity|].
  split; [eapply Forall_impl; [apply quiet_is_call | exact Hlater]|].
  split; [eapply Forall_impl; [apply quiet_is_call | exact Hearlier] | exact Hload].
Qed.

(** [save_stdout_stderr] asks for nothing but the directory and one log
    file for each stream that is not empty, with the stream as content;
    when it returns, the log file of every such stream was written. *)
Theorem save_stdout_stderr_requests (dirname : string) (result : CompletedProcess)
    (s : state W) :
  let run := save_stdout_stderr dirname result s in
  (exists new,
     trace (snd run) = (new ++ trace s)%list /\ Forall (saves_streams dirname result) new) /\
  (is_ok (fst run) = true -> stdout result <> EmptyString ->
   In (Call (WriteFile (path_join dirname "stdout.log") (stdout result)) true)
      (trace (snd run))) /\
  (is_ok (fst run) = true -> stderr result <> EmptyString ->
   In (Call (WriteFile (path_join dirname "stderr.log") (stderr result)) true)
      (trace (snd run))).
Proof.
  intros run. subst run. split; [|split].
  - assert (Hinv : inv W (grown (saves_streams dirname result) (trace s))
                         (grown (saves_streams dirname result) (trace s))
                         (save_stdout_stderr dirname result)).
    { unfold save_stdout_stderr.
      apply inv_bind.
      { apply inv_bind; [apply inv_query|]. intros present.
        apply inv_if; [|apply inv_ret].
        apply inv_attempt; [exact I|]. apply grown_admits. intros ok. reflexivity. }
      intros _.
      apply inv_bind.
      { destruct (String.eqb (stdout result) EmptyString) eqn:E; [apply inv_ret|].
        apply inv_attempt; [exact I|]. apply grown_admits. intros ok.
        left. apply String.eqb_neq in E. auto. }
      intros _.
      destruct (String.eqb (stderr result) EmptyString) eqn:E; [apply inv_ret|].
      apply inv_attempt; [exact I|]. apply grown_admits. intros ok.
      right. apply String.eqb_neq in E. auto. }
    specialize (Hinv s (grown_refl _ _)).
    destruct (save_stdout_stderr dirname result s) as [[a|c|e] s']; exact Hinv.
  - destruct (save_stdout_stderr dirname result s) as [[a|c|e] s'] eqn:H;
      try discriminate. intros _ Hout. simpl.
    unfold save_stdout_stderr in H.
    apply bind_ok in H. destruct H as (a1 & s1 & _ & H).
    apply bind_ok in H. destruct H as (a2 & s2 & H2 & H3).
    apply String.eqb_neq in Hout. rewrite Hout in H2. simpl in H2.
    apply attempt_ok in H2; [|exact I]. destruct H2 as [E2 _].
    destruct (negb (String.eqb (stderr result) EmptyString)).
    + apply attempt_ok in H3; [|exact I]. destruct H3 as [E3 _].
      rewrite E3, E2. right. left. reflexivity.
    + injection H3 as _ <-. rewrite E2. left. reflexivity.
  - destruct (save_stdout_stderr dirname result s) as [[a|c|e] s'] eqn:H;
      try discriminate. intros _ Herr. simpl.
    unfold save_stdout_stderr in H.
    apply bind_ok in H. destruct H as (a1 & s1 & _ & H).
    apply bind_ok in H. destruct H as (a2 & s2 & _ & H3).
    apply String.eqb_neq in Herr. rewrite Herr in H3. simpl in H3.
    apply attempt_ok in H3; [|exact I]. destruct H3 as [E3 _].
    rewrite E3. left. reflexivity.
Qed.

End Wrappers.

Lemma run_and_save_fio_steps_witness :
  let run :=
    run_and_save_fio (host := sim_host 1) (libs := sim_libs 512000 constant_workload)
      "out/wdpc" "job" (fresh 0%nat) in
  exists data later earlier,
    trace (snd run) =
      (Call (Loads data) true
       :: Call (ReadFile (path_join "out/wdpc" "output.json")) true
       :: later
       ++ Call (Run ["/usr/bin/sudo"; "/usr/bin/fio"; "--output-format=json+";
                     "--output=" ++ path_join "out/wdpc" "output.json";
                     path_join "out/wdpc" "job.fio"]%string) true
       :: Call (WriteFile (path_join "out/wdpc" "job.fio") "job") true
       :: earlier ++ trace (fresh 0%nat))%list /\
    Forall is_call later /\ Forall is_call earlier /\
    sim_json_loads 512000 constant_workload data = Some (sim_fio_report (constant_workload 1)).
Proof.
  intros run.
  apply (run_and_save_fio_steps (host := sim_host 1)
           (libs := sim_libs 512000 constant_workload) "out/wdpc" "job" (fresh 0%nat) (snd run)).
  vm_compute. reflexivity.
Defined.

(** A process that wrote to both streams, on the simulated machine. *)
Lemma save_stdout_stderr_requests_witness :
  let result := {| stdout := "out"; stderr := "err" |} in
  let run := save_stdout_stderr (host := sim_host 0) "dir" result (fresh 0%nat) in
  (exists new,
     trace (snd run) = (new ++ trace (fresh 0%nat))%list /\
     Forall (saves_streams "dir" result) new) /\
  (is_ok (fst run) = true -> stdout result <> EmptyString ->
   In (Call (WriteFile (path_join "dir" "stdout.log") (stdout result)) true)
      (trace (snd run))) /\
  (is_ok (fst run) = true -> stderr result <> EmptyString ->
   In (Call (WriteFile (path_join "dir" "stderr.log") (stderr result)) true)
      (trace (snd run))).
Proof.
  exact (save_stdout_stderr_requests (host := sim_host 0) "dir"
           {| stdout := "out"; stderr := "err" |} (fresh 0%nat)).
Defined.

(** * A mode that is neither PTS-E nor PTS-C *)

Section UnknownMode.

Context {W : Type} {host : Host W} {libs : Libs}.

Variable args : Args.
Variable tr0 : list event.

(** Nothing of the workload was asked since [tr0]. *)
Let idle : list event -> Prop := grown no_workload tr0.

Lemma idle_admits req :
  (forall ok, no_workload (Call req ok)) -> admits idle idle req.
Proof. apply grown_admits. Qed.

Lemma idle_fs req : kind_of req = KFs -> admits idle idle req.
Proof. intros H. apply idle_admits. intros ok. destruct req; try discriminate H; exact I. Qed.

Lemma idle_match req : kind_of req = KMatch -> admits idle idle req.
Proof. intros H. apply idle_admits. intros ok. destruct req; try discriminate H; exact I. Qed.

Lemma idle_loads req : kind_of req = KLoads -> admits idle idle req.
Proof. intros H. apply idle_admits. intros ok. destruct req; try discriminate H; exact I. Qed.

Lemma idle_log msg tr : idle tr -> idle (Log msg :: tr).
Proof. apply grown_cons. exact I. Qed.

Lemma run_idle cmd :
  is_fio cmd = false -> nth 2 cmd EmptyString <> "set-feature"%string ->
  inv W idle idle (run cmd).
Proof.
  intros H1 H2. apply inv_attempt; [exact I|]. apply idle_admits. intros ok. now split.
Qed.

Lemma get_nvme_features_idle dev : inv W idle idle (get_nvme_features dev).
Proof.
  assert (GB : forall tr, idle tr -> idle tr) by auto.
  pose proof idle_match as MATCH.
  apply inv_bind; [|intros; apply inv_ret].
  apply inv_for_each. intros fid result.
  apply inv_bind; [apply run_idle; [reflexivity | discriminate]|]. intros r.
  apply inv_bind; [apply inv_pure; assumption|]. intros line0.
  apply inv_bind; [apply inv_attempt_pure; [exact I | now apply MATCH]|]. intros g.
  apply inv_bind; [|intros; apply inv_ret].
  apply inv_for_each. intros l hr.
  apply inv_bind; [|intros; apply inv_ret].
  apply inv_attempt_pure; [exact I | now apply MATCH].
Qed.

Hypothesis not_enterprise : mode args <> "PTS-E"%string.
Hypothesis not_client : mode args <> "PTS-C"%string.

Lemma iops_unknown_mode : hoare W idle (iops args) (fun _ _ => False) idle.
Proof.
  assert (GB : forall tr, idle tr -> idle tr) by auto.
  pose proof idle_fs as FS.
  pose proof idle_loads as LOADS.
  unfold iops.
  do 4 (eapply hoare_bind; [apply run_idle; [reflexivity | discriminate]|]; intros ?;
        eapply hoare_bind; [apply save_stdout_stderr_inv; assumption|]; intros ?).
  eapply hoare_bind; [apply get_nvme_module_info_inv; assumption|]. intros info.
  eapply hoare_bind; [apply save_dict_inv; assumption|]. intros ?.
  eapply hoare_bind; [apply get_nvme_features_idle|]. intros features.
  eapply hoare_bind; [apply save_dict_inv; assumption|]. intros ?.
  eapply hoare_bind; [apply get_queue_info_inv; assumption|]. intros queue.
  eapply hoare_bind; [apply save_dict_inv; assumption|]. intros ?.
  eapply hoare_bind; [apply run_idle; [reflexivity | discriminate]|]. intros nvme_list_result.
  eapply hoare_bind; [apply save_stdout_stderr_inv; assumption|]. intros ?.
  eapply hoare_bind; [apply get_nvme_namespace_inv; assumption|]. intros ns.
  eapply hoare_bind; [apply inv_pure; assumption|]. intros ns_physical_size.
  (* 1 Purge the device *)
  apply (hoare_bind _ _ _ (fun _ => idle)).
  { apply inv_if.
    - apply inv_bind; [apply run_idle; [reflexivity | discriminate]|]. intros r.
      apply save_stdout_stderr_inv; assumption.
    - apply inv_log. apply idle_log. }
  intros _.
  (* 2.1 test conditions: the mode is refused *)
  apply String.eqb_neq in not_enterprise, not_client.
  rewrite not_enterprise, not_client.
  apply (hoare_bind _ _ _ (fun _ _ => False)).
  - apply hoare_sys_exit. auto.
  - intros x s [].
Qed.

End UnknownMode.

Section Refused.

Context {W : Type} {host : Host W} {libs : Libs}.

(** With a mode that is neither PTS-E nor PTS-C, [iops] never returns: it
    ends by [sys.exit] or an exception, and up to there it has not set a
    device feature, run fio or rendered a job. *)
Theorem unknown_mode_is_refused (args : Args) (s : state W) :
  mode args <> "PTS-E"%string -> mode args <> "PTS-C"%string ->
  let session := iops args s in
  is_ok (fst session) = false /\
  exists new,
    trace (snd session) = (new ++ trace s)%list /\ Forall no_workload new.
Proof.
  intros HE HC session. subst session.
  pose proof (iops_unknown_mode args (trace s) HE HC s (grown_refl _ _)) as H.
  destruct (iops args s) as [[a|c|e] s']; [destruct H | |]; split; auto.
Qed.

End Refused.

(** A session with the mode PTS-X on the simulated machine. *)
Lemma unknown_mode_is_refused_witness :
  let session :=
    iops (host := sim_host 1) (libs := sim_libs 512000 constant_workload)
      (sim_args false "PTS-X") (fresh 0%nat) in
  is_ok (fst session) = false /\
  exists new,
    trace (snd session) = (new ++ trace (fresh 0%nat))%list /\ Forall no_workload new.
Proof.
  apply (unknown_mode_is_refused (host := sim_host 1)
           (libs := sim_libs 512000 constant_workload) (sim_args false "PTS-X") (fresh 0%nat));
    simpl; discriminate.
Defined.

(** * The queue settings *)

Section Queue.

Context {W : Type} {host : Host W} {libs : Libs}.

(** The dictionary of [read_dir_files] has the names read as keys, and
    no other key. *)
Lemma read_dir_files_entries dirname names (s s' : state W) d :
  read_dir_files dirname names s = (Ok d, s') ->
  (forall k, In k names -> exists v, dict_get k d = Some (JStr v)) /\
  (forall k x, dict_get k d = Some x -> In k names /\ exists v, x = JStr v).
Proof.
  intros H. unfold read_dir_files in H.
  apply (for_each_ok
           (fun done d =>
              (forall k, In k done -> exists v, dict_get k d = Some (JStr v)) /\
              (forall k x, dict_get k d = Some x -> In k done /\ exists v, x = JStr v)))
    with (done := []) in H; [exact H| |].
  - clear. intros n d s d' s' done [Hdone Hall] H.
    apply bind_ok in H. destruct H as (v & s1 & _ & H). injection H as <- _.
    split.
    + intros k Hk. apply in_app_or in Hk. destruct (string_dec n k) as [->|Hne].
      * rewrite dict_get_set_same. eauto.
      * rewrite dict_get_set_other by exact Hne.
        destruct Hk as [Hk|[Hk|[]]]; [now apply Hdone | congruence].
    + intros k x. destruct (string_dec n k) as [->|Hne].
      * rewrite dict_get_set_same. intros [= <-].
        split; [apply in_or_app; right; now left | eauto].
      * rewrite dict_get_set_other by exact Hne. intros Hk.
        destruct (Hall k x Hk) as [Hin Hstr]. split; [apply in_or_app; now left | exact Hstr].
  - split; [intros k [] | intros k x; discriminate].
Qed.

(** When [get_queue_info] returns, the directory [/sys/block/<name>/queue]
    of the device, [<name>] the device path without its directories, was
    listed, and the dictionary has one entry for each name listed, a
    string, and no other entry. *)
Theorem get_queue_info_entries (dev : string) (s s' : state W) (d : list (string * json)) :
  get_queue_info dev s = (Ok d, s') ->
  exists names,
    fst (os_scandir (path_join_all "/sys/block" [basename dev; "queue"]%string) (world s))
      = Some names /\
    (forall k, In k names -> exists v, dict_get k d = Some (JStr v)) /\
    (forall k x, dict_get k d = Some x -> In k names /\ exists v, x = JStr v).
Proof.
  intros H. unfold get_queue_info, read_dir in H.
  apply bind_ok in H. destruct H as (names & s1 & Hscan & H).
  apply attempt_ok in Hscan; [|exact I]. destruct Hscan as [_ Hscan].
  exists names. split; [exact Hscan|]. now apply read_dir_files_entries in H.
Qed.

End Queue.

(** The queue directory of the simulated machine. *)
Lemma get_queue_info_entries_witness :
  let run :=
    get_queue_info (host := sim_host 0) (libs := sim_libs 512000 constant_workload)
      "/dev/nvme0n1" (fresh 0%nat) in
  let d := match fst run with Ok d => d | _ => [] end in
  exists names,
    fst (os_scandir (Host := sim_host 0)
           (path_join_all "/sys/block" [basename "/dev/nvme0n1"; "queue"]%string) 0%nat)
      = Some names /\
    (forall k, In k names -> exists v, dict_get k d = Some (JStr v)) /\
    (forall k x, dict_get k d = Some x -> In k names /\ exists v, x = JStr v).
Proof.
  intros run d.
  apply (get_queue_info_entries (host := sim_host 0)
           (libs := sim_libs 512000 constant_workload) "/dev/nvme0n1" (fresh 0%nat) (snd run)).
  vm_compute. reflexivity.
Defined.

(** * A namespace that is not in the listing *)

Lemma first_found_none_in {A B} (f : A -> result (option B)) (l : list A) (a : A) :
  first_found f l = Ok None -> In a l -> f a = Ok None.
Proof.
  intros H Hin. apply first_found_none in H. rewrite Forall_forall in H. auto.
Qed.

(** The three nested loops end without a [return] only when every entry
    they visit has a ["NameSpace"] other than the name looked for. *)
Lemma find_namespace_none (j : json) (ns : string) (n : json) :
  find_namespace j ns = Ok None -> namespace_entry j n ->
  exists name, getitem n "NameSpace" = Ok name /\ name <> JStr ns.
Proof.
  unfold find_namespace. intros H (devices & d & controllers & c & namespaces & Entry).
  destruct Entry as (Hdev & Hd & Hctl & Hc & Hns & Hn).
  apply rbind_ok in H. destruct H as (devices' & Hdev' & H).
  rewrite Hdev in Hdev'. injection Hdev' as <-.
  apply (first_found_none_in _ _ d) in H; [|exact Hd].
  apply rbind_ok in H. destruct H as (controllers' & Hctl' & H).
  rewrite Hctl in Hctl'. injection Hctl' as <-.
  apply (first_found_none_in _ _ c) in H; [|exact Hc].
  apply rbind_ok in H. destruct H as (namespaces' & Hns' & H).
  rewrite Hns in Hns'. injection Hns' as <-.
  apply (first_found_none_in _ _ n) in H; [|exact Hn].
  apply rbind_ok in H. destruct H as (name & Hname & H).
  exists name. split; [exact Hname|].
  intros ->. simpl in H. rewrite String.eqb_refl in H. discriminate H.
Qed.

(** The search raises or returns; it has no [sys.exit] of its own. *)
Lemma rbind_no_exit {A B} (r : result A) (f : A -> result B) :
  (forall c, r <> Exit c) -> (forall a c, f a <> Exit c) -> forall c, rbind r f <> Exit c.
Proof.
  intros Hr Hf c. destruct r as [a|code|e]; simpl; [apply Hf | | discriminate].
  now elim (Hr code).
Qed.

Lemma getitem_no_exit x k c : getitem x k <> Exit c.
Proof. destruct x; simpl; try discriminate. destruct (dict_get k _); discriminate. Qed.

Lemma py_iter_no_exit x c : py_iter x <> Exit c.
Proof. destruct x; discriminate. Qed.

Lemma first_found_no_exit {A B} (f : A -> result (option B)) (l : list A) :
  (forall a c, f a <> Exit c) -> forall c, first_found f l <> Exit c.
Proof.
  intros Hf c. induction l as [|a l IH]; simpl; [discriminate|].
  specialize (Hf a c). destruct (f a) as [[b|]| |]; auto; discriminate.
Qed.

Lemma find_namespace_no_exit j ns c : find_namespace j ns <> Exit c.
Proof.
  unfold find_namespace. revert c.
  repeat first [ apply rbind_no_exit | apply getitem_no_exit | apply py_iter_no_exit
               | apply first_found_no_exit | intros ? ]; discriminate.
Qed.

Section NotFound.

Context {W : Type} {host : Host W} {libs : Libs}.

(** [get_nvme_namespace] ends by [sys.exit] only with status 1, and only
    when the listing is not JSON or none of its namespace entries has the
    name of the device as ["NameSpace"]. *)
Theorem get_nvme_namespace_exits (data dev : string) (s s' : state W) (c : Z) :
  get_nvme_namespace data dev s = (Exit c, s') ->
  c = 1%Z /\
  (json_loads data = None \/
   exists j,
     json_loads data = Some j /\
     forall n, namespace_entry j n ->
       exists name, getitem n "NameSpace" = Ok name /\ name <> JStr (basename dev)).
Proof.
  unfold get_nvme_namespace, bind, attempt_pure, attempt, pure, sys_exit, ret.
  destruct (json_loads data) as [j|]; simpl.
  - destruct (find_namespace j (basename dev)) as [[n'|]|c'|] eqn:E; simpl; try discriminate.
    + intros [= <- _]. split; [reflexivity|]. right. exists j. split; [reflexivity|].
      intros n Hn. now apply (find_namespace_none j).
    + now elim (find_namespace_no_exit j (basename dev) c').
  - intros [= <- _]. split; [reflexivity|]. now left.
Qed.

End NotFound.

(** The listing of the simulated machine has no namespace nvme9n9. *)
Lemma get_nvme_namespace_exits_witness :
  1%Z = 1%Z /\
  (json_loads (Libs := sim_libs 512000 constant_workload) "nvme-list" = None \/
   exists j,
     json_loads (Libs := sim_libs 512000 constant_workload) "nvme-list" = Some j /\
     forall n, namespace_entry j n ->
       exists name, getitem n "NameSpace" = Ok name /\ name <> JStr (basename "/dev/nvme9n9")).
Proof.
  apply (get_nvme_namespace_exits (libs := sim_libs 512000 constant_workload)
           "nvme-list" "/dev/nvme9n9" (fresh 0%nat)
           (snd (get_nvme_namespace (libs := sim_libs 512000 constant_workload)
                   "nvme-list" "/dev/nvme9n9" (fresh 0%nat))) 1%Z).
  reflexivity.
Defined.
